(** * wechat-love: the narrative core, embedded from the TypeScript sources

    The development follows the classes of the game core:

    - [GameStateMachine]  (core/GameStateMachine.ts)
    - [CharacterSystem]   (core/CharacterSystem.ts)
    - [FlagManager]       (the FlagManager class)
    - [SaveLoadSystem]    (core/SaveLoadSystem.ts) and the load path of
      [GameManager]
    - [DialogSystem]      (core/DialogSystem.ts)
    - [StoryManager]      (the StoryManager class)
    - [InventorySystem]   (core/InventorySystem.ts)
    - [EventEmitter]      (the EventEmitter class)

    [SaveListeners], [DialogWidgets] and [StoryWidgets] embed [save] and
    the methods of story play once more, with the listeners of
    ['saveFailed'], the engine widgets of the dialog and the dropped
    promises of [playNode] made explicit.

    Conventions of the embedding.

    - Every manager is a singleton object in the source; here it is a
      record, and a method that stays within its manager is a function
      from the record to the returned value, the updated record and the
      list of notifications it passed to [EventEmitter.emit], in emission
      order. Methods that reach across managers run on the record [Game]
      of all singletons, which also holds the log of notifications.
    - JavaScript numbers that hold counters and scores are integers of
      [Z]; the values used by the game stay far below 2^53.
    - A JavaScript [Map] or plain object that is only read by key is a
      [gmap]; where the key order is observable (a chapter's node table,
      the entries of a choice's favor table) it is an association list in
      enumeration order.
    - [Date.now()] is an explicit argument [now].

    The file has the definitions first, then the vocabulary of the
    statements, then the lemmas and theorems, grouped by manager. *)

From Stdlib Require Import ZArith String List.
From stdpp Require Import base option list gmap strings pretty.

Local Open Scope string_scope.
Local Open Scope list_scope.
Local Open Scope Z_scope.

(** Values of type [any] that travel through notifications and effects. *)
Inductive JsValue : Type :=
  | JsUndefined
  | JsBool (b : bool)
  | JsNumber (n : Z)
  | JsString (s : string).

#[global] Instance JsValue_eq_dec : EqDecision JsValue.
Proof. solve_decision. Defined.

(* ===================================================================== *)
(** * GameStateMachine.ts *)
(* ===================================================================== *)

Module GameStateMachine.

Inductive GameState : Type :=
  | BOOT | TITLE | MAIN_MENU
  | PLAYING | DIALOG | CHOICE | EVENT | DATE
  | PAUSE | INVENTORY | CHARACTER | MAP
  | SETTINGS | SAVE_LOAD | GALLERY | ACHIEVEMENT
  | ENDING | CREDITS.

Inductive MenuState : Type :=
  | MENU_MAIN | MENU_NEW_GAME | MENU_CONTINUE | MENU_LOAD
  | MENU_SETTINGS | MENU_GALLERY | MENU_EXIT.

Inductive DialogState : Type :=
  | WAITING | TYPING | COMPLETE | AUTO | SKIP.

#[global] Instance GameState_eq_dec : EqDecision GameState.
Proof. solve_decision. Defined.
#[global] Instance MenuState_eq_dec : EqDecision MenuState.
Proof. solve_decision. Defined.
#[global] Instance DialogState_eq_dec : EqDecision DialogState.
Proof. solve_decision. Defined.

(** The string each enum member stands for ([GameState.PLAYING = 'playing']). *)
Definition GameState_value (s : GameState) : string :=
  match s with
  | BOOT => "boot" | TITLE => "title" | MAIN_MENU => "main_menu"
  | PLAYING => "playing" | DIALOG => "dialog" | CHOICE => "choice"
  | EVENT => "event" | DATE => "date"
  | PAUSE => "pause" | INVENTORY => "inventory" | CHARACTER => "character"
  | MAP => "map"
  | SETTINGS => "settings" | SAVE_LOAD => "save_load" | GALLERY => "gallery"
  | ACHIEVEMENT => "achievement"
  | ENDING => "ending" | CREDITS => "credits"
  end.

(** [STATE_TRANSITIONS]: the states each state may move to. *)
Definition STATE_TRANSITIONS (s : GameState) : list GameState :=
  match s with
  | BOOT => [TITLE]
  | TITLE => [MAIN_MENU]
  | MAIN_MENU => [PLAYING; SAVE_LOAD; SETTINGS; GALLERY]
  | PLAYING => [DIALOG; CHOICE; EVENT; DATE; PAUSE; INVENTORY; CHARACTER]
  | DIALOG => [CHOICE; EVENT; PLAYING; ENDING]
  | CHOICE => [DIALOG; EVENT; PLAYING]
  | EVENT => [DIALOG; PLAYING; ENDING]
  | DATE => [PLAYING; DIALOG]
  | PAUSE => [PLAYING; SAVE_LOAD; SETTINGS]
  | INVENTORY => [PLAYING]
  | CHARACTER => [PLAYING]
  | MAP => [PLAYING]
  | SETTINGS => [MAIN_MENU; PAUSE]
  | SAVE_LOAD => [MAIN_MENU; PLAYING]
  | GALLERY => [MAIN_MENU; PAUSE]
  | ACHIEVEMENT => [MAIN_MENU; PAUSE]
  | ENDING => [CREDITS; TITLE; MAIN_MENU]
  | CREDITS => [TITLE]
  end.

(** Notifications of the state machine. *)
Inductive Notification : Type :=
  | stateChanged (oldState newState : GameState) (data : JsValue)
  | menuStateChanged (state : MenuState)
  | dialogStateChanged (state : DialogState).

(** The private fields of the class; [_stateStack] is the array, its last
    element is the top of the stack. *)
Record t : Type := mk {
  _currentState : GameState;
  _previousState : GameState;
  _menuState : MenuState;
  _dialogState : DialogState;
  _stateStack : list GameState;
}.

(** A freshly constructed instance (the field initialisers). *)
Definition new : t :=
  {| _currentState := BOOT; _previousState := BOOT;
     _menuState := MENU_MAIN; _dialogState := WAITING;
     _stateStack := [] |}.

(** [Array.prototype.includes] on a list of enum members. *)
Definition includes (l : list GameState) (x : GameState) : bool :=
  existsb (fun y => bool_decide (y = x)) l.

Definition canTransition (targetState : GameState) (m : t) : bool :=
  includes (STATE_TRANSITIONS (_currentState m)) targetState.

Definition pushStates : list (GameState * GameState) :=
  [ (MAIN_MENU, PLAYING); (PLAYING, DIALOG); (PLAYING, CHOICE);
    (PLAYING, PAUSE); (PLAYING, INVENTORY); (PLAYING, CHARACTER);
    (PAUSE, SAVE_LOAD); (PAUSE, SETTINGS) ].

Definition shouldPushToStack (from to : GameState) : bool :=
  existsb (fun '(f, t) => bool_decide (from = f) && bool_decide (to = t))
          pushStates.

Definition changeState (newState : GameState) (data : JsValue) (m : t)
  : bool * t * list Notification :=
  if negb (canTransition newState m) then (false, m, [])
  else
    let oldState := _currentState m in
    let m' :=
      {| _currentState := newState;
         _previousState := oldState;
         _menuState := _menuState m;
         _dialogState := _dialogState m;
         _stateStack :=
           if shouldPushToStack oldState newState
           then _stateStack m ++ [oldState]
           else _stateStack m |} in
    (true, m', [stateChanged oldState newState data]).

Definition setMenuState (state : MenuState) (m : t) : t * list Notification :=
  ({| _currentState := _currentState m; _previousState := _previousState m;
      _menuState := state; _dialogState := _dialogState m;
      _stateStack := _stateStack m |},
   [menuStateChanged state]).

Definition setDialogState (state : DialogState) (m : t) : t * list Notification :=
  ({| _currentState := _currentState m; _previousState := _previousState m;
      _menuState := _menuState m; _dialogState := state;
      _stateStack := _stateStack m |},
   [dialogStateChanged state]).

(** [goBack]: the popped state is removed from the stack before the
    transition is attempted, whether or not the transition succeeds. *)
Definition goBack (data : JsValue) (m : t) : bool * t * list Notification :=
  match last (_stateStack m) with
  | None => (false, m, [])
  | Some previousState =>
      changeState previousState data
        {| _currentState := _currentState m;
           _previousState := _previousState m;
           _menuState := _menuState m; _dialogState := _dialogState m;
           _stateStack := removelast (_stateStack m) |}
  end.

Definition isInGame (m : t) : bool :=
  includes [PLAYING; DIALOG; CHOICE; EVENT; DATE] (_currentState m).

Definition canSave (m : t) : bool :=
  isInGame m || bool_decide (_currentState m = PAUSE).

Definition canLoad (m : t) : bool :=
  includes [MAIN_MENU; TITLE; PAUSE] (_currentState m).

Definition reset (m : t) : t := new.

End GameStateMachine.

(* ===================================================================== *)
(** * CharacterSystem.ts *)
(* ===================================================================== *)

Module CharacterSystem.

(** [CharacterData]. [sprites] maps a pose name to a resource name. *)
Record CharacterData : Type := mkCharacterData {
  id : string;
  name : string;
  title : option string;
  sprites : list (string * string);
  favor : Z;
  maxFavor : Z;
  unlocked : bool;
  endings : list string;
  events : list string;
}.

(** One entry of [_characterConfig.characters]. *)
Record CharacterConfig : Type := mkCharacterConfig {
  cfg_id : string;
  cfg_name : string;
  cfg_title : option string;
  cfg_sprites : list (string * string);
  cfg_maxFavor : Z;
  cfg_defaultFavor : Z;
}.

(** What [exportData] writes for one character and [importData] reads
    back; after a trip through JSON a field may be missing. *)
Record CharacterSave : Type := mkCharacterSave {
  save_favor : Z;
  save_unlocked : bool;
  save_endings : option (list string);
  save_events : option (list string);
}.

Inductive Notification : Type :=
  | characterUnlocked (character : CharacterData)
  | favorChanged (characterId characterName : string) (delta newValue : Z)
  | favorLevelUp (characterId characterName : string) (newLevel : Z)
                 (levelName : string)
  | endingUnlocked (characterId endingId : string)
  | eventRecorded (characterId eventId : string).

(** The field [_characters]; the class state that the data half of the
    class reads and writes. The sprite-node half of the class
    ([registerCharacterNode] to [loadSprite]) drives engine nodes and is
    outside the embedding. *)
Abbreviation t := (gmap string CharacterData).

Definition poseNames : list string :=
  ["normal"; "smile"; "blush"; "angry"; "sad"; "surprise"; "think"; "laugh"].

(** The sprite table of the mock configuration: pose [p] of the character
    numbered [n] is the resource [char_<n>_<p>]. *)
Definition spritesOf (prefix : string) : list (string * string) :=
  map (fun p => (p, (prefix ++ "_" ++ p)%string)) poseNames.

(** [loadCharacterConfig]: the configuration the class sets up. *)
Definition characterConfig : list CharacterConfig :=
  [ {| cfg_id := "heroine_1"; cfg_name := "林雨晴";
       cfg_title := Some "学生会会长";
       cfg_sprites := spritesOf "char_001";
       cfg_maxFavor := 1000; cfg_defaultFavor := 0 |};
    {| cfg_id := "heroine_2"; cfg_name := "苏小晚";
       cfg_title := Some "元气学妹";
       cfg_sprites := spritesOf "char_002";
       cfg_maxFavor := 1000; cfg_defaultFavor := 0 |};
    {| cfg_id := "heroine_3"; cfg_name := "沈墨寒";
       cfg_title := Some "冰山校花";
       cfg_sprites := spritesOf "char_003";
       cfg_maxFavor := 1000; cfg_defaultFavor := 0 |} ].

(** [x || d] on numbers: zero is falsy. *)
Definition orNumber (x d : Z) : Z := if x =? 0 then d else x.

(** [initializeCharacters], from a configuration. *)
Definition initializeCharacters (config : list CharacterConfig) (s : t) : t :=
  fold_left
    (fun (chars : t) (char : CharacterConfig) =>
       <[ cfg_id char :=
          {| id := cfg_id char; name := cfg_name char;
             title := cfg_title char; sprites := cfg_sprites char;
             favor := orNumber (cfg_defaultFavor char) 0;
             maxFavor := orNumber (cfg_maxFavor char) 1000;
             unlocked := false; endings := []; events := [] |} ]> chars)
    config s.

(** The instance after [init]. *)
Definition init : t := initializeCharacters characterConfig ∅.

Definition getCharacter (characterId : string) (s : t) : option CharacterData :=
  s !! characterId.

Definition set_unlocked (b : bool) (c : CharacterData) : CharacterData :=
  {| id := id c; name := name c; title := title c; sprites := sprites c;
     favor := favor c; maxFavor := maxFavor c; unlocked := b;
     endings := endings c; events := events c |}.

Definition set_favor (v : Z) (c : CharacterData) : CharacterData :=
  {| id := id c; name := name c; title := title c; sprites := sprites c;
     favor := v; maxFavor := maxFavor c; unlocked := unlocked c;
     endings := endings c; events := events c |}.

Definition set_endings (l : list string) (c : CharacterData) : CharacterData :=
  {| id := id c; name := name c; title := title c; sprites := sprites c;
     favor := favor c; maxFavor := maxFavor c; unlocked := unlocked c;
     endings := l; events := events c |}.

Definition set_events (l : list string) (c : CharacterData) : CharacterData :=
  {| id := id c; name := name c; title := title c; sprites := sprites c;
     favor := favor c; maxFavor := maxFavor c; unlocked := unlocked c;
     endings := endings c; events := l |}.

Definition unlockCharacter (characterId : string) (s : t)
  : bool * t * list Notification :=
  match s !! characterId with
  | None => (false, s, [])
  | Some character =>
      if unlocked character then (false, s, [])
      else
        let character' := set_unlocked true character in
        (true, <[characterId := character']> s,
         [characterUnlocked character'])
  end.

(** [favor / maxFavor >= num / den] for a positive [den], as the quotient
    of two integers compares with a decimal threshold. A zero [maxFavor]
    makes the quotient [Infinity], [-Infinity] or [NaN]. *)
Definition percent_ge (favor maxFavor num den : Z) : bool :=
  if 0 <? maxFavor then num * maxFavor <=? den * favor
  else if maxFavor <? 0 then den * favor <=? num * maxFavor
  else 0 <? favor.

Definition getFavorLevel (characterId : string) (s : t) : Z :=
  match s !! characterId with
  | None => 0
  | Some character =>
      let ge := percent_ge (favor character) (maxFavor character) in
      if ge 85 100 then 7
      else if ge 70 100 then 6
      else if ge 55 100 then 5
      else if ge 40 100 then 4
      else if ge 25 100 then 3
      else if ge 10 100 then 2
      else 1
  end.

Definition levelNames : list string :=
  ["陌生人"; "认识"; "熟人"; "朋友"; "好友"; "亲密"; "恋人"; "命中注定"].

(** [names[level - 1] || '陌生人']. *)
Definition getFavorLevelName (characterId : string) (s : t) : string :=
  let level := getFavorLevel characterId s in
  if level - 1 <? 0 then "陌生人"
  else default "陌生人" (levelNames !! Z.to_nat (level - 1)).

(** [checkFavorLevel]: both levels are read from the roster as it is at
    the time of the call. *)
Definition checkFavorLevel (character : CharacterData) (s : t)
  : list Notification :=
  let newLevel := getFavorLevel (id character) s in
  let oldLevel := getFavorLevel (id character) s in
  if bool_decide (newLevel ≠ oldLevel)
  then [favorLevelUp (id character) (name character) newLevel
          (getFavorLevelName (id character) s)]
  else [].

Definition changeFavor (characterId : string) (delta : Z) (s : t)
  : Z * t * list Notification :=
  match s !! characterId with
  | None => (0, s, [])
  | Some character =>
      let oldFavor := favor character in
      let character' :=
        set_favor
          (Z.max 0 (Z.min (maxFavor character) (favor character + delta)))
          character in
      let s' := <[characterId := character']> s in
      let actualChange := favor character' - oldFavor in
      if bool_decide (actualChange ≠ 0)
      then (actualChange, s',
            favorChanged characterId (name character') actualChange
              (favor character')
            :: checkFavorLevel character' s')
      else (actualChange, s', [])
  end.

Definition checkEndingCondition (endingId characterId : string) (s : t) : bool :=
  match s !! characterId with
  | None => false
  | Some character => 800 <=? favor character
  end.

Definition includes (l : list string) (x : string) : bool :=
  bool_decide (x ∈ l).

Definition unlockEnding (characterId endingId : string) (s : t)
  : bool * t * list Notification :=
  match s !! characterId with
  | None => (false, s, [])
  | Some character =>
      if includes (endings character) endingId then (false, s, [])
      else
        (true,
         <[characterId := set_endings (endings character ++ [endingId]) character]> s,
         [endingUnlocked characterId endingId])
  end.

Definition recordEvent (characterId eventId : string) (s : t)
  : bool * t * list Notification :=
  match s !! characterId with
  | None => (false, s, [])
  | Some character =>
      if includes (events character) eventId then (false, s, [])
      else
        (true,
         <[characterId := set_events (events character ++ [eventId]) character]> s,
         [eventRecorded characterId eventId])
  end.

(** [exportData]: one entry per roster character. The entry holds the
    character's own [endings] and [events] arrays, not copies of them;
    the embedding has their contents at the time of the export. *)
Definition exportData (s : t) : gmap string CharacterSave :=
  (fun char =>
     {| save_favor := favor char; save_unlocked := unlocked char;
        save_endings := Some (endings char);
        save_events := Some (events char) |}) <$> s.

Definition importCharacter (charData : CharacterSave) (character : CharacterData)
  : CharacterData :=
  {| id := id character; name := name character; title := title character;
     sprites := sprites character;
     favor := save_favor charData; maxFavor := maxFavor character;
     unlocked := save_unlocked charData;
     endings := default [] (save_endings charData);
     events := default [] (save_events charData) |}.

(** [importData]: the loop over the entries of [data]; entries of unknown
    characters are skipped. *)
Definition importData (data : gmap string CharacterSave) (s : t) : t :=
  map_fold
    (fun id charData (chars : t) =>
       match chars !! id with
       | Some character => <[id := importCharacter charData character]> chars
       | None => chars
       end)
    s data.

(** [reset] (and [resetAll]), on the roster data. *)
Definition reset (s : t) : t :=
  (fun char =>
     {| id := id char; name := name char; title := title char;
        sprites := sprites char; favor := 0; maxFavor := maxFavor char;
        unlocked := false; endings := []; events := [] |}) <$> s.

End CharacterSystem.

(* ===================================================================== *)
(** * FlagManager.ts *)
(* ===================================================================== *)

Module FlagManager.

Record FlagDefinition : Type := mkFlagDefinition {
  key : string;
  defaultValue : bool;
  description : string;
  tags : list string;
}.

(** [FLAG_DEFINITIONS]: the predefined flags. *)
Definition FLAG_DEFINITIONS : list FlagDefinition :=
  [ mkFlagDefinition "met_yuqing" false "是否见过林雨晴" ["story"; "heroine_1"];
    mkFlagDefinition "met_xiaowan" false "是否见过苏小晚" ["story"; "heroine_2"];
    mkFlagDefinition "met_mohan" false "是否见过沈墨寒" ["story"; "heroine_3"];
    mkFlagDefinition "polite" false "是否礼貌回应" ["choice"];
    mkFlagDefinition "cold" false "是否冷淡回应" ["choice"];
    mkFlagDefinition "ask_about_mo" false "是否询问沈墨寒的事" ["choice"];
    mkFlagDefinition "event_date_1" false "是否完成第一次约会" ["event"];
    mkFlagDefinition "event_basketball" false "是否观看篮球比赛" ["event"];
    mkFlagDefinition "event_library" false "是否一起去图书馆" ["event"];
    mkFlagDefinition "event_festival" false "是否参加学园祭" ["event"];
    mkFlagDefinition "unlock_heroine_2" false "是否解锁苏小晚" ["unlock"];
    mkFlagDefinition "unlock_heroine_3" false "是否解锁沈墨寒" ["unlock"];
    mkFlagDefinition "unlock_cg_1" false "是否解锁CG 1" ["unlock"; "cg"];
    mkFlagDefinition "unlock_ending_1" false "是否解锁结局1" ["unlock"; "ending"];
    mkFlagDefinition "is_auto_save" false "是否为自动存档" ["system"];
    mkFlagDefinition "skip_mode" false "是否跳过模式" ["system"] ].

Inductive Notification : Type :=
  | flagChanged (key : string) (oldValue newValue : bool)
  | flagsReset.

(** The two private maps of the class. *)
Record t : Type := mk {
  _flags : gmap string bool;
  _definitions : gmap string FlagDefinition;
}.

(** The constructor, from a definition table. *)
Definition construct (defs : list FlagDefinition) : t :=
  fold_left
    (fun (s : t) (def : FlagDefinition) =>
       {| _definitions := <[key def := def]> (_definitions s);
          _flags := <[key def := defaultValue def]> (_flags s) |})
    defs {| _flags := ∅; _definitions := ∅ |}.

(** A freshly constructed instance. *)
Definition new : t := construct FLAG_DEFINITIONS.

(** [get]: [this._flags.get(key) ?? false]. *)
Definition get (key : string) (s : t) : bool :=
  default false (_flags s !! key).

Definition set (key : string) (value : bool) (s : t) : t * list Notification :=
  let oldValue := default false (_flags s !! key) in
  if bool_decide (oldValue = value) then (s, [])
  else
    ({| _flags := <[key := value]> (_flags s);
        _definitions := _definitions s |},
     [flagChanged key oldValue value]).

Definition toggle (key : string) (s : t) : bool * t * list Notification :=
  let current := get key s in
  let '(s', ev) := set key (negb current) s in
  (negb current, s', ev).

Definition check (key : string) (s : t) : bool := get key s.

(** A run of [set] calls over the entries of a record, in the order the
    entries are enumerated. *)
Definition setEntries (entries : list (string * bool)) (s : t)
  : t * list Notification :=
  fold_left
    (fun (acc : t * list Notification) (e : string * bool) =>
       let '(s', ev) := set (fst e) (snd e) (fst acc) in
       (s', snd acc ++ ev))
    entries (s, []).

(** [setMultiple]. [Object.entries] enumerates each key of the record
    once; [map_to_list] fixes one such enumeration. The resulting store
    does not depend on the order, only the order of the [flagChanged]
    notifications does. *)
Definition setMultiple (flags : gmap string bool) (s : t)
  : t * list Notification :=
  setEntries (map_to_list flags) s.

Definition checkAll (flags : list string) (s : t) : bool :=
  forallb (fun key => get key s) flags.

Definition checkAny (flags : list string) (s : t) : bool :=
  existsb (fun key => get key s) flags.

Record Condition : Type := mkCondition {
  cond_type : string;
  cond_target : string;
  cond_value : JsValue;
}.

(** [checkCondition]: only the ['flag'] case reads the store. *)
Definition checkCondition (condition : Condition) (s : t) : bool :=
  if bool_decide (cond_type condition = "flag")
  then bool_decide (JsBool (get (cond_target condition) s) = cond_value condition)
  else false.

Definition checkConditions (conditions : list Condition) (s : t) : bool :=
  forallb (fun c => checkCondition c s) conditions.

(** [exportData]: the entries of [_flags] that have a definition and
    differ from the definition's default. The record is a plain object
    filled by [data[key] = value]: under the key [__proto__] that
    assignment stores nothing when the value is a boolean, so the record
    never has that key. *)
Definition exportData (s : t) : gmap string bool :=
  delete "__proto__"
    (map_imap
       (fun key value =>
          match _definitions s !! key with
          | Some def =>
              if bool_decide (value ≠ defaultValue def) then Some value else None
          | None => None
          end)
       (_flags s)).

(** [exportFullData]. *)
Definition exportFullData (s : t) : gmap string bool := _flags s.

(** [reset]: every defined flag goes back to its default; one
    notification for the whole reset. *)
Definition reset (s : t) : t * list Notification :=
  ({| _flags :=
        map_fold (fun key def (flags : gmap string bool) =>
                    <[key := defaultValue def]> flags)
                 (_flags s) (_definitions s);
      _definitions := _definitions s |},
   [flagsReset]).

(** [importData]: [reset], then [set] for every entry of [data]. *)
Definition importData (data : gmap string bool) (s : t)
  : t * list Notification :=
  let '(s1, ev1) := reset s in
  let '(s2, ev2) := setEntries (map_to_list data) s1 in
  (s2, ev1 ++ ev2).

Definition addFlag (key : string) (defaultValue : bool) (description : string)
    (tags : list string) (s : t) : t :=
  match _definitions s !! key with
  | Some _ => s
  | None =>
      {| _definitions :=
           <[key := mkFlagDefinition key defaultValue description tags]>
             (_definitions s);
         _flags := <[key := defaultValue]> (_flags s) |}
  end.

End FlagManager.

(* ===================================================================== *)
(** * The interfaces exported by DialogSystem.ts *)
(* ===================================================================== *)

Module Dialog.

Inductive NodeType : Type :=
  | DIALOG | NARRATION | CHOICE | BRANCH | EVENT | END.

Record CharacterDisplay : Type := mkCharacterDisplay {
  display_id : string;
  display_pose : string;
  display_position : string;
  display_fade : option string;
}.

Inductive ConditionType : Type :=
  | cond_favor | cond_flag | cond_chapter | cond_item.

Record Condition : Type := mkCondition {
  condition_type : ConditionType;
  condition_target : string;
  condition_value : JsValue;
}.

Inductive EffectType : Type :=
  | eff_favor | eff_flag | eff_item | eff_scene | eff_unlock.

Record Effect : Type := mkEffect {
  effect_type : EffectType;
  effect_target : string;
  effect_value : JsValue;
}.

(** [ChoiceData]; [favorChange] lists the entries of the record in the
    order [Object.entries] enumerates them. *)
Record ChoiceData : Type := mkChoiceData {
  choice_id : string;
  choice_text : string;
  choice_next : string;
  choice_conditions : option (list Condition);
  choice_effects : option (list Effect);
  choice_favorChange : option (list (string * Z));
}.

Record StoryNode : Type := mkStoryNode {
  node_id : string;
  node_type : NodeType;
  node_speaker : option string;
  node_content : string;
  node_background : option string;
  node_character : option CharacterDisplay;
  node_choices : option (list ChoiceData);
  node_next : option string;
  node_conditions : option (list Condition);
  node_effects : option (list Effect);
}.

Inductive Notification : Type :=
  | backgroundChanged (bgName : string)
  | characterShown (display : CharacterDisplay)
  | allCharactersHidden
  | choicesShown (choices : list ChoiceData)
  | endingTriggered
  | favorChanged (characterId : string) (delta : JsValue)
  | flagSet (flag : string) (value : JsValue)
  | contentUnlocked (contentId : string)
  | requestNode (nodeId : string)
  | nodeSelected (nodeId : string).

(** The state of the [DialogSystem] instance. The engine widgets
    ([_dialogBox], the labels, [_choicePanel]) and the typewriter's timer
    and counters belong to the presentation layer and the host clock; they
    carry no state here. [storySubscribed] is the part of the emitter's
    listener table written by [StoryManager.playNode]: whether its
    callbacks for ['requestNode'] and ['nodeSelected'] are registered. *)
Record t : Type := mk {
  _isTyping : bool;
  _currentNode : option StoryNode;
  _currentText : string;
  storySubscribed : bool;
}.

Definition new : t :=
  {| _isTyping := false; _currentNode := None; _currentText := "";
     storySubscribed := false |}.

End Dialog.

(* ===================================================================== *)
(** * The interfaces and fields of StoryManager.ts *)
(* ===================================================================== *)

Module Story.

(** The [unlockCondition] of a chapter. The declared type has [type] and
    [value]; [checkCondition] also reads [target]. *)
Record UnlockCondition : Type := mkUnlockCondition {
  unlock_type : string;
  unlock_target : option string;
  unlock_value : JsValue;
}.

(** [Chapter]. [nodes] lists the entries of the node table in the order
    [Object.keys] enumerates them; the keys of a table are distinct. *)
Record Chapter : Type := mkChapter {
  chapter_id : string;
  chapter_title : string;
  chapter_description : string;
  chapter_unlockCondition : option UnlockCondition;
  chapter_bgm : option string;
  chapter_nodes : list (string * Dialog.StoryNode);
}.

(** [nodes[nodeId]] on a node table, among the table's own entries. The
    table is a plain object, so the read also finds the members every
    object inherits (['constructor'], ['toString'], ...), which are no
    nodes: [nodeAt] below tells the three cases apart. *)
Fixpoint lookupNode (nodeId : string) (nodes : list (string * Dialog.StoryNode))
  : option Dialog.StoryNode :=
  match nodes with
  | [] => None
  | (k, n) :: rest => if bool_decide (k = nodeId) then Some n
                      else lookupNode nodeId rest
  end.

(** Notifications carry the chapter object; it is identified by its id. *)
Inductive Notification : Type :=
  | chapterLocked (chapterId : string)
  | chapterStarted (chapterId : string)
  | nodePlayed (node : Dialog.StoryNode)
  | storyEnded.

(** The fields of the [StoryManager] instance; [_config] holds
    [_config.chapters]. *)
Record t : Type := mk {
  _config : list Chapter;
  _currentChapter : option Chapter;
  _currentNodeId : string;
  _localFlags : gmap string JsValue;
  _visitedNodes : gset string;
  _choiceHistory : list string;
}.

(** [loadStoryConfig]: the mock story. *)
Definition storyConfig : list Chapter :=
  [ {| chapter_id := "ch00";
       chapter_title := "序章 - 入学第一天";
       chapter_description := "故事从主角入学圣樱学院开始...";
       chapter_unlockCondition := None;
       chapter_bgm := Some "bgm_chapter_0";
       chapter_nodes :=
         [ ("ch00_start",
            {| Dialog.node_id := "ch00_start";
               Dialog.node_type := Dialog.NARRATION;
               Dialog.node_speaker := None;
               Dialog.node_content :=
                 "九月的阳光洒在圣樱学院的校门上，我站在这里，心跳加速...";
               Dialog.node_background := Some "bg_school_gate";
               Dialog.node_character := None;
               Dialog.node_choices := None;
               Dialog.node_next := Some "ch00_01";
               Dialog.node_conditions := None;
               Dialog.node_effects := None |});
           ("ch00_01",
            {| Dialog.node_id := "ch00_01";
               Dialog.node_type := Dialog.DIALOG;
               Dialog.node_speaker := Some "player";
               Dialog.node_content := "这就是圣樱学院吗...真大啊...";
               Dialog.node_background := None;
               Dialog.node_character := None;
               Dialog.node_choices := None;
               Dialog.node_next := Some "ch00_02";
               Dialog.node_conditions := None;
               Dialog.node_effects := None |}) ] |} ].

(** The instance after [init], for a given story. *)
Definition init (config : list Chapter) : t :=
  {| _config := config; _currentChapter := None; _currentNodeId := "";
     _localFlags := ∅; _visitedNodes := ∅; _choiceHistory := [] |}.

End Story.

(* ===================================================================== *)
(** * The interfaces and fields of SaveLoadSystem.ts *)
(* ===================================================================== *)

Module Save.

Record PlayerData : Type := mkPlayerData {
  playTime : Z;
  choices : list string;
  name : option string;
  attributes : option (gmap string Z);
}.

Record SaveData : Type := mkSaveData {
  slot : Z;
  version : string;
  saveTime : Z;
  chapter : string;
  node : string;
  characters : gmap string CharacterSystem.CharacterSave;
  flags : gmap string bool;
  player : PlayerData;
  extra : gmap string JsValue;
}.

(** [Partial<SaveData>['player']] as [collectSaveData] reads it. *)
Record PlayerOverrides : Type := mkPlayerOverrides {
  o_playTime : option Z;
  o_choices : option (list string);
  o_name : option string;
  o_attributes : option (gmap string Z);
}.

(** [Partial<SaveData>]: the fields [collectSaveData] reads. *)
Record Overrides : Type := mkOverrides {
  o_chapter : option string;
  o_node : option string;
  o_player : option PlayerOverrides;
  o_extra : option (gmap string JsValue);
}.

Definition GAME_VERSION : string := "1.0.0".
Definition SAVE_PREFIX : string := "save_".
Definition MAX_SLOTS : Z := 6.

Inductive Notification : Type :=
  | saveSuccess (slot : Z) (data : SaveData)
  | saveFailed (slot : Z)
  | loadSuccess (slot : Z) (data : SaveData)
  | saveDeleted (slot : Z)
  | autoSaveSuccess (slot : Z)
  | dataApplied (data : SaveData).

Record t : Type := mk {
  _currentSlot : Z;
  _autoSaveEnabled : bool;
  _autoSaveInterval : Z;
  _lastAutoSaveTime : Z;
  _autoSaveNode : string;
  _isSaving : bool;
  _playStartTime : Z;
}.

Definition new : t :=
  {| _currentSlot := -1; _autoSaveEnabled := true;
     _autoSaveInterval := 5 * 60 * 1000; _lastAutoSaveTime := 0;
     _autoSaveNode := ""; _isSaving := false; _playStartTime := 0 |}.

End Save.

(* ===================================================================== *)
(** * The running game: the singletons, the storage and the emitted log *)
(* ===================================================================== *)

(** A notification together with the emitter it was sent from. *)
Inductive Emitted : Type :=
  | fromStateMachine (n : GameStateMachine.Notification)
  | fromCharacters (n : CharacterSystem.Notification)
  | fromFlags (n : FlagManager.Notification)
  | fromDialog (n : Dialog.Notification)
  | fromStory (n : Story.Notification)
  | fromSaveLoad (n : Save.Notification).

(** The [instance] of every manager, the host's [localStorage] (the save
    slots) and every notification emitted so far, oldest first. *)
Record Game : Type := mkGame {
  stateMachine : GameStateMachine.t;
  characters : gmap string CharacterSystem.CharacterData;
  flags : FlagManager.t;
  dialog : Dialog.t;
  story : Story.t;
  saveLoad : Save.t;
  localStorage : gmap string Save.SaveData;
  emitted : list Emitted;
}.

Definition with_stateMachine (x : GameStateMachine.t) (g : Game) : Game :=
  mkGame x (characters g) (flags g) (dialog g) (story g) (saveLoad g)
         (localStorage g) (emitted g).
Definition with_characters (x : gmap string CharacterSystem.CharacterData)
    (g : Game) : Game :=
  mkGame (stateMachine g) x (flags g) (dialog g) (story g) (saveLoad g)
         (localStorage g) (emitted g).
Definition with_flags (x : FlagManager.t) (g : Game) : Game :=
  mkGame (stateMachine g) (characters g) x (dialog g) (story g) (saveLoad g)
         (localStorage g) (emitted g).
Definition with_dialog (x : Dialog.t) (g : Game) : Game :=
  mkGame (stateMachine g) (characters g) (flags g) x (story g) (saveLoad g)
         (localStorage g) (emitted g).
Definition with_story (x : Story.t) (g : Game) : Game :=
  mkGame (stateMachine g) (characters g) (flags g) (dialog g) x (saveLoad g)
         (localStorage g) (emitted g).
Definition with_saveLoad (x : Save.t) (g : Game) : Game :=
  mkGame (stateMachine g) (characters g) (flags g) (dialog g) (story g) x
         (localStorage g) (emitted g).
Definition with_localStorage (x : gmap string Save.SaveData) (g : Game) : Game :=
  mkGame (stateMachine g) (characters g) (flags g) (dialog g) (story g)
         (saveLoad g) x (emitted g).
Definition with_emitted (x : list Emitted) (g : Game) : Game :=
  mkGame (stateMachine g) (characters g) (flags g) (dialog g) (story g)
         (saveLoad g) (localStorage g) x.

(** The game after every manager's [init], for a given story. *)
Definition newGame (config : list Story.Chapter) : Game :=
  {| stateMachine := GameStateMachine.new;
     characters := CharacterSystem.init;
     flags := FlagManager.new;
     dialog := Dialog.new;
     story := Story.init config;
     saveLoad := Save.new;
     localStorage := ∅;
     emitted := [] |}.

(** ** Methods that run across managers

    A method either returns with a value and the game it leaves behind,
    throws (a property read on [null]) from the game it had reached, or
    needs more steps than the [fuel] it was given (the mutual recursion of
    [playNode] and the dialog's ['requestNode'] callback has no bound of
    its own). *)
Inductive Res (A : Type) : Type :=
  | Ok (a : A) (g : Game)
  | Threw (g : Game)
  | OutOfFuel.
Arguments Ok {A} a g.
Arguments Threw {A} g.
Arguments OutOfFuel {A}.

Definition M (A : Type) : Type := Game -> Res A.

Definition ret {A} (a : A) : M A := fun g => Ok a g.

Definition bind {A B} (m : M A) (k : A -> M B) : M B :=
  fun g =>
    match m g with
    | Ok a g' => k a g'
    | Threw g' => Threw g'
    | OutOfFuel => OutOfFuel
    end.

Declare Scope game_scope.
Delimit Scope game_scope with game.
Notation "x <- m ;; k" := (bind m (fun x => k))
  (at level 100, m at next level, right associativity) : game_scope.
Notation "m ;; k" := (bind m (fun _ => k))
  (at level 100, right associativity) : game_scope.
Local Open Scope game_scope.

Definition gets {A} (f : Game -> A) : M A := fun g => Ok (f g) g.
Definition modify (f : Game -> Game) : M unit := fun g => Ok tt (f g).
Definition throwTypeError {A} : M A := fun g => Threw g.
Definition outOfFuel {A} : M A := fun _ => OutOfFuel.

(** [try { body } catch { handler } finally { finalizer }]: the
    finalizer runs on every way out; an exception of the handler leaves
    the statement after it. *)
Definition tryCatchFinally {A} (body handler : M A) (finalizer : M unit) : M A :=
  fun g =>
    match body g with
    | Ok a g' => (finalizer ;; ret a) g'
    | Threw g' =>
        match handler g' with
        | Ok a g'' => (finalizer ;; ret a) g''
        | Threw g'' => (finalizer ;; throwTypeError) g''
        | OutOfFuel => OutOfFuel
        end
    | OutOfFuel => OutOfFuel
    end.

(** [emit] on one of the emitters. *)
Definition emit (n : Emitted) : M unit :=
  modify (fun g => with_emitted (emitted g ++ [n]) g).

Definition emitAll (ns : list Emitted) : M unit :=
  modify (fun g => with_emitted (emitted g ++ ns) g).

(** A [for ... of] loop run for its effects. *)
Fixpoint forEach {A} (l : list A) (body : A -> M unit) : M unit :=
  match l with
  | [] => ret tt
  | x :: rest => body x ;; forEach rest body
  end.

(** Truthiness of a value. *)
Definition truthy (v : JsValue) : bool :=
  match v with
  | JsUndefined => false
  | JsBool b => b
  | JsNumber n => negb (n =? 0)
  | JsString s => negb (bool_decide (s = ""))
  end.

(** Truthiness of an optional string: present and not empty. *)
Definition truthyString (x : option string) : option string :=
  match x with
  | Some s => if bool_decide (s = "") then None else Some s
  | None => None
  end.

(** The managers' methods, lifted to the game. *)
Definition changeState (newState : GameStateMachine.GameState) : M bool :=
  fun g =>
    let '(r, m, ev) :=
      GameStateMachine.changeState newState JsUndefined (stateMachine g) in
    Ok r (with_emitted (emitted g ++ map fromStateMachine ev)
            (with_stateMachine m g)).

Definition setDialogState (state : GameStateMachine.DialogState) : M unit :=
  fun g =>
    let '(m, ev) := GameStateMachine.setDialogState state (stateMachine g) in
    Ok tt (with_emitted (emitted g ++ map fromStateMachine ev)
             (with_stateMachine m g)).

Definition changeFavor (characterId : string) (delta : Z) : M Z :=
  fun g =>
    let '(r, s, ev) := CharacterSystem.changeFavor characterId delta (characters g) in
    Ok r (with_emitted (emitted g ++ map fromCharacters ev)
            (with_characters s g)).

(* ===================================================================== *)
(** * SaveLoadSystem.ts *)
(* ===================================================================== *)

Module SaveLoadSystem.

Definition set_isSaving (b : bool) (s : Save.t) : Save.t :=
  Save.mk (Save._currentSlot s) (Save._autoSaveEnabled s) (Save._autoSaveInterval s)
          (Save._lastAutoSaveTime s) (Save._autoSaveNode s) b (Save._playStartTime s).
Definition set_currentSlot (x : Z) (s : Save.t) : Save.t :=
  Save.mk x (Save._autoSaveEnabled s) (Save._autoSaveInterval s)
          (Save._lastAutoSaveTime s) (Save._autoSaveNode s) (Save._isSaving s)
          (Save._playStartTime s).
Definition set_playStartTime (x : Z) (s : Save.t) : Save.t :=
  Save.mk (Save._currentSlot s) (Save._autoSaveEnabled s) (Save._autoSaveInterval s)
          (Save._lastAutoSaveTime s) (Save._autoSaveNode s) (Save._isSaving s) x.
Definition set_autoSave (lastTime : Z) (nodeId : string) (s : Save.t) : Save.t :=
  Save.mk (Save._currentSlot s) (Save._autoSaveEnabled s) (Save._autoSaveInterval s)
          lastTime nodeId (Save._isSaving s) (Save._playStartTime s).

(** The key of a slot in the storage: [save_<slot>]. *)
Definition storageKey (slot : Z) : string :=
  (Save.SAVE_PREFIX ++ pretty slot)%string.

(** [x || d] on an optional string: an absent or empty [x] gives [d]. *)
Definition orString (x : option string) (d : string) : string :=
  default d (truthyString x).

Definition startPlayTime (now : Z) : M unit :=
  modify (fun g => with_saveLoad (set_playStartTime now (saveLoad g)) g).

Definition calculatePlayTime (now : Z) (s : Save.t) : Z :=
  if Save._playStartTime s <=? 0 then 0
  else (now - Save._playStartTime s) / 1000.

(** [collectFlags]: the source returns an empty record
    ([// TODO: 从FlagManager获取]). *)
Definition collectFlags (g : Game) : gmap string bool := ∅.

Definition defaultAttributes : gmap string Z :=
  {[ "charm" := 50; "intellect" := 50; "luck" := 50; "athletics" := 50 ]}.

Definition collectSaveData (slot : Z) (extraData : option Save.Overrides) (now : Z)
    (g : Game) : Save.SaveData :=
  let p := extraData ≫= Save.o_player in
  {| Save.slot := slot;
     Save.version := Save.GAME_VERSION;
     Save.saveTime := now;
     Save.chapter :=
       orString (extraData ≫= Save.o_chapter)
         (GameStateMachine.GameState_value
            (GameStateMachine._currentState (stateMachine g)));
     Save.node := orString (extraData ≫= Save.o_node) (Save._autoSaveNode (saveLoad g));
     Save.characters := CharacterSystem.exportData (characters g);
     Save.flags := collectFlags g;
     Save.player :=
       {| Save.playTime :=
            CharacterSystem.orNumber (default 0 (p ≫= Save.o_playTime)) 0
            + calculatePlayTime now (saveLoad g);
          Save.choices := default [] (p ≫= Save.o_choices);
          Save.name := Some (orString (p ≫= Save.o_name) "李明");
          Save.attributes := Some (default defaultAttributes (p ≫= Save.o_attributes)) |};
     Save.extra := default ∅ (extraData ≫= Save.o_extra) |}.

(** [setStorage]: the record is serialised under the key; a storage error
    is caught and logged inside [setStorage], so the caller never sees
    one. *)
Definition setStorage (key : string) (data : Save.SaveData) : M unit :=
  modify (fun g => with_localStorage (<[key := data]> (localStorage g)) g).

Definition getStorage (key : string) (g : Game) : option Save.SaveData :=
  localStorage g !! key.

(** [save]. [subscribers] stands for the callbacks registered for
    ['saveSuccess']: [emit] runs them before it returns, while [_isSaving]
    is still set. Nothing is taken to listen to ['saveFailed'];
    [SaveListeners.save] below has those listeners as well. *)
Definition save (slot : Z) (data : option Save.Overrides) (now : Z)
    (subscribers : Z -> Save.SaveData -> M unit) : M bool :=
  isSaving <- gets (fun g => Save._isSaving (saveLoad g));;
  if isSaving then ret false
  else if (slot <? 0) || (Save.MAX_SLOTS <=? slot) then ret false
  else
    modify (fun g => with_saveLoad (set_isSaving true (saveLoad g)) g);;
    tryCatchFinally
      (saveData <- gets (collectSaveData slot data now);;
       setStorage (storageKey slot) saveData;;
       modify (fun g => with_saveLoad (set_currentSlot slot (saveLoad g)) g);;
       emit (fromSaveLoad (Save.saveSuccess slot saveData));;
       subscribers slot saveData;;
       ret true)
      (emit (fromSaveLoad (Save.saveFailed slot));;
       ret false)
      (modify (fun g => with_saveLoad (set_isSaving false (saveLoad g)) g)).

(** [load]; the version check only logs a warning. *)
Definition load (slot : Z) : M (option Save.SaveData) :=
  if (slot <? 0) || (Save.MAX_SLOTS <=? slot) then ret None
  else
    data <- gets (getStorage (storageKey slot));;
    match data with
    | None => ret None
    | Some d =>
        modify (fun g => with_saveLoad (set_currentSlot slot (saveLoad g)) g);;
        emit (fromSaveLoad (Save.loadSuccess slot d));;
        ret (Some d)
    end.

Definition deleteSave (slot : Z) : M bool :=
  if (slot <? 0) || (Save.MAX_SLOTS <=? slot) then ret false
  else
    modify (fun g => with_localStorage (delete (storageKey slot) (localStorage g)) g);;
    modify (fun g =>
      if bool_decide (Save._currentSlot (saveLoad g) = slot)
      then with_saveLoad (set_currentSlot (-1) (saveLoad g)) g else g);;
    emit (fromSaveLoad (Save.saveDeleted slot));;
    ret true.

Definition autoSave (nodeId : option string) (now : Z)
    (subscribers : Z -> Save.SaveData -> M unit) : M bool :=
  s <- gets saveLoad;;
  if negb (Save._autoSaveEnabled s) then ret false
  else if now - Save._lastAutoSaveTime s <? Save._autoSaveInterval s then ret false
  else
    let slot := if 0 <=? Save._currentSlot s then Save._currentSlot s else 0 in
    modify (fun g => with_saveLoad (set_autoSave now (orString nodeId "") (saveLoad g)) g);;
    success <- save slot
                 (Some {| Save.o_chapter := Some (orString nodeId "");
                          Save.o_node := None; Save.o_player := None; Save.o_extra := None |})
                 now subscribers;;
    if success
    then emit (fromSaveLoad (Save.autoSaveSuccess slot));; ret true
    else ret false.

(** [applySaveData]. The roster is restored through
    [CharacterSystem.importData]; the flags are not
    ([// TODO: FlagManager.importData(data.flags);]); the play-time origin
    is moved so that the restored total keeps accruing. *)
Definition applySaveData (data : Save.SaveData) (now : Z) : M bool :=
  modify (fun g =>
    with_characters (CharacterSystem.importData (Save.characters data) (characters g)) g);;
  modify (fun g =>
    with_saveLoad
      (set_playStartTime (now - Save.playTime (Save.player data) * 1000) (saveLoad g)) g);;
  emit (fromSaveLoad (Save.dataApplied data));;
  ret true.

End SaveLoadSystem.

(* ===================================================================== *)
(** * GameManager.ts: the data half of the load and new-game paths *)
(* ===================================================================== *)

Module GameManager.

(** [GameManager.applySaveData], for the managers embedded here: the
    roster and the flags are both imported. *)
Definition applySaveData (data : Save.SaveData) : M unit :=
  modify (fun g =>
    with_characters
      (CharacterSystem.importData (Save.characters data) (characters g)) g);;
  (fun g =>
     let '(f, ev) := FlagManager.importData (Save.flags data) (flags g) in
     Ok tt (with_emitted (emitted g ++ map fromFlags ev) (with_flags f g))).

End GameManager.

(* ===================================================================== *)
(** * DialogSystem.ts *)
(* ===================================================================== *)

Module DialogSystem.
Import Dialog.

Definition set_isTyping (b : bool) (d : Dialog.t) : Dialog.t :=
  Dialog.mk b (_currentNode d) (_currentText d) (storySubscribed d).
Definition set_currentNode (n : StoryNode) (d : Dialog.t) : Dialog.t :=
  Dialog.mk (_isTyping d) (Some n) (_currentText d) (storySubscribed d).
Definition set_currentText (s : string) (d : Dialog.t) : Dialog.t :=
  Dialog.mk (_isTyping d) (_currentNode d) s (storySubscribed d).
Definition set_storySubscribed (b : bool) (d : Dialog.t) : Dialog.t :=
  Dialog.mk (_isTyping d) (_currentNode d) (_currentText d) b.

Definition modifyDialog (f : Dialog.t -> Dialog.t) : M unit :=
  modify (fun g => with_dialog (f (dialog g)) g).

(** [applyEffects]: the dialog only announces the effects. *)
Definition applyEffects (effects : list Effect) : M unit :=
  forEach effects (fun effect =>
    match effect_type effect with
    | eff_favor =>
        emit (fromDialog (favorChanged (effect_target effect) (effect_value effect)))
    | eff_flag =>
        emit (fromDialog (flagSet (effect_target effect) (effect_value effect)))
    | eff_unlock =>
        emit (fromDialog (contentUnlocked (effect_target effect)))
    | _ => ret tt
    end).

(** The methods below take the widgets of the dialog ([_dialogBox],
    [_speakerLabel], [_contentLabel], [_choicePanel]) as handed over by
    [init]; what they write to the widgets is not part of the state.
    [DialogWidgets] below has the same methods without that assumption. *)
Definition playDialog (node : StoryNode) : M unit :=
  changeState GameStateMachine.DIALOG;;
  setDialogState GameStateMachine.TYPING;;
  modifyDialog (set_currentText (node_content node));;
  modifyDialog (set_isTyping true).

(** [checkConditions]: the source answers [true]
    ([// TODO: 实现条件检查]). *)
Definition checkConditions (conditions : list Condition) : bool := true.

Definition playChoice (node : StoryNode) : M unit :=
  changeState GameStateMachine.CHOICE;;
  modifyDialog (set_isTyping false);;
  let availableChoices :=
    filter (fun choice =>
              match choice_conditions choice with
              | None => true
              | Some conditions => checkConditions conditions
              end = true)
           (default [] (node_choices node)) in
  emit (fromDialog (choicesShown availableChoices)).

Definition playEnding : M unit :=
  changeState GameStateMachine.ENDING;;
  emit (fromDialog endingTriggered).

(** [next]. [onRequestNode] stands for the callbacks registered for
    ['requestNode'], which [emit] runs before it returns. *)
Definition next (onRequestNode : string -> M unit) : M unit :=
  d <- gets dialog;;
  if _isTyping d then modifyDialog (set_isTyping false)
  else
    match _currentNode d with
    | None => throwTypeError
    | Some currentNode =>
        match truthyString (node_next currentNode) with
        | Some nextId =>
            emit (fromDialog (requestNode nextId));;
            onRequestNode nextId
        | None => playEnding
        end
    end.

Definition playNode (onRequestNode : string -> M unit) (node : StoryNode)
  : M unit :=
  modifyDialog (set_currentNode node);;
  match node_effects node with
  | Some effects => applyEffects effects
  | None => ret tt
  end;;
  match truthyString (node_background node) with
  | Some bgName => emit (fromDialog (backgroundChanged bgName))
  | None => ret tt
  end;;
  match node_character node with
  | Some display => emit (fromDialog (characterShown display))
  | None => emit (fromDialog allCharactersHidden)
  end;;
  match node_type node with
  | DIALOG | NARRATION => playDialog node
  | CHOICE => playChoice node
  | END => playEnding
  | _ => next onRequestNode
  end.

(** [selectChoice]. [onNodeSelected] stands for the callbacks registered
    for ['nodeSelected']. *)
Definition selectChoice (onNodeSelected : string -> M unit) (choiceId : string)
  : M unit :=
  d <- gets dialog;;
  match _currentNode d with
  | None => throwTypeError
  | Some currentNode =>
      match List.find (fun c => bool_decide (choice_id c = choiceId))
                      (default [] (node_choices currentNode)) with
      | None => ret tt
      | Some choice =>
          match choice_effects choice with
          | Some effects => applyEffects effects
          | None => ret tt
          end;;
          match choice_favorChange choice with
          | Some entries =>
              forEach entries (fun '(charId, delta) =>
                emit (fromDialog (favorChanged charId (JsNumber delta))))
          | None => ret tt
          end;;
          if bool_decide (choice_next choice = "") then ret tt
          else
            emit (fromDialog (nodeSelected (choice_next choice)));;
            onNodeSelected (choice_next choice)
      end
  end.

End DialogSystem.

(* ===================================================================== *)
(** * StoryManager.ts *)
(* ===================================================================== *)

Module StoryManager.
Import Story.

Definition set_currentChapter (c : Chapter) (s : Story.t) : Story.t :=
  Story.mk (_config s) (Some c) (_currentNodeId s) (_localFlags s)
           (_visitedNodes s) (_choiceHistory s).
Definition enterNode (nodeId : string) (s : Story.t) : Story.t :=
  Story.mk (_config s) (_currentChapter s) nodeId (_localFlags s)
           ({[nodeId]} ∪ _visitedNodes s) (_choiceHistory s).
Definition setLocalFlag (flag : string) (value : JsValue) (s : Story.t) : Story.t :=
  Story.mk (_config s) (_currentChapter s) (_currentNodeId s)
           (<[flag := value]> (_localFlags s))
           (_visitedNodes s) (_choiceHistory s).
Definition pushChoice (choiceId : string) (s : Story.t) : Story.t :=
  Story.mk (_config s) (_currentChapter s) (_currentNodeId s) (_localFlags s)
           (_visitedNodes s) (_choiceHistory s ++ [choiceId]).

Definition modifyStory (f : Story.t -> Story.t) : M unit :=
  modify (fun g => with_story (f (story g)) g).

(** [getLocalFlag]: [this._localFlags.get(flag) ?? false]. *)
Definition getLocalFlag (flag : option string) (s : Story.t) : JsValue :=
  match flag ≫= (fun f => _localFlags s !! f) with
  | None | Some JsUndefined => JsBool false
  | Some v => v
  end.

Definition checkCondition (condition : UnlockCondition) (s : Story.t) : bool :=
  if bool_decide (unlock_type condition = "chapter")
  then bool_decide (size (_visitedNodes s) ≠ 0%nat)
  else if bool_decide (unlock_type condition = "flag")
  then truthy (getLocalFlag (unlock_target condition) s)
  else true.

(** [playNode]. The callbacks it registers on the dialog call [playNode]
    again; [fuel] bounds the depth of that recursion. The nested call is
    run to its end inside the callback; [StoryWidgets.playNode] below
    also drops its promise, as the callbacks do. *)
Fixpoint playNode (fuel : nat) (nodeId : string) : M bool :=
  match fuel with
  | O => outOfFuel
  | S fuel' =>
      s <- gets story;;
      match _currentChapter s with
      | None => ret false
      | Some currentChapter =>
          match lookupNode nodeId (chapter_nodes currentChapter) with
          | None => ret false
          | Some node =>
              modifyStory (enterNode nodeId);;
              DialogSystem.modifyDialog (DialogSystem.set_storySubscribed true);;
              DialogSystem.playNode
                (fun nextNodeId => playNode fuel' nextNodeId;; ret tt) node;;
              emit (fromStory (nodePlayed node));;
              ret true
          end
      end
  end.

(** [Object.keys(chapter.nodes)[0]]. *)
Definition firstNodeId (chapter : Chapter) : option string :=
  head (chapter_nodes chapter).*1.

Definition playChapter (fuel : nat) (chapterId : string) : M bool :=
  s <- gets story;;
  match List.find (fun c => bool_decide (chapter_id c = chapterId)) (_config s) with
  | None => ret false
  | Some chapter =>
      if match chapter_unlockCondition chapter with
         | Some condition => negb (checkCondition condition s)
         | None => false
         end
      then emit (fromStory (chapterLocked (chapter_id chapter)));; ret false
      else
        modifyStory (set_currentChapter chapter);;
        match truthyString (firstNodeId chapter) with
        | Some first => playNode fuel first;; ret tt
        | None => ret tt
        end;;
        emit (fromStory (chapterStarted (chapter_id chapter)));;
        ret true
  end.

(** [findIndex] of the current chapter in the story, [-1] if absent. *)
Definition currentIndex (s : Story.t) : Z :=
  match _currentChapter s with
  | None => -1
  | Some current =>
      match list_find (fun c => chapter_id c = chapter_id current) (_config s) with
      | Some (i, _) => Z.of_nat i
      | None => -1
      end
  end.

Definition endChapter (fuel : nat) : M bool :=
  s <- gets story;;
  let i := currentIndex s in
  if i <? Z.of_nat (length (_config s)) - 1 then
    match _config s !! Z.to_nat (i + 1) with
    | Some nextChapter => playChapter fuel (chapter_id nextChapter)
    | None => throwTypeError
    end
  else
    changeState GameStateMachine.ENDING;;
    emit (fromStory storyEnded);;
    ret true.

Definition next (fuel : nat) : M bool :=
  s <- gets story;;
  match _currentChapter s with
  | None => ret false
  | Some currentChapter =>
      match lookupNode (_currentNodeId s) (chapter_nodes currentChapter)
              ≫= (fun currentNode => truthyString (Dialog.node_next currentNode)) with
      | None => endChapter fuel
      | Some nextId => playNode fuel nextId
      end
  end.

(** [applyEffects]: only ['flag'] effects act, on the story's own flags. *)
Definition applyEffects (effects : list Dialog.Effect) : M unit :=
  forEach effects (fun effect =>
    match Dialog.effect_type effect with
    | Dialog.eff_flag =>
        modifyStory (setLocalFlag (Dialog.effect_target effect)
                                  (Dialog.effect_value effect))
    | _ => ret tt
    end).

Definition selectChoice (fuel : nat) (choice : Dialog.ChoiceData) : M bool :=
  modifyStory (pushChoice (Dialog.choice_id choice));;
  match Dialog.choice_effects choice with
  | Some effects => applyEffects effects
  | None => ret tt
  end;;
  match Dialog.choice_favorChange choice with
  | Some entries =>
      forEach entries (fun '(charId, delta) => changeFavor charId delta;; ret tt)
  | None => ret tt
  end;;
  playNode fuel (Dialog.choice_next choice).

Definition jumpTo (fuel : nat) (chapterId nodeId : string) : M bool :=
  s <- gets story;;
  (if bool_decide (chapter_id <$> _currentChapter s = Some chapterId)
   then ret tt
   else playChapter fuel chapterId;; ret tt);;
  playNode fuel nodeId.

Definition getProgress (s : Story.t) : string * string :=
  (default "" (chapter_id <$> _currentChapter s), _currentNodeId s).

(** The callbacks [playNode] registers on the dialog, as the dialog's
    emitter sees them at a later signal from the player. *)
Definition dialogCallbacks (fuel : nat) (nodeId : string) : M unit :=
  d <- gets dialog;;
  if Dialog.storySubscribed d then playNode fuel nodeId;; ret tt
  else ret tt.

End StoryManager.

(* ===================================================================== *)
(** * Vocabulary of the statements *)
(* ===================================================================== *)

(** ** Affinity *)

(** Every character's favor lies between zero and its own maximum. *)
Definition favor_bounded (s : gmap string CharacterSystem.CharacterData) : Prop :=
  forall c ch, s !! c = Some ch ->
    0 <= CharacterSystem.favor ch <= CharacterSystem.maxFavor ch.

(** The clamped value [changeFavor] stores. *)
Definition clampFavor (character : CharacterSystem.CharacterData) (delta : Z) : Z :=
  Z.max 0 (Z.min (CharacterSystem.maxFavor character)
                 (CharacterSystem.favor character + delta)).

(** The calls by which play changes the roster. *)
Inductive RosterCall : Type :=
  | callChangeFavor (characterId : string) (delta : Z)
  | callUnlockCharacter (characterId : string)
  | callUnlockEnding (characterId endingId : string)
  | callRecordEvent (characterId eventId : string)
  | callReset.

Definition runRosterCall (s : gmap string CharacterSystem.CharacterData)
    (call : RosterCall) : gmap string CharacterSystem.CharacterData :=
  match call with
  | callChangeFavor c d => (CharacterSystem.changeFavor c d s).1.2
  | callUnlockCharacter c => (CharacterSystem.unlockCharacter c s).1.2
  | callUnlockEnding c e => (CharacterSystem.unlockEnding c e s).1.2
  | callRecordEvent c e => (CharacterSystem.recordEvent c e s).1.2
  | callReset => CharacterSystem.reset s
  end.

Definition runRosterCalls (calls : list RosterCall)
    (s : gmap string CharacterSystem.CharacterData)
  : gmap string CharacterSystem.CharacterData :=
  fold_left runRosterCall calls s.

Definition isFavorChanged (n : CharacterSystem.Notification) : bool :=
  match n with CharacterSystem.favorChanged _ _ _ _ => true | _ => false end.

Definition isFavorLevelUp (n : CharacterSystem.Notification) : bool :=
  match n with CharacterSystem.favorLevelUp _ _ _ _ => true | _ => false end.

(** The roster of the game once [heroine_1] has gained 300 favor. *)
Definition rosterAt300 : gmap string CharacterSystem.CharacterData :=
  (CharacterSystem.changeFavor "heroine_1" 300 CharacterSystem.init).1.2.

(** ** Flags *)

(** The run of [set] calls of [setEntries], without the notifications. *)
Definition setEntriesStore (entries : list (string * bool)) (s : FlagManager.t)
  : FlagManager.t :=
  fold_left (fun s' e => (FlagManager.set e.1 e.2 s').1) entries s.

(** What [importData] leaves readable under a key: the imported value,
    else the declared default, else what the store held. *)
Definition importedValue (data : gmap string bool) (s : FlagManager.t)
    (key : string) : bool :=
  match data !! key with
  | Some v => v
  | None =>
      match FlagManager._definitions s !! key with
      | Some def => FlagManager.defaultValue def
      | None => FlagManager.get key s
      end
  end.

(** ** Saves *)

(** The start-up game after the flag [met_yuqing] has been set. *)
Definition gameWithFlag : Game :=
  let g := newGame Story.storyConfig in
  with_flags (FlagManager.set "met_yuqing" true (flags g)).1 g.

(** The snapshot taken of it at time 1000. *)
Definition snapshotWithFlag : Save.SaveData :=
  SaveLoadSystem.collectSaveData 0 None 1000 gameWithFlag.

(** The same game after the flags have gone back to their defaults, as a
    new game or a new session leaves them. *)
Definition gameAfterFlagReset : Game :=
  with_flags (FlagManager.reset (flags gameWithFlag)).1 gameWithFlag.

(** Two rosters with the same cast: the same ids, and for each the same
    fields that no call changes. *)
Definition sameCast (s s' : gmap string CharacterSystem.CharacterData) : Prop :=
  forall c,
    match s !! c, s' !! c with
    | Some ch, Some ch' =>
        CharacterSystem.id ch = CharacterSystem.id ch'
        /\ CharacterSystem.name ch = CharacterSystem.name ch'
        /\ CharacterSystem.title ch = CharacterSystem.title ch'
        /\ CharacterSystem.sprites ch = CharacterSystem.sprites ch'
        /\ CharacterSystem.maxFavor ch = CharacterSystem.maxFavor ch'
    | None, None => True
    | _, _ => False
    end.

(** The start-up game at the point where [save] has set [_isSaving]. *)
Definition gameWhileSaving : Game :=
  let g := newGame Story.storyConfig in
  with_saveLoad (SaveLoadSystem.set_isSaving true (saveLoad g)) g.

(** A subscriber of ['saveSuccess'] that saves again, and throws if that
    second save reports success. *)
Definition saveAgain (now : Z) (slot : Z) (data : Save.SaveData) : M unit :=
  bind (SaveLoadSystem.save slot None now (fun _ _ => ret tt))
       (fun again => if again then throwTypeError else ret tt).

(** ** Stories *)

(** The node table of a chapter, re-enumerated by [reorder]. *)
Definition reorderChapter
    (reorder : list (string * Dialog.StoryNode) -> list (string * Dialog.StoryNode))
    (c : Story.Chapter) : Story.Chapter :=
  Story.mkChapter (Story.chapter_id c) (Story.chapter_title c)
    (Story.chapter_description c) (Story.chapter_unlockCondition c)
    (Story.chapter_bgm c) (reorder (Story.chapter_nodes c)).

Definition reorderStory
    (reorder : list (string * Dialog.StoryNode) -> list (string * Dialog.StoryNode))
    (s : Story.t) : Story.t :=
  Story.mk (map (reorderChapter reorder) (Story._config s))
           (reorderChapter reorder <$> Story._currentChapter s)
           (Story._currentNodeId s) (Story._localFlags s)
           (Story._visitedNodes s) (Story._choiceHistory s).

(** The game in which every node table is enumerated as [reorder] says
    and nothing else differs. *)
Definition reorderGame
    (reorder : list (string * Dialog.StoryNode) -> list (string * Dialog.StoryNode))
    (g : Game) : Game :=
  with_story (reorderStory reorder (story g)) g.

Definition reorderRes {A}
    (reorder : list (string * Dialog.StoryNode) -> list (string * Dialog.StoryNode))
    (r : Res A) : Res A :=
  match r with
  | Ok a g => Ok a (reorderGame reorder g)
  | Threw g => Threw (reorderGame reorder g)
  | OutOfFuel => OutOfFuel
  end.

(** [reorder] keeps what every key maps to. *)
Definition keepsEntries
    (reorder : list (string * Dialog.StoryNode) -> list (string * Dialog.StoryNode))
  : Prop :=
  forall nodes nodeId,
    Story.lookupNode nodeId (reorder nodes) = Story.lookupNode nodeId nodes.

(** [reorder] keeps the first key. *)
Definition keepsFirstKey
    (reorder : list (string * Dialog.StoryNode) -> list (string * Dialog.StoryNode))
  : Prop :=
  forall nodes, head (reorder nodes).*1 = head nodes.*1.

(** [m'] does on the reordered game what [m] does on the game. *)
Definition simulates {A}
    (reorder : list (string * Dialog.StoryNode) -> list (string * Dialog.StoryNode))
    (m' m : M A) : Prop :=
  forall g, m' (reorderGame reorder g) = reorderRes reorder (m g).

(** A re-enumeration that keeps the first entry and reverses the others
    (of a table with distinct keys). *)
Definition reverseTail (nodes : list (string * Dialog.StoryNode))
  : list (string * Dialog.StoryNode) :=
  match nodes with
  | first :: rest =>
      if decide (NoDup nodes.*1) then first :: reverse rest else nodes
  | [] => []
  end.

(** A re-enumeration that reverses the whole table. *)
Definition reverseAll (nodes : list (string * Dialog.StoryNode))
  : list (string * Dialog.StoryNode) := reverse nodes.

(** The node the story is at when a method has returned. *)
Definition nodeAfter {A} (r : Res A) : option string :=
  match r with
  | Ok _ g => Some (Story._currentNodeId (story g))
  | _ => None
  end.

Definition textNode (nodeId : string) (type : Dialog.NodeType)
    (next : option string) : string * Dialog.StoryNode :=
  (nodeId,
   Dialog.mkStoryNode nodeId type None nodeId None None None next None None).

(** A chapter of three nodes: an event that leads on to a line of
    dialog, and a line no link leads to. *)
Definition threeNodeStory : list Story.Chapter :=
  [ Story.mkChapter "ch" "chapter" "" None None
      [ textNode "a" Dialog.EVENT (Some "c");
        textNode "b" Dialog.DIALOG None;
        textNode "c" Dialog.DIALOG (Some "b") ] ].

(* ===================================================================== *)
(** * Vocabulary of the further properties *)
(* ===================================================================== *)

(** ** Mode state machine *)

(** The calls that drive the state machine. *)
Inductive MachineCall : Type :=
  | callChangeState (newState : GameStateMachine.GameState) (data : JsValue)
  | callGoBack (data : JsValue)
  | callSetMenuState (state : GameStateMachine.MenuState)
  | callSetDialogState (state : GameStateMachine.DialogState)
  | callResetMachine.

Definition runMachineCall (m : GameStateMachine.t) (call : MachineCall)
  : GameStateMachine.t :=
  match call with
  | callChangeState newState data =>
      (GameStateMachine.changeState newState data m).1.2
  | callGoBack data => (GameStateMachine.goBack data m).1.2
  | callSetMenuState state => (GameStateMachine.setMenuState state m).1
  | callSetDialogState state => (GameStateMachine.setDialogState state m).1
  | callResetMachine => GameStateMachine.reset m
  end.

Definition runMachineCalls (calls : list MachineCall) (m : GameStateMachine.t)
  : GameStateMachine.t :=
  fold_left runMachineCall calls m.

(** The machine is in neither of the two states no transition leads to,
    and its history stack holds only states a recorded transition leaves. *)
Definition machineInvariant (m : GameStateMachine.t) : Prop :=
  GameStateMachine._currentState m <> GameStateMachine.MAP
  /\ GameStateMachine._currentState m <> GameStateMachine.ACHIEVEMENT
  /\ Forall (fun s => s ∈ [GameStateMachine.MAIN_MENU; GameStateMachine.PLAYING;
                           GameStateMachine.PAUSE])
            (GameStateMachine._stateStack m).

(** ** Affinity *)

(** The endings and the events of every character hold no id twice. *)
Definition listsDistinct (s : gmap string CharacterSystem.CharacterData) : Prop :=
  forall c ch, s !! c = Some ch ->
    NoDup (CharacterSystem.endings ch) /\ NoDup (CharacterSystem.events ch).

(** ** Flags *)

(** The calls that change the flag store. *)
Inductive FlagCall : Type :=
  | callSet (key : string) (value : bool)
  | callToggle (key : string)
  | callSetMultiple (flags : gmap string bool)
  | callResetFlags
  | callImportFlags (data : gmap string bool)
  | callAddFlag (key : string) (defaultValue : bool) (description : string)
                (tags : list string).

Definition runFlagCall (s : FlagManager.t) (call : FlagCall) : FlagManager.t :=
  match call with
  | callSet key value => (FlagManager.set key value s).1
  | callToggle key => (FlagManager.toggle key s).1.2
  | callSetMultiple flags => (FlagManager.setMultiple flags s).1
  | callResetFlags => (FlagManager.reset s).1
  | callImportFlags data => (FlagManager.importData data s).1
  | callAddFlag key defaultValue description tags =>
      FlagManager.addFlag key defaultValue description tags s
  end.

Definition runFlagCalls (calls : list FlagCall) (s : FlagManager.t) : FlagManager.t :=
  fold_left runFlagCall calls s.

(** Every declared flag has a stored value. *)
Definition declaredStored (s : FlagManager.t) : Prop :=
  forall k def, FlagManager._definitions s !! k = Some def ->
    is_Some (FlagManager._flags s !! k).

(** ** Saves *)

(** Subscribers that do nothing, and subscribers that throw. *)
Definition silent (slot : Z) (data : Save.SaveData) : M unit := ret tt.
Definition throwing (slot : Z) (data : Save.SaveData) : M unit := throwTypeError.

(** A slot index the save system accepts. *)
Definition validSlot (slot : Z) : Prop := 0 <= slot < Save.MAX_SLOTS.

(** ** Story play *)

#[global] Instance NodeType_eq_dec : EqDecision Dialog.NodeType.
Proof. solve_decision. Defined.

(** Whatever a run of [m] leaves behind, on return or on a throw, stands
    in relation [R] to the game it started from. *)
Definition preserves {A} (R : Game -> Game -> Prop) (m : M A) : Prop :=
  forall g,
    match m g with
    | Ok _ g' | Threw g' => R g g'
    | OutOfFuel => True
    end.

(** What story play leaves alone, and what it only adds to: the flag
    store, the save system and the storage are the same; so are the
    story's chapters; the visited nodes, the choice history and the log
    of notifications only grow; the cast is the same. *)
Definition storyFrame (g g' : Game) : Prop :=
  flags g' = flags g
  /\ saveLoad g' = saveLoad g
  /\ localStorage g' = localStorage g
  /\ Story._config (story g') = Story._config (story g)
  /\ Story._visitedNodes (story g) ⊆ Story._visitedNodes (story g')
  /\ Story._choiceHistory (story g) `prefix_of` Story._choiceHistory (story g')
  /\ emitted g `prefix_of` emitted g'
  /\ sameCast (characters g) (characters g').

(** What walking the story never changes: the characters, the choice
    history and the story's own flags. *)
Definition walkFrame (g g' : Game) : Prop :=
  characters g' = characters g
  /\ Story._choiceHistory (story g') = Story._choiceHistory (story g)
  /\ Story._localFlags (story g') = Story._localFlags (story g).

(** The mode a node of the given type asks the state machine for. *)
Definition modeOf (type : Dialog.NodeType) : GameStateMachine.GameState :=
  match type with
  | Dialog.DIALOG | Dialog.NARRATION => GameStateMachine.DIALOG
  | Dialog.CHOICE => GameStateMachine.CHOICE
  | _ => GameStateMachine.ENDING
  end.

(** The roster calls a choice's [favorChange] entries stand for. *)
Definition favorCalls (choice : Dialog.ChoiceData) : list RosterCall :=
  (fun '(charId, delta) => callChangeFavor charId delta)
    <$> default [] (Dialog.choice_favorChange choice).

(** [loop] is closed under [next] and holds only EVENT and BRANCH nodes of
    the chapter: every id in it names such a node, whose [next] is again
    in [loop]. *)
Definition autoAdvanceLoop (chapter : Story.Chapter) (loop : list string) : bool :=
  forallb
    (fun nodeId =>
       match Story.lookupNode nodeId (Story.chapter_nodes chapter) with
       | Some node =>
           bool_decide (Dialog.node_type node ∈ [Dialog.EVENT; Dialog.BRANCH])
           && match truthyString (Dialog.node_next node) with
              | Some nextId => bool_decide (nextId ∈ loop)
              | None => false
              end
       | None => false
       end)
    loop.

(** A chapter with the given nodes, and a new game that has entered it. *)
Definition chapterOf (nodes : list (string * Dialog.StoryNode)) : Story.Chapter :=
  Story.mkChapter "ch" "chapter" "" None None nodes.

Definition gameInChapter (chapter : Story.Chapter) : Game :=
  with_story (StoryManager.set_currentChapter chapter (Story.init [chapter]))
    (newGame [chapter]).

(** A new game that has entered the chapter and is at the given node. *)
Definition gameAtNode (chapter : Story.Chapter) (nodeId : string) : Game :=
  with_story (StoryManager.enterNode nodeId (story (gameInChapter chapter)))
    (gameInChapter chapter).

(** The one chapter of the mock story. *)
Definition mockChapter : Story.Chapter := hd (chapterOf []) Story.storyConfig.

(* ===================================================================== *)
(** * Plain objects used as tables *)
(* ===================================================================== *)

(** The member names every plain object inherits from [Object.prototype].
    A read [table[key]] with one of these names finds the inherited
    member (a function, or the prototype itself) when the table has no
    key of its own by that name, and the value found is truthy. *)
Definition objectMembers : list string :=
  [ "constructor"; "hasOwnProperty"; "isPrototypeOf"; "propertyIsEnumerable";
    "toLocaleString"; "toString"; "valueOf"; "__proto__";
    "__defineGetter__"; "__defineSetter__"; "__lookupGetter__";
    "__lookupSetter__" ].

(** A key that names no inherited member: a read by it finds the table's
    own entry or nothing. *)
Definition ownKeyOnly (key : string) : Prop := key ∉ objectMembers.

(** What the read [chapter.nodes[nodeId]] finds: a node of the table,
    or, for a member name every object inherits that the table has no
    node under, that member, which [playNode] takes for a node. *)
Inductive NodeValue : Type :=
  | tableNode (node : Dialog.StoryNode)
  | inheritedNodeMember.

Definition nodeAt (nodeId : string) (nodes : list (string * Dialog.StoryNode))
  : option NodeValue :=
  match Story.lookupNode nodeId nodes with
  | Some node => Some (tableNode node)
  | None =>
      if bool_decide (nodeId ∈ objectMembers) then Some inheritedNodeMember
      else None
  end.

(* ===================================================================== *)
(** * InventorySystem.ts *)
(* ===================================================================== *)

Module InventorySystem.

Inductive ItemType : Type :=
  | GIFT | KEY | CONSUMABLE | COLLECTIBLE.

#[global] Instance ItemType_eq_dec : EqDecision ItemType.
Proof. solve_decision. Defined.

Record ItemData : Type := mkItemData {
  item_id : string;
  item_name : string;
  item_type : ItemType;
  item_description : string;
  item_icon : option string;
  item_rarity : option Z;
  item_price : option Z;
  item_usable : option bool;
  item_consumable : option bool;
}.

(** An item held in the inventory. *)
Record InventoryItem : Type := mkInventoryItem {
  id : string;
  count : Z;
  obtained : bool;
  obtainedTime : option Z;
}.

Definition giftItem (itemId name description : string) (rarity price : Z)
  : string * ItemData :=
  (itemId,
   mkItemData itemId name GIFT description None (Some rarity) (Some price)
              None None).

Definition keyItem (itemId name description : string) : string * ItemData :=
  (itemId, mkItemData itemId name KEY description None None None None None).

(** The entries of the item table of the source. *)
Definition ITEM_CONFIG : gmap string ItemData :=
  list_to_map
    [ giftItem "gift_flower" "鲜花" "一束新鲜的鲜花" 1 50;
      giftItem "gift_chocolate" "巧克力" "手工制作的巧克力" 2 100;
      giftItem "gift_book" "书籍" "一本珍贵的书籍" 2 150;
      giftItem "gift_game" "游戏盘" "最新发行的游戏" 2 200;
      giftItem "gift_necklace" "项链" "精致的银项链" 4 500;
      keyItem "key_student_id" "学生证" "圣樱学院的学生证";
      keyItem "key_library_card" "图书馆卡" "可以进入图书馆的卡片" ].

(** What the read [ITEM_CONFIG[itemId]] finds: an entry of the table, or,
    for a member name every object inherits, that member, which has none
    of the fields of an item. *)
Inductive ConfigValue : Type :=
  | tableEntry (config : ItemData)
  | inheritedMember.

Definition configAt (itemId : string) : option ConfigValue :=
  match ITEM_CONFIG !! itemId with
  | Some config => Some (tableEntry config)
  | None =>
      if bool_decide (itemId ∈ objectMembers) then Some inheritedMember else None
  end.

Inductive Notification : Type :=
  | itemAdded (itemId : string) (count : Z)
  | itemRemoved (itemId : string) (count : Z)
  | itemUsed (itemId : string) (target : option string)
  | giftGiven (itemId characterId : string) (favorDelta : Z)
  | currencyChanged (amount total : Z).

(** The fields of the [InventorySystem] instance. *)
Record t : Type := mk {
  _items : gmap string InventoryItem;
  _currency : Z;
}.

(** The field initialisers. *)
Definition new : t := {| _items := ∅; _currency := 500 |}.

Definition set_count (n : Z) (item : InventoryItem) : InventoryItem :=
  {| id := id item; count := n; obtained := obtained item;
     obtainedTime := obtainedTime item |}.

Definition addItem (itemId : string) (n : Z) (now : Z) (s : t)
  : bool * t * list Notification :=
  match configAt itemId with
  | None => (false, s, [])
  | Some config =>
      let item :=
        match _items s !! itemId with
        | Some item => set_count (count item + n) item
        | None =>
            {| id := itemId; count := n; obtained := true;
               obtainedTime := Some now |}
        end in
      (true, {| _items := <[itemId := item]> (_items s); _currency := _currency s |},
       [itemAdded itemId n])
  end.

Definition removeItem (itemId : string) (n : Z) (s : t)
  : bool * t * list Notification :=
  match _items s !! itemId with
  | None => (false, s, [])
  | Some item =>
      if count item <? n then (false, s, [])
      else
        let left := count item - n in
        (true,
         {| _items :=
              if left <=? 0 then delete itemId (_items s)
              else <[itemId := set_count left item]> (_items s);
            _currency := _currency s |},
         [itemRemoved itemId n])
  end.

(** [!x] on an optional boolean. *)
Definition falsy (x : option bool) : bool := negb (default false x).

(** [config.usable] and [config.consumable]; an inherited member has
    neither field. *)
Definition usableOf (config : ConfigValue) : option bool :=
  match config with
  | tableEntry config => item_usable config
  | inheritedMember => None
  end.

Definition consumableOf (config : ConfigValue) : option bool :=
  match config with
  | tableEntry config => item_consumable config
  | inheritedMember => None
  end.

Definition useItem (itemId : string) (target : option string) (s : t)
  : bool * t * list Notification :=
  match _items s !! itemId, configAt itemId with
  | Some item, Some config =>
      if falsy (usableOf config) then (false, s, [])
      else
        let '(s1, ev1) :=
          if falsy (consumableOf config) then (s, [])
          else let '(_, s1, ev1) := removeItem itemId 1 s in (s1, ev1) in
        (true, s1, ev1 ++ [itemUsed itemId target])
  | _, _ => (false, s, [])
  end.

Definition hasItem (itemId : string) (s : t) : bool :=
  match _items s !! itemId with
  | Some item => 0 <? count item
  | None => false
  end.

Definition getItemCount (itemId : string) (s : t) : Z :=
  match _items s !! itemId with
  | Some item => count item
  | None => 0
  end.

(** [config.type]; an inherited member has no such field. *)
Definition typeOf (config : ConfigValue) : option ItemType :=
  match config with
  | tableEntry config => Some (item_type config)
  | inheritedMember => None
  end.

(** [giveGift]. [favorDelta] stands for the value [calculateGiftFavor]
    draws with [Math.random]. The gift leaves the inventory; the favor is
    reported to the caller and the listeners, not applied. *)
Definition giveGift (itemId characterId : string) (favorDelta : Z) (s : t)
  : (bool * Z) * t * list Notification :=
  match configAt itemId with
  | Some config =>
      if negb (bool_decide (typeOf config = Some GIFT)) then ((false, 0), s, [])
      else if negb (hasItem itemId s) then ((false, 0), s, [])
      else
        let '(_, s1, ev1) := removeItem itemId 1 s in
        ((true, favorDelta), s1, ev1 ++ [giftGiven itemId characterId favorDelta])
  | None => ((false, 0), s, [])
  end.

Definition getCurrency (s : t) : Z := _currency s.

Definition addCurrency (amount : Z) (s : t) : t * list Notification :=
  ({| _items := _items s; _currency := _currency s + amount |},
   [currencyChanged amount (_currency s + amount)]).

Definition spendCurrency (amount : Z) (s : t) : bool * t * list Notification :=
  if _currency s <? amount then (false, s, [])
  else
    (true, {| _items := _items s; _currency := _currency s - amount |},
     [currencyChanged (- amount) (_currency s - amount)]).

(** [init]: the starting items. *)
Definition init (now : Z) (s : t) : t * list Notification :=
  let '(_, s1, ev1) := addItem "gift_flower" 3 now s in
  let '(_, s2, ev2) := addItem "gift_chocolate" 2 now s1 in
  (s2, ev1 ++ ev2).

Definition reset (now : Z) (s : t) : t * list Notification :=
  init now {| _items := ∅; _currency := 500 |}.

End InventorySystem.

(* ===================================================================== *)
(** * EventEmitter.ts *)
(* ===================================================================== *)

Module EventEmitter.

(** A registered function. The emitter tells functions apart by
    identity: a callback handed in by a caller is known by its number;
    the closure [once] builds around a callback is a function of its own,
    known by the serial number of the [once] call that made it. *)
Inductive Callback : Type :=
  | plain (callback : nat)
  | wrapper (serial : nat) (callback : nat).

#[global] Instance Callback_eq_dec : EqDecision Callback.
Proof. solve_decision. Defined.

(** The listener table, the number of closures built so far and the log
    of the calls made to the callers' callbacks, oldest first. The
    callbacks are taken not to reach back into the emitter. *)
Record t : Type := mk {
  _events : gmap string (list Callback);
  serials : nat;
  called : list (nat * JsValue);
}.

Definition new : t := {| _events := ∅; serials := 0; called := [] |}.

Definition on (event : string) (callback : Callback) (s : t) : t :=
  {| _events := <[event := default [] (_events s !! event) ++ [callback]]> (_events s);
     serials := serials s; called := called s |}.

Definition once (event : string) (callback : nat) (s : t) : t :=
  on event (wrapper (serials s) callback)
     {| _events := _events s; serials := S (serials s); called := called s |}.

(** [indexOf] and [splice(index, 1)]: the first occurrence goes. *)
Fixpoint removeFirst (callback : Callback) (callbacks : list Callback)
  : list Callback :=
  match callbacks with
  | [] => []
  | cb :: rest => if decide (cb = callback) then rest
                  else cb :: removeFirst callback rest
  end.

Definition off (event : string) (callback : option Callback) (s : t) : t :=
  match callback with
  | None =>
      {| _events := delete event (_events s); serials := serials s;
         called := called s |}
  | Some cb =>
      match _events s !! event with
      | Some callbacks =>
          {| _events := <[event := removeFirst cb callbacks]> (_events s);
             serials := serials s; called := called s |}
      | None => s
      end
  end.

(** One call of a registered function: the caller's callback runs; a
    closure of [once] then takes itself off the table. *)
Definition call (event : string) (data : JsValue) (cb : Callback) (s : t) : t :=
  match cb with
  | plain callback =>
      {| _events := _events s; serials := serials s;
         called := called s ++ [(callback, data)] |}
  | wrapper _ callback =>
      off event (Some cb)
          {| _events := _events s; serials := serials s;
             called := called s ++ [(callback, data)] |}
  end.

(** [callbacks.forEach]: the indices [k], [k+1], ... of the array as it
    is when each index is reached, up to the length the array had when
    the loop began; an index the array no longer has is passed over. *)
Fixpoint forEachFrom (k : nat) (remaining : nat) (event : string) (data : JsValue)
    (s : t) : t :=
  match remaining with
  | O => s
  | S remaining' =>
      match default [] (_events s !! event) !! k with
      | Some cb => forEachFrom (S k) remaining' event data (call event data cb s)
      | None => forEachFrom (S k) remaining' event data s
      end
  end.

Definition emit (event : string) (data : JsValue) (s : t) : t :=
  match _events s !! event with
  | Some callbacks => forEachFrom 0 (length callbacks) event data s
  | None => s
  end.

Definition clear (s : t) : t :=
  {| _events := ∅; serials := serials s; called := called s |}.

End EventEmitter.

(* ===================================================================== *)
(** * Vocabulary of the inventory properties *)
(* ===================================================================== *)

(** The calls that change the inventory. *)
Inductive InventoryCall : Type :=
  | callAddItem (itemId : string) (n : Z) (now : Z)
  | callRemoveItem (itemId : string) (n : Z)
  | callUseItem (itemId : string) (target : option string)
  | callGiveGift (itemId characterId : string) (favorDelta : Z)
  | callAddCurrency (amount : Z)
  | callSpendCurrency (amount : Z)
  | callResetInventory (now : Z).

Definition runInventoryCall (s : InventorySystem.t) (call : InventoryCall)
  : InventorySystem.t :=
  match call with
  | callAddItem itemId n now => (InventorySystem.addItem itemId n now s).1.2
  | callRemoveItem itemId n => (InventorySystem.removeItem itemId n s).1.2
  | callUseItem itemId target => (InventorySystem.useItem itemId target s).1.2
  | callGiveGift itemId characterId favorDelta =>
      (InventorySystem.giveGift itemId characterId favorDelta s).1.2
  | callAddCurrency amount => (InventorySystem.addCurrency amount s).1
  | callSpendCurrency amount => (InventorySystem.spendCurrency amount s).1.2
  | callResetInventory now => (InventorySystem.reset now s).1
  end.

Definition runInventoryCalls (calls : list InventoryCall) (s : InventorySystem.t)
  : InventorySystem.t :=
  fold_left runInventoryCall calls s.

(** A call that adds or removes a positive number of items, or moves a
    non-negative amount of currency. *)
Definition positiveCall (call : InventoryCall) : Prop :=
  match call with
  | callAddItem _ n _ | callRemoveItem _ n => 0 < n
  | callAddCurrency amount | callSpendCurrency amount => 0 <= amount
  | _ => True
  end.

(** A call that adds no item under a member name every object inherits. *)
Definition ordinaryCall (call : InventoryCall) : Prop :=
  match call with
  | callAddItem itemId _ _ => ownKeyOnly itemId
  | _ => True
  end.

(** Every held item is filed under its own id, under a name the read of
    the item table finds something for, with a positive count; the
    currency is not negative. *)
Definition countsPositive (s : InventorySystem.t) : Prop :=
  (forall k item, InventorySystem._items s !! k = Some item ->
     InventorySystem.id item = k
     /\ 0 < InventorySystem.count item
     /\ is_Some (InventorySystem.configAt k))
  /\ 0 <= InventorySystem._currency s.

(** Every held item is filed under its own id, is an item of the table
    and has a positive count; the currency is not negative. *)
Definition inventoryInvariant (s : InventorySystem.t) : Prop :=
  (forall k item, InventorySystem._items s !! k = Some item ->
     InventorySystem.id item = k
     /\ 0 < InventorySystem.count item
     /\ is_Some (InventorySystem.ITEM_CONFIG !! k))
  /\ 0 <= InventorySystem._currency s.

(* ===================================================================== *)
(** * SaveLoadSystem.ts: [save] with the listeners of ['saveFailed'] *)
(* ===================================================================== *)

Module SaveListeners.

(** [save] with the listeners of both of its notifications. [onSuccess]
    stands for the callbacks registered for ['saveSuccess'], which [emit]
    runs inside the [try] block; [onFailed] stands for those registered
    for ['saveFailed'], which [emit] runs inside the [catch] block, where
    nothing catches what they throw. [SaveLoadSystem.save] is this method
    when nothing listens to ['saveFailed']. *)
Definition save (slot : Z) (data : option Save.Overrides) (now : Z)
    (onSuccess : Z -> Save.SaveData -> M unit) (onFailed : Z -> M unit) : M bool :=
  isSaving <- gets (fun g => Save._isSaving (saveLoad g));;
  if isSaving then ret false
  else if (slot <? 0) || (Save.MAX_SLOTS <=? slot) then ret false
  else
    modify (fun g => with_saveLoad (SaveLoadSystem.set_isSaving true (saveLoad g)) g);;
    tryCatchFinally
      (saveData <- gets (SaveLoadSystem.collectSaveData slot data now);;
       SaveLoadSystem.setStorage (SaveLoadSystem.storageKey slot) saveData;;
       modify (fun g =>
         with_saveLoad (SaveLoadSystem.set_currentSlot slot (saveLoad g)) g);;
       emit (fromSaveLoad (Save.saveSuccess slot saveData));;
       onSuccess slot saveData;;
       ret true)
      (emit (fromSaveLoad (Save.saveFailed slot));;
       onFailed slot;;
       ret false)
      (modify (fun g =>
         with_saveLoad (SaveLoadSystem.set_isSaving false (saveLoad g)) g)).

End SaveListeners.

(** Listeners of ['saveFailed'] that do nothing, and that throw. *)
Definition failedSilent (slot : Z) : M unit := ret tt.
Definition failedThrowing (slot : Z) : M unit := throwTypeError.

(* ===================================================================== *)
(** * DialogSystem.ts and StoryManager: the engine widgets and the
      dropped promises *)
(* ===================================================================== *)

(** The modules [DialogSystem] and [StoryManager] above take the widgets
    of the dialog as installed and have the callbacks of [playNode] hand
    on what the nested call does. The two modules below embed the same
    methods with both made explicit.

    - The fields [_dialogBox], [_speakerLabel], [_contentLabel] and
      [_choicePanel] are [null] until [DialogSystem.init] hands the
      widgets over; a method that writes to a widget throws on [null].
      [installed] says whether [init] has run.
    - [StoryManager.playNode] is [async] and the callbacks it registers
      drop the promise of the nested call: what the nested call throws is
      not thrown on to the method that emitted the signal. *)
Module DialogWidgets.
Import Dialog.

(** A write to a field of a widget. *)
Definition widget (installed : bool) : M unit :=
  if installed then ret tt else throwTypeError.

Definition playDialog (installed : bool) (node : StoryNode) : M unit :=
  changeState GameStateMachine.DIALOG;;
  setDialogState GameStateMachine.TYPING;;
  widget installed;;
  DialogSystem.modifyDialog (DialogSystem.set_currentText (node_content node));;
  DialogSystem.modifyDialog (DialogSystem.set_isTyping true);;
  widget installed.

Definition playChoice (installed : bool) (node : StoryNode) : M unit :=
  changeState GameStateMachine.CHOICE;;
  DialogSystem.modifyDialog (DialogSystem.set_isTyping false);;
  widget installed;;
  let availableChoices :=
    filter (fun choice =>
              match choice_conditions choice with
              | None => true
              | Some conditions => DialogSystem.checkConditions conditions
              end = true)
           (default [] (node_choices node)) in
  widget installed;;
  emit (fromDialog (choicesShown availableChoices)).

Definition playEnding (installed : bool) : M unit :=
  changeState GameStateMachine.ENDING;;
  widget installed;;
  emit (fromDialog endingTriggered).

Definition next (installed : bool) (onRequestNode : string -> M unit) : M unit :=
  d <- gets dialog;;
  if _isTyping d
  then DialogSystem.modifyDialog (DialogSystem.set_isTyping false);;
       widget installed
  else
    match _currentNode d with
    | None => throwTypeError
    | Some currentNode =>
        match truthyString (node_next currentNode) with
        | Some nextId =>
            emit (fromDialog (requestNode nextId));;
            onRequestNode nextId
        | None => playEnding installed
        end
    end.

Definition playNode (installed : bool) (onRequestNode : string -> M unit)
    (node : StoryNode) : M unit :=
  DialogSystem.modifyDialog (DialogSystem.set_currentNode node);;
  match node_effects node with
  | Some effects => DialogSystem.applyEffects effects
  | None => ret tt
  end;;
  match truthyString (node_background node) with
  | Some bgName => emit (fromDialog (backgroundChanged bgName))
  | None => ret tt
  end;;
  match node_character node with
  | Some display => emit (fromDialog (characterShown display))
  | None => emit (fromDialog allCharactersHidden)
  end;;
  match node_type node with
  | DIALOG | NARRATION => playDialog installed node
  | CHOICE => playChoice installed node
  | END => playEnding installed
  | _ => next installed onRequestNode
  end.

End DialogWidgets.

Module StoryWidgets.
Import Story.

(** A call whose promise is dropped: what it throws stays with it.
    [OutOfFuel] is no outcome of the code; it says that the bound on the
    nesting was too small for the run, and is handed on so that the run
    as a whole says so. *)
Definition dropPromise {A} (m : M A) : M unit :=
  fun g =>
    match m g with
    | Ok _ g' | Threw g' => Ok tt g'
    | OutOfFuel => OutOfFuel
    end.

Fixpoint playNode (installed : bool) (fuel : nat) (nodeId : string) : M bool :=
  match fuel with
  | O => outOfFuel
  | S fuel' =>
      s <- gets story;;
      match _currentChapter s with
      | None => ret false
      | Some currentChapter =>
          match lookupNode nodeId (chapter_nodes currentChapter) with
          | None => ret false
          | Some node =>
              StoryManager.modifyStory (StoryManager.enterNode nodeId);;
              DialogSystem.modifyDialog (DialogSystem.set_storySubscribed true);;
              DialogWidgets.playNode installed
                (fun nextNodeId => dropPromise (playNode installed fuel' nextNodeId))
                node;;
              emit (fromStory (nodePlayed node));;
              ret true
          end
      end
  end.

Definition playChapter (installed : bool) (fuel : nat) (chapterId : string)
  : M bool :=
  s <- gets story;;
  match List.find (fun c => bool_decide (chapter_id c = chapterId)) (_config s) with
  | None => ret false
  | Some chapter =>
      if match chapter_unlockCondition chapter with
         | Some condition => negb (StoryManager.checkCondition condition s)
         | None => false
         end
      then emit (fromStory (chapterLocked (chapter_id chapter)));; ret false
      else
        StoryManager.modifyStory (StoryManager.set_currentChapter chapter);;
        match truthyString (StoryManager.firstNodeId chapter) with
        | Some first => playNode installed fuel first;; ret tt
        | None => ret tt
        end;;
        emit (fromStory (chapterStarted (chapter_id chapter)));;
        ret true
  end.

End StoryWidgets.

(** The notifications of the story manager among [ev], oldest first. *)
Definition storyNotifications (ev : list Emitted) : list Story.Notification :=
  omap (fun e => match e with fromStory n => Some n | _ => None end) ev.
(* ===================================================================== *)
(** * Mode state machine: rejected transitions *)
(* ===================================================================== *)

Section StateMachineFacts.
Import GameStateMachine.

Lemma includes_spec (l : list GameState) (x : GameState) :
  includes l x = true <-> x ∈ l.
Proof.
  unfold includes. rewrite existsb_exists. split.
  - intros (y & Hy & Heq). apply bool_decide_eq_true in Heq. subst.
    by apply list_elem_of_In.
  - intros Hin. exists x. split; [by apply list_elem_of_In|].
    by apply bool_decide_eq_true.
Qed.

Lemma canTransition_false (m : t) (target : GameState) :
  target ∉ STATE_TRANSITIONS (_currentState m) ->
  canTransition target m = false.
Proof.
  intros Hnot. unfold canTransition.
  destruct (includes _ target) eqn:E; [|done].
  apply includes_spec in E. contradiction.
Qed.

(** A legal request moves the machine and notifies once. *)
Lemma changeState_legal (m : t) (target : GameState) (data : JsValue) :
  target ∈ STATE_TRANSITIONS (_currentState m) ->
  exists m',
    changeState target data m
      = (true, m', [stateChanged (_currentState m) target data])
    /\ _currentState m' = target
    /\ _previousState m' = _currentState m.
Proof.
  intros Hin. apply includes_spec in Hin.
  unfold changeState, canTransition. rewrite Hin. simpl. eauto.
Qed.

End StateMachineFacts.

(** C6. A request for a state outside the allowed set of the current state
    is rejected: [changeState] returns [false], the machine (current and
    previous state, history stack, menu and dialog state) is the one it
    was, and nothing is notified. *)
Theorem changeState_illegal_rejected
    (m : GameStateMachine.t) (target : GameStateMachine.GameState)
    (data : JsValue) :
  target ∉ GameStateMachine.STATE_TRANSITIONS (GameStateMachine._currentState m) ->
  GameStateMachine.changeState target data m = (false, m, []).
Proof.
  intros Hnot. unfold GameStateMachine.changeState.
  by rewrite (canTransition_false _ _ Hnot).
Qed.

(** From [playing], a request for [credits] fails and the machine stays
    in [playing], whatever its history. *)
Lemma changeState_illegal_rejected_witness :
  let m := GameStateMachine.mk GameStateMachine.PLAYING GameStateMachine.MAIN_MENU
             GameStateMachine.MENU_MAIN GameStateMachine.WAITING
             [GameStateMachine.MAIN_MENU] in
  (GameStateMachine.CREDITS
     ∉ GameStateMachine.STATE_TRANSITIONS (GameStateMachine._currentState m))
  /\ GameStateMachine.changeState GameStateMachine.CREDITS JsUndefined m
     = (false, m, [])
  /\ GameStateMachine._currentState
       (GameStateMachine.changeState GameStateMachine.CREDITS JsUndefined m).1.2
     = GameStateMachine.PLAYING.
Proof.
  intros m.
  assert (Hnot : GameStateMachine.CREDITS
            ∉ GameStateMachine.STATE_TRANSITIONS (GameStateMachine._currentState m)).
  { simpl. intros Hin. repeat (apply elem_of_cons in Hin as [Hin|Hin]; [discriminate|]).
    by apply elem_of_nil in Hin. }
  split; [exact Hnot|].
  rewrite (changeState_illegal_rejected m GameStateMachine.CREDITS JsUndefined Hnot).
  split; reflexivity.
Defined.

(* ===================================================================== *)
(** * Affinity ledger *)
(* ===================================================================== *)

Section CharacterFacts.
Import CharacterSystem.

(** [checkFavorLevel] compares a level with itself (the source marks the
    old level as still to be stored: [// TODO: 需要存储旧等级]), so it
    never notifies. *)
Lemma checkFavorLevel_silent (character : CharacterData)
    (s : gmap string CharacterData) :
  checkFavorLevel character s = [].
Proof.
  unfold checkFavorLevel.
  rewrite bool_decide_eq_false_2; [done|]. intros H. by apply H.
Qed.

Lemma changeFavor_known (s : gmap string CharacterData) (c : string) (d : Z)
    (ch : CharacterData) :
  s !! c = Some ch ->
  changeFavor c d s =
    (clampFavor ch d - favor ch,
     <[c := set_favor (clampFavor ch d) ch]> s,
     if bool_decide (clampFavor ch d - favor ch ≠ 0)
     then [favorChanged c (name ch) (clampFavor ch d - favor ch) (clampFavor ch d)]
     else []).
Proof.
  intros Hc. unfold changeFavor. rewrite Hc. cbn [favor set_favor name].
  fold (clampFavor ch d).
  case_bool_decide; [|done].
  by rewrite checkFavorLevel_silent.
Qed.

Lemma changeFavor_absent (s : gmap string CharacterData) (c : string) (d : Z) :
  s !! c = None -> changeFavor c d s = (0, s, []).
Proof. intros Hc. unfold changeFavor. by rewrite Hc. Qed.

Lemma clampFavor_bounds (ch : CharacterData) (d : Z) :
  0 <= maxFavor ch -> 0 <= clampFavor ch d <= maxFavor ch.
Proof. unfold clampFavor. lia. Qed.

Lemma changeFavor_bounded (s : gmap string CharacterData) (c : string) (d : Z) :
  favor_bounded s -> favor_bounded (changeFavor c d s).1.2.
Proof.
  intros Hs. destruct (s !! c) as [ch|] eqn:Hc.
  - rewrite (changeFavor_known _ _ _ _ Hc). cbn [fst snd].
    intros c' ch'. destruct (decide (c = c')) as [->|Hne].
    + rewrite lookup_insert_eq. intros [= <-]. cbn [favor set_favor maxFavor].
      apply clampFavor_bounds. specialize (Hs _ _ Hc). lia.
    + rewrite lookup_insert_ne by done. apply Hs.
  - by rewrite (changeFavor_absent _ _ _ Hc).
Qed.

Lemma unlockCharacter_bounded (s : gmap string CharacterData) (c : string) :
  favor_bounded s -> favor_bounded (unlockCharacter c s).1.2.
Proof.
  intros Hs. unfold unlockCharacter.
  destruct (s !! c) as [ch|] eqn:Hc; [|done].
  destruct (unlocked ch); [done|]. cbn [fst snd].
  intros c' ch'. destruct (decide (c = c')) as [->|Hne].
  - rewrite lookup_insert_eq. intros [= <-]. apply (Hs _ _ Hc).
  - rewrite lookup_insert_ne by done. apply Hs.
Qed.

Lemma unlockEnding_bounded (s : gmap string CharacterData) (c e : string) :
  favor_bounded s -> favor_bounded (unlockEnding c e s).1.2.
Proof.
  intros Hs. unfold unlockEnding.
  destruct (s !! c) as [ch|] eqn:Hc; [|done].
  destruct (includes _ e); [done|]. cbn [fst snd].
  intros c' ch'. destruct (decide (c = c')) as [->|Hne].
  - rewrite lookup_insert_eq. intros [= <-]. apply (Hs _ _ Hc).
  - rewrite lookup_insert_ne by done. apply Hs.
Qed.

Lemma recordEvent_bounded (s : gmap string CharacterData) (c e : string) :
  favor_bounded s -> favor_bounded (recordEvent c e s).1.2.
Proof.
  intros Hs. unfold recordEvent.
  destruct (s !! c) as [ch|] eqn:Hc; [|done].
  destruct (includes _ e); [done|]. cbn [fst snd].
  intros c' ch'. destruct (decide (c = c')) as [->|Hne].
  - rewrite lookup_insert_eq. intros [= <-]. apply (Hs _ _ Hc).
  - rewrite lookup_insert_ne by done. apply Hs.
Qed.

Lemma reset_bounded (s : gmap string CharacterData) :
  favor_bounded s -> favor_bounded (reset s).
Proof.
  intros Hs c ch'. unfold reset. rewrite lookup_fmap.
  destruct (s !! c) as [ch|] eqn:Hc; [|done].
  intros [= <-]. cbn [favor maxFavor]. specialize (Hs _ _ Hc). lia.
Qed.

Lemma runRosterCall_bounded (s : gmap string CharacterData) (call : RosterCall) :
  favor_bounded s -> favor_bounded (runRosterCall s call).
Proof.
  destruct call; cbn [runRosterCall];
    auto using changeFavor_bounded, unlockCharacter_bounded,
      unlockEnding_bounded, recordEvent_bounded, reset_bounded.
Qed.

(** The roster that [init] builds satisfies the bound. *)
Lemma init_favor_bounded : favor_bounded init.
Proof.
  intros c ch. unfold init, initializeCharacters, characterConfig.
  cbn [fold_left cfg_id cfg_name cfg_title cfg_sprites cfg_maxFavor cfg_defaultFavor].
  intros H.
  repeat (apply lookup_insert_Some in H as [[_ <-]|[_ H]]; [cbn; lia|]).
  by rewrite lookup_empty in H.
Qed.

End CharacterFacts.

(** C3. For every roster character whose maximum is not negative and
    every integer delta, negative or large, [changeFavor] leaves the
    character's favor in [[0, maxFavor]]. The bound on the whole roster
    holds for the roster built at start-up and is preserved by every
    sequence of roster calls. *)
Theorem favor_bounded_preserved :
  (forall (s : gmap string CharacterSystem.CharacterData) (c : string) (d : Z)
          (ch : CharacterSystem.CharacterData),
     s !! c = Some ch ->
     0 <= CharacterSystem.maxFavor ch ->
     exists ch',
       (CharacterSystem.changeFavor c d s).1.2 !! c = Some ch'
       /\ CharacterSystem.maxFavor ch' = CharacterSystem.maxFavor ch
       /\ 0 <= CharacterSystem.favor ch' <= CharacterSystem.maxFavor ch')
  /\ favor_bounded CharacterSystem.init
  /\ (forall (s : gmap string CharacterSystem.CharacterData)
             (calls : list RosterCall),
        favor_bounded s -> favor_bounded (runRosterCalls calls s)).
Proof.
  split; [|split].
  - intros s c d ch Hc Hmax. rewrite (changeFavor_known _ _ _ _ Hc). cbn [fst snd].
    exists (CharacterSystem.set_favor (clampFavor ch d) ch).
    rewrite lookup_insert_eq. split; [done|]. split; [done|].
    cbn [CharacterSystem.favor CharacterSystem.maxFavor CharacterSystem.set_favor].
    by apply clampFavor_bounds.
  - exact init_favor_bounded.
  - intros s calls. revert s.
    induction calls as [|call calls IH]; intros s Hs; [exact Hs|].
    cbn [runRosterCalls fold_left]. apply IH. by apply runRosterCall_bounded.
Qed.

(** At the start-up roster: after a gain beyond the maximum, a loss below
    zero and a further gain, [heroine_1] still has a favor within
    [[0, 1000]]. *)
Lemma favor_bounded_preserved_witness :
  favor_bounded CharacterSystem.init
  /\ forall ch,
       runRosterCalls
         [callChangeFavor "heroine_1" 123456789; callUnlockCharacter "heroine_1";
          callChangeFavor "heroine_1" (-99999999999); callChangeFavor "heroine_1" 7]
         CharacterSystem.init !! "heroine_1" = Some ch ->
       0 <= CharacterSystem.favor ch <= CharacterSystem.maxFavor ch.
Proof.
  split; [exact (proj1 (proj2 favor_bounded_preserved))|].
  intros ch.
  apply (proj2 (proj2 favor_bounded_preserved) CharacterSystem.init _
           (proj1 (proj2 favor_bounded_preserved))).
Defined.

(** C5. For a roster character, [changeFavor] returns the difference
    between the stored favor after and before the call (the requested
    delta cut at the bounds), and a [favorChanged] notification, sent when
    that difference is not zero, carries it together with the new value.
    Two calls, +15 then +20, on a character at 0 of 1000 return 15 and 20,
    leave the favor at 35 and send exactly two [favorChanged]
    notifications, with deltas 15 and 20. *)
Theorem changeFavor_returns_actual_delta :
  (forall (s : gmap string CharacterSystem.CharacterData) (c : string) (d : Z)
          (ch : CharacterSystem.CharacterData),
     s !! c = Some ch ->
     exists ch',
       (CharacterSystem.changeFavor c d s).1.2 !! c = Some ch'
       /\ CharacterSystem.favor ch' = clampFavor ch d
       /\ (CharacterSystem.changeFavor c d s).1.1
          = CharacterSystem.favor ch' - CharacterSystem.favor ch
       /\ (CharacterSystem.changeFavor c d s).2
          = if bool_decide ((CharacterSystem.changeFavor c d s).1.1 ≠ 0)
            then [CharacterSystem.favorChanged c (CharacterSystem.name ch)
                    (CharacterSystem.changeFavor c d s).1.1
                    (CharacterSystem.favor ch')]
            else [])
  /\ (let '(r1, s1, ev1) :=
        CharacterSystem.changeFavor "heroine_1" 15 CharacterSystem.init in
      let '(r2, s2, ev2) := CharacterSystem.changeFavor "heroine_1" 20 s1 in
      r1 = 15 /\ r2 = 20
      /\ (CharacterSystem.favor <$> s2 !! "heroine_1") = Some 35
      /\ CharacterSystem.getFavorLevel "heroine_1" s1 = 1
      /\ CharacterSystem.getFavorLevel "heroine_1" s2 = 1
      /\ ev1 ++ ev2
         = [CharacterSystem.favorChanged "heroine_1" "林雨晴" 15 15;
            CharacterSystem.favorChanged "heroine_1" "林雨晴" 20 35]).
Proof.
  split.
  - intros s c d ch Hc. rewrite (changeFavor_known _ _ _ _ Hc). cbn [fst snd].
    exists (CharacterSystem.set_favor (clampFavor ch d) ch).
    rewrite lookup_insert_eq. done.
  - vm_compute. done.
Qed.

(** A gain of 50 asked of a character 20 short of its maximum yields 20. *)
Lemma changeFavor_returns_actual_delta_witness :
  let s := (CharacterSystem.changeFavor "heroine_2" 980 CharacterSystem.init).1.2 in
  exists ch ch',
    s !! "heroine_2" = Some ch
    /\ (CharacterSystem.changeFavor "heroine_2" 50 s).1.2 !! "heroine_2" = Some ch'
    /\ CharacterSystem.favor ch' = clampFavor ch 50
    /\ (CharacterSystem.changeFavor "heroine_2" 50 s).1.1
       = CharacterSystem.favor ch' - CharacterSystem.favor ch
    /\ (CharacterSystem.changeFavor "heroine_2" 50 s).1.1 = 20.
Proof.
  intros s.
  destruct (s !! "heroine_2") as [ch|] eqn:Hc; [|by vm_compute in Hc].
  destruct (proj1 changeFavor_returns_actual_delta s "heroine_2" 50 ch Hc)
    as (ch' & H1 & H2 & H3 & _).
  exists ch, ch'. repeat split; assumption || by vm_compute.
Defined.

(** C10. For an id that is not in the roster, [changeFavor] returns 0,
    leaves the roster as it was and notifies nothing, for every delta;
    [getFavorLevel] returns 0, which is outside the levels 1 to 7. *)
Theorem changeFavor_unknown_character
    (s : gmap string CharacterSystem.CharacterData) (id : string) (d : Z) :
  s !! id = None ->
  CharacterSystem.changeFavor id d s = (0, s, [])
  /\ CharacterSystem.getFavorLevel id s = 0
  /\ ~ (1 <= CharacterSystem.getFavorLevel id s <= 7).
Proof.
  intros Hid. split; [by apply changeFavor_absent|].
  unfold CharacterSystem.getFavorLevel. rewrite Hid. split; [done|lia].
Qed.

Lemma changeFavor_unknown_character_witness :
  CharacterSystem.init !! "heroine_9" = None
  /\ CharacterSystem.changeFavor "heroine_9" 400 CharacterSystem.init
     = (0, CharacterSystem.init, [])
  /\ CharacterSystem.getFavorLevel "heroine_9" CharacterSystem.init = 0.
Proof.
  assert (H : CharacterSystem.init !! "heroine_9" = None) by (by vm_compute).
  split; [exact H|].
  destruct (changeFavor_unknown_character CharacterSystem.init "heroine_9" 400 H)
    as (H1 & H2 & _).
  by split.
Defined.

(** C9. For a roster character that is still locked, two calls of
    [unlockCharacter] in a row leave it unlocked and send exactly one
    [characterUnlocked] notification: the first call returns [true], the
    second returns [false], sends nothing and changes nothing. (For a
    character that is already unlocked the first call behaves like the
    second.) *)
Theorem unlockCharacter_idempotent
    (s : gmap string CharacterSystem.CharacterData) (c : string)
    (ch : CharacterSystem.CharacterData) :
  s !! c = Some ch ->
  CharacterSystem.unlocked ch = false ->
  let '(r1, s1, ev1) := CharacterSystem.unlockCharacter c s in
  let '(r2, s2, ev2) := CharacterSystem.unlockCharacter c s1 in
  r1 = true /\ r2 = false /\ ev2 = [] /\ s2 = s1
  /\ (CharacterSystem.unlocked <$> s2 !! c) = Some true
  /\ ev1 ++ ev2
     = [CharacterSystem.characterUnlocked (CharacterSystem.set_unlocked true ch)].
Proof.
  intros Hc Hlocked. unfold CharacterSystem.unlockCharacter at 1.
  rewrite Hc, Hlocked. unfold CharacterSystem.unlockCharacter.
  rewrite lookup_insert_eq. cbn [CharacterSystem.unlocked CharacterSystem.set_unlocked].
  rewrite lookup_insert_eq. done.
Qed.

Lemma unlockCharacter_idempotent_witness :
  exists ch,
    CharacterSystem.init !! "heroine_1" = Some ch
    /\ CharacterSystem.unlocked ch = false
    /\ let '(r1, s1, ev1) :=
         CharacterSystem.unlockCharacter "heroine_1" CharacterSystem.init in
       let '(r2, s2, ev2) := CharacterSystem.unlockCharacter "heroine_1" s1 in
       r2 = false /\ length (ev1 ++ ev2) = 1%nat.
Proof.
  destruct (CharacterSystem.init !! "heroine_1") as [ch|] eqn:Hc;
    [|by vm_compute in Hc].
  assert (Hl : CharacterSystem.unlocked ch = false).
  { vm_compute in Hc. by injection Hc as <-. }
  exists ch. split; [reflexivity|]. split; [exact Hl|].
  pose proof (unlockCharacter_idempotent CharacterSystem.init "heroine_1" ch Hc Hl) as H.
  destruct (CharacterSystem.unlockCharacter "heroine_1" CharacterSystem.init)
    as [[r1 s1] ev1].
  destruct (CharacterSystem.unlockCharacter "heroine_1" s1) as [[r2 s2] ev2].
  destruct H as (_ & Hr2 & _ & _ & _ & Hev). split; [exact Hr2|].
  by rewrite Hev.
Defined.

(** Whatever its state, a second [unlockCharacter] in a row returns
    [false], sends nothing and changes nothing. *)
Lemma unlockCharacter_again (s : gmap string CharacterSystem.CharacterData)
    (c : string) :
  CharacterSystem.unlockCharacter c (CharacterSystem.unlockCharacter c s).1.2
  = (false, (CharacterSystem.unlockCharacter c s).1.2, []).
Proof.
  unfold CharacterSystem.unlockCharacter at 2 3.
  destruct (s !! c) as [ch|] eqn:Hc.
  - destruct (CharacterSystem.unlocked ch) eqn:Hu; cbn [fst snd].
    + unfold CharacterSystem.unlockCharacter. by rewrite Hc, Hu.
    + unfold CharacterSystem.unlockCharacter. by rewrite lookup_insert_eq.
  - cbn [fst snd]. unfold CharacterSystem.unlockCharacter. by rewrite Hc.
Qed.

(** C1, as the code has it. For a character with [maxFavor] 1000 and
    favor 300, the level is 3 (0.25 <= 0.30 < 0.40); one [changeFavor]
    call with +400 returns 400, leaves the favor at 700, where the level
    is 6, and sends one [favorChanged] notification, with delta 400 and
    new value 700. *)
Theorem changeFavor_300_plus_400
    (s : gmap string CharacterSystem.CharacterData) (c : string)
    (ch : CharacterSystem.CharacterData) :
  s !! c = Some ch ->
  CharacterSystem.favor ch = 300 ->
  CharacterSystem.maxFavor ch = 1000 ->
  CharacterSystem.getFavorLevel c s = 3
  /\ let '(r, s', ev) := CharacterSystem.changeFavor c 400 s in
     r = 400
     /\ (CharacterSystem.favor <$> s' !! c) = Some 700
     /\ CharacterSystem.getFavorLevel c s' = 6
     /\ filter (fun n => isFavorChanged n = true) ev
        = [CharacterSystem.favorChanged c (CharacterSystem.name ch) 400 700].
Proof.
  intros Hc Hf Hm. split.
  - unfold CharacterSystem.getFavorLevel. rewrite Hc, Hf, Hm. reflexivity.
  - rewrite (changeFavor_known _ _ _ _ Hc).
    unfold clampFavor. rewrite Hf, Hm.
    unfold CharacterSystem.getFavorLevel.
    rewrite lookup_insert_eq.
    cbn [CharacterSystem.favor CharacterSystem.maxFavor CharacterSystem.set_favor].
    rewrite Hm. done.
Qed.

Lemma changeFavor_300_plus_400_witness :
  exists ch,
    rosterAt300 !! "heroine_1" = Some ch
    /\ CharacterSystem.favor ch = 300
    /\ CharacterSystem.maxFavor ch = 1000
    /\ CharacterSystem.getFavorLevel "heroine_1" rosterAt300 = 3.
Proof.
  destruct (rosterAt300 !! "heroine_1") as [ch|] eqn:Hc; [|by vm_compute in Hc].
  assert (Hf : CharacterSystem.favor ch = 300).
  { vm_compute in Hc. by injection Hc as <-. }
  assert (Hm : CharacterSystem.maxFavor ch = 1000).
  { vm_compute in Hc. by injection Hc as <-. }
  exists ch. split; [reflexivity|]. split; [exact Hf|]. split; [exact Hm|].
  exact (proj1 (changeFavor_300_plus_400 rosterAt300 "heroine_1" ch Hc Hf Hm)).
Defined.

(** C1, as stated, fails on the start-up roster brought to 300: the level
    there is not 4, and the +400 call sends no level-up notification at
    all, so not exactly one. *)
Lemma changeFavor_levelUp_counterexample :
  CharacterSystem.getFavorLevel "heroine_1" rosterAt300 <> 4
  /\ length (filter (fun n => isFavorLevelUp n = true)
               (CharacterSystem.changeFavor "heroine_1" 400 rosterAt300).2)
     <> 1%nat.
Proof. by vm_compute. Qed.

(** The level 6 is reached, yet no call of [changeFavor] ever sends a
    [favorLevelUp] notification. *)
Lemma changeFavor_never_levelUp (s : gmap string CharacterSystem.CharacterData)
    (c : string) (d : Z) :
  filter (fun n => isFavorLevelUp n = true) (CharacterSystem.changeFavor c d s).2 = [].
Proof.
  destruct (s !! c) as [ch|] eqn:Hc.
  - rewrite (changeFavor_known _ _ _ _ Hc). cbn [snd]. by case_bool_decide.
  - by rewrite (changeFavor_absent _ _ _ Hc).
Qed.

(* ===================================================================== *)
(** * Flag store: sparse export, import over defaults *)
(* ===================================================================== *)

Section FlagFacts.
Import FlagManager.

Lemma exportData_lookup (s : t) (k : string) (v : bool) :
  exportData s !! k = Some v <->
  k <> "__proto__"
  /\ exists def, _definitions s !! k = Some def
                 /\ _flags s !! k = Some v
                 /\ v <> defaultValue def.
Proof.
  unfold exportData. rewrite lookup_delete_Some, map_lookup_imap.
  assert (Hiff : _flags s !! k ≫= (fun value =>
                   match _definitions s !! k with
                   | Some def =>
                       if bool_decide (value ≠ defaultValue def) then Some value
                       else None
                   | None => None
                   end) = Some v
                 <-> exists def, _definitions s !! k = Some def
                                 /\ _flags s !! k = Some v
                                 /\ v <> defaultValue def).
  { destruct (_flags s !! k) as [w|] eqn:Hk; cbn.
    - destruct (_definitions s !! k) as [def|] eqn:Hd.
      + case_bool_decide as Hne.
        * split.
          -- intros [= <-]. eauto.
          -- intros (def' & [= <-] & [= <-] & _). done.
        * split; [done|]. intros (def' & [= <-] & [= <-] & Hv). contradiction.
      + split; [done|]. by intros (def' & ? & _).
    - split; [done|]. by intros (def' & _ & ? & _). }
  rewrite Hiff. split; intros [H1 H2]; split; done.
Qed.

Lemma exportData_proto (s : t) : exportData s !! "__proto__" = None.
Proof. unfold exportData. apply lookup_delete_eq. Qed.

Lemma set_definitions (k : string) (v : bool) (s : t) :
  _definitions (set k v s).1 = _definitions s.
Proof. unfold set. by case_bool_decide. Qed.

Lemma get_set (k k' : string) (v : bool) (s : t) :
  get k' (set k v s).1 = if decide (k = k') then v else get k' s.
Proof.
  unfold set, get. case_bool_decide as Hold; cbn [fst _flags].
  - destruct (decide (k = k')) as [->|]; done.
  - destruct (decide (k = k')) as [->|Hne].
    + by rewrite lookup_insert_eq.
    + by rewrite lookup_insert_ne.
Qed.

(** Setting a flag to the value it already reads as changes nothing. *)
Lemma set_same (k : string) (s : t) : set k (get k s) s = (s, []).
Proof. unfold set, get. by rewrite bool_decide_eq_true_2. Qed.

Lemma setEntries_store (entries : list (string * bool)) (s : t)
    (ev : list Notification) :
  (fold_left
     (fun (acc : t * list Notification) (e : string * bool) =>
        let '(s', ev') := set e.1 e.2 acc.1 in (s', acc.2 ++ ev'))
     entries (s, ev)).1
  = setEntriesStore entries s.
Proof.
  revert s ev. induction entries as [|e entries IH]; intros s ev; [done|].
  cbn [fold_left setEntriesStore fst snd].
  destruct (set e.1 e.2 s) as [s' ev']. cbn [fst]. by rewrite IH.
Qed.

Lemma setEntriesStore_definitions (entries : list (string * bool)) (s : t) :
  _definitions (setEntriesStore entries s) = _definitions s.
Proof.
  revert s. induction entries as [|e entries IH]; intros s; [done|].
  cbn [setEntriesStore fold_left]. fold (setEntriesStore entries (set e.1 e.2 s).1).
  by rewrite IH, set_definitions.
Qed.

Lemma get_setEntriesStore (entries : list (string * bool)) (s : t) (k : string) :
  NoDup entries.*1 ->
  get k (setEntriesStore entries s)
  = match (list_to_map entries : gmap string bool) !! k with
    | Some v => v
    | None => get k s
    end.
Proof.
  revert s. induction entries as [|[k0 v0] entries IH]; intros s Hnd; [done|].
  apply NoDup_cons in Hnd as [Hk0 Hnd].
  cbn [setEntriesStore fold_left]. fold (setEntriesStore entries (set k0 v0 s).1).
  rewrite (IH _ Hnd). cbn [list_to_map foldr].
  destruct (decide (k0 = k)) as [->|Hne].
  - rewrite lookup_insert_eq.
    rewrite (not_elem_of_list_to_map_1 _ _ Hk0).
    rewrite get_set. by rewrite decide_True.
  - rewrite lookup_insert_ne by done.
    destruct (list_to_map entries !! k); [done|].
    rewrite get_set. by rewrite decide_False.
Qed.

Lemma reset_flags_lookup (s : t) (k : string) :
  _flags (reset s).1 !! k
  = match _definitions s !! k with
    | Some def => Some (defaultValue def)
    | None => _flags s !! k
    end.
Proof.
  unfold reset. cbn [fst _flags].
  apply (map_fold_weak_ind
           (fun (r : gmap string bool) (m : gmap string FlagDefinition) =>
              r !! k = match m !! k with
                       | Some def => Some (defaultValue def)
                       | None => _flags s !! k
                       end)).
  - by rewrite lookup_empty.
  - intros i def m r Hi IH. destruct (decide (i = k)) as [->|Hne].
    + by rewrite !lookup_insert_eq.
    + by rewrite !lookup_insert_ne.
Qed.

Lemma get_importData (data : gmap string bool) (s : t) (k : string) :
  get k (importData data s).1 = importedValue data s k.
Proof.
  unfold importData, importedValue.
  destruct (reset s) as [s1 ev1] eqn:Er.
  unfold setEntries.
  destruct (fold_left _ (map_to_list data) (s1, [])) as [s2 ev2] eqn:Ef.
  cbn [fst].
  assert (Hs2 : s2 = setEntriesStore (map_to_list data) s1).
  { rewrite <- (setEntries_store (map_to_list data) s1 []). by rewrite Ef. }
  rewrite Hs2, get_setEntriesStore by apply NoDup_fst_map_to_list.
  rewrite list_to_map_to_list.
  destruct (data !! k); [done|].
  assert (Hs1 : s1 = (reset s).1) by (by rewrite Er).
  unfold get. rewrite Hs1, reset_flags_lookup.
  by destruct (_definitions s !! k).
Qed.

(** A fresh store already holds every default. *)
Lemma reset_new : (reset new).1 = new.
Proof. by vm_compute. Qed.

End FlagFacts.

(** What holds of the export for every key other than [__proto__]: it
    has exactly the declared flags whose stored value differs from the
    declared default. The import resets the store and then sets the
    entries of the export, so that a key reads as its imported value,
    else as its declared default. After a flag has been set to its own
    default, the export does not mention it and an import into a fresh
    store reads it as in a store where it was never set; on a store where
    the flag reads as its default, the call changes nothing at all. *)
Lemma flag_export_sparse_on_ordinary_keys :
  (forall (s : FlagManager.t) (k : string) (v : bool),
     k <> "__proto__" ->
     FlagManager.exportData s !! k = Some v <->
     exists def, FlagManager._definitions s !! k = Some def
                 /\ FlagManager._flags s !! k = Some v
                 /\ v <> FlagManager.defaultValue def)
  /\ (forall (data : gmap string bool) (s : FlagManager.t),
        FlagManager.importData data s
        = (let '(s1, ev1) := FlagManager.reset s in
           let '(s2, ev2) := FlagManager.setMultiple data s1 in
           (s2, ev1 ++ ev2))
        /\ forall k, FlagManager.get k (FlagManager.importData data s).1
                     = importedValue data s k)
  /\ (forall (s : FlagManager.t) (k : string) (def : FlagManager.FlagDefinition),
        FlagManager._definitions s !! k = Some def ->
        let s' := (FlagManager.set k (FlagManager.defaultValue def) s).1 in
        FlagManager.exportData s' !! k = None
        /\ FlagManager.get k (FlagManager.importData (FlagManager.exportData s')
                                FlagManager.new).1
           = FlagManager.get k FlagManager.new
        /\ (FlagManager.get k s = FlagManager.defaultValue def ->
            FlagManager.set k (FlagManager.defaultValue def) s = (s, []))).
Proof.
  split; [|split].
  - intros s k v Hk. rewrite exportData_lookup. split; [by intros [_ ?]|done].
  - intros data s. split; [reflexivity|]. intros k. apply get_importData.
  - intros s k def Hdef s'.
    assert (Hnone : FlagManager.exportData s' !! k = None).
    { destruct (FlagManager.exportData s' !! k) as [v|] eqn:E; [|done].
      apply exportData_lookup in E as (_ & def' & Hd' & Hf & Hv).
      subst s'. rewrite set_definitions, Hdef in Hd'. injection Hd' as <-.
      pose proof (get_set k k (FlagManager.defaultValue def) s) as Hg.
      rewrite decide_True in Hg by done.
      unfold FlagManager.get in Hg. rewrite Hf in Hg. cbn in Hg. contradiction. }
    split; [exact Hnone|]. split.
    + rewrite get_importData. unfold importedValue. rewrite Hnone.
      destruct (FlagManager._definitions FlagManager.new !! k) as [d|] eqn:Hd; [|done].
      pose proof (reset_flags_lookup FlagManager.new k) as Hr.
      rewrite reset_new, Hd in Hr. unfold FlagManager.get. by rewrite Hr.
    + intros Hget. rewrite <- Hget. apply set_same.
Qed.

(** C7. The export is not exactly the declared flags that differ from
    their default: it never holds the key [__proto__]. A flag declared
    under that name with default [false] and set to [true] is declared,
    reads [true] and differs from its default, yet the export has no
    entry for it, and an import of the export into a store with the same
    definitions reads the flag as [false]. *)
Theorem flag_export_drops_proto_key :
  (forall s : FlagManager.t, FlagManager.exportData s !! "__proto__" = None)
  /\ (let s0 := FlagManager.addFlag "__proto__" false "" [] FlagManager.new in
      let s := (FlagManager.set "__proto__" true s0).1 in
      (exists def, FlagManager._definitions s !! "__proto__" = Some def
                   /\ FlagManager.defaultValue def = false)
      /\ FlagManager._flags s !! "__proto__" = Some true
      /\ FlagManager.get "__proto__" s = true
      /\ FlagManager.exportData s = ∅
      /\ FlagManager.get "__proto__"
            (FlagManager.importData (FlagManager.exportData s) s0).1 = false).
Proof.
  split; [exact exportData_proto|]. cbn zeta.
  split; [eexists; split; [by vm_compute|reflexivity]|].
  split; [by vm_compute|]. split; [by vm_compute|].
  split; [by vm_compute|by vm_compute].
Qed.

(* ===================================================================== *)
(** * Persistence: the busy guard and what a snapshot restores *)
(* ===================================================================== *)

(** C8. While [_isSaving] is set, a call of [save], for any slot, any
    overrides and any subscribers, returns [false] and leaves the whole
    game as it was: nothing is written to the storage, no field of any
    manager changes and nothing is notified. *)
Theorem save_rejected_while_saving
    (g : Game) (slot : Z) (data : option Save.Overrides) (now : Z)
    (subscribers : Z -> Save.SaveData -> M unit) :
  Save._isSaving (saveLoad g) = true ->
  SaveLoadSystem.save slot data now subscribers g = Ok false g.
Proof.
  intros Hbusy. unfold SaveLoadSystem.save, bind, gets. by rewrite Hbusy.
Qed.

Lemma save_rejected_while_saving_witness :
  Save._isSaving (saveLoad gameWhileSaving) = true
  /\ SaveLoadSystem.save 0 None 1000 (fun _ _ => ret tt) gameWhileSaving
     = Ok false gameWhileSaving.
Proof.
  split; [reflexivity|].
  apply (save_rejected_while_saving gameWhileSaving 0 None 1000). reflexivity.
Defined.

(** The guard at work: a subscriber of ['saveSuccess'] that saves the same
    slot again runs while the first save is in progress. The first save
    returns [true] (so the second returned [false]), the slot holds the
    first save's snapshot, one notification was sent, and the guard is
    released. *)
Lemma save_from_subscriber_is_rejected :
  match SaveLoadSystem.save 0 None 1000 (saveAgain 2000)
          (newGame Story.storyConfig) with
  | Ok r g =>
      r = true
      /\ (Save.saveTime <$> localStorage g !! SaveLoadSystem.storageKey 0) = Some 1000
      /\ length (emitted g) = 1%nat
      /\ Save._isSaving (saveLoad g) = false
  | _ => False
  end.
Proof. by vm_compute. Qed.

Section RosterImport.
Import CharacterSystem.

Lemma importData_lookup (data : gmap string CharacterSave)
    (s : gmap string CharacterData) (c : string) :
  importData data s !! c
  = match s !! c with
    | Some ch =>
        Some (match data !! c with
              | Some charData => importCharacter charData ch
              | None => ch
              end)
    | None => None
    end.
Proof.
  unfold importData.
  apply (map_fold_weak_ind
           (fun (r : gmap string CharacterData) (m : gmap string CharacterSave) =>
              r !! c = match s !! c with
                       | Some ch =>
                           Some (match m !! c with
                                 | Some charData => importCharacter charData ch
                                 | None => ch
                                 end)
                       | None => None
                       end)).
  - rewrite lookup_empty. by destruct (s !! c).
  - intros i x m r Hi IH. destruct (decide (i = c)) as [->|Hne].
    + rewrite Hi in IH. rewrite lookup_insert_eq.
      destruct (s !! c) as [ch|]; rewrite IH; [|done].
      by rewrite lookup_insert_eq.
    + rewrite lookup_insert_ne by done.
      destruct (r !! i); [|done]. by rewrite lookup_insert_ne.
Qed.

(** What a snapshot does restore: imported into a roster with the same
    cast, the export of a roster gives that roster back, favor, unlock
    state, endings and events of every character. *)
Lemma importData_exportData (s s' : gmap string CharacterData) :
  sameCast s s' -> importData (exportData s) s' = s.
Proof.
  intros Hcast. apply map_eq. intros c. rewrite importData_lookup.
  unfold exportData. rewrite lookup_fmap. specialize (Hcast c).
  destruct (s !! c) as [ch|], (s' !! c) as [ch'|]; cbn; try done.
  destruct Hcast as (Hid & Hname & Htitle & Hsprites & Hmax).
  destruct ch, ch'. cbn in *. by subst.
Qed.

End RosterImport.

(** [applySaveData] returns [true] and touches the roster, the play-time
    origin and the log only: the flags and the story cursor stay as they
    were before the call. *)
Lemma applySaveData_scope (data : Save.SaveData) (now : Z) (g : Game) :
  exists g',
    SaveLoadSystem.applySaveData data now g = Ok true g'
    /\ flags g' = flags g
    /\ story g' = story g
    /\ stateMachine g' = stateMachine g
    /\ characters g'
       = CharacterSystem.importData (Save.characters data) (characters g).
Proof. eexists. by split. Qed.

(** A snapshot never holds a flag. *)
Lemma collectSaveData_flags (slot : Z) (extraData : option Save.Overrides)
    (now : Z) (g : Game) :
  Save.flags (SaveLoadSystem.collectSaveData slot extraData now g) = ∅.
Proof. reflexivity. Qed.

(** Play time only grows over a restore: once the snapshot has been
    applied at [now], the play time computed at any later time is at least
    the snapshot's. *)
Lemma playTime_after_applySaveData (data : Save.SaveData) (now now' : Z) (g : Game) :
  0 <= Save.playTime (Save.player data) ->
  Save.playTime (Save.player data) * 1000 < now ->
  now <= now' ->
  match SaveLoadSystem.applySaveData data now g with
  | Ok _ g' =>
      Save.playTime (Save.player data)
      <= SaveLoadSystem.calculatePlayTime now' (saveLoad g')
  | _ => False
  end.
Proof.
  intros Hpt Hnow Hlater. cbn.
  unfold SaveLoadSystem.calculatePlayTime. cbn.
  destruct (Z.leb_spec (now - Save.playTime (Save.player data) * 1000) 0); [lia|].
  apply Z.div_le_lower_bound; lia.
Qed.

(** C2, on the code. The flag [met_yuqing] is [true] when the snapshot is
    taken; the snapshot holds no flag; applied after the flags have gone
    back to their defaults, it brings the roster back but leaves the flag
    [false]. The load path of [GameManager], which does import the
    snapshot's flags, leaves it [false] as well. *)
Theorem applySaveData_loses_flags :
  FlagManager.get "met_yuqing" (flags gameWithFlag) = true
  /\ Save.flags snapshotWithFlag = ∅
  /\ match SaveLoadSystem.applySaveData snapshotWithFlag 2000 gameAfterFlagReset with
     | Ok r g =>
         r = true
         /\ characters g = characters gameWithFlag
         /\ FlagManager.get "met_yuqing" (flags g) = false
     | _ => False
     end
  /\ match GameManager.applySaveData snapshotWithFlag gameAfterFlagReset with
     | Ok _ g => FlagManager.get "met_yuqing" (flags g) = false
     | _ => False
     end.
Proof. by vm_compute. Qed.

(* ===================================================================== *)
(** * Story traversal and the order of a chapter's node table *)
(* ===================================================================== *)

Section NodeTables.

(** On a table with distinct keys, [Story.lookupNode] finds exactly the
    entries of the table. *)
Lemma lookupNode_Some (nodes : list (string * Dialog.StoryNode))
    (nodeId : string) (n : Dialog.StoryNode) :
  NoDup nodes.*1 ->
  Story.lookupNode nodeId nodes = Some n <-> (nodeId, n) ∈ nodes.
Proof.
  induction nodes as [|[k m] nodes IH]; intros Hnd; cbn.
  - split; [done|]. intros H. by apply elem_of_nil in H.
  - apply NoDup_cons in Hnd as [Hk Hnd]. case_bool_decide as Hkey.
    + subst k. split.
      * intros [= ->]. apply elem_of_cons. by left.
      * intros [[= ->]|Hin]%elem_of_cons; [done|].
        exfalso. apply Hk. apply list_elem_of_fmap. by exists (nodeId, n).
    + rewrite (IH Hnd). split.
      * intros Hin. apply elem_of_cons. by right.
      * intros [[= -> ->]|Hin]%elem_of_cons; [done|exact Hin].
Qed.

Lemma lookupNode_permutation (nodes nodes' : list (string * Dialog.StoryNode))
    (nodeId : string) :
  NoDup nodes.*1 -> nodes ≡ₚ nodes' ->
  Story.lookupNode nodeId nodes' = Story.lookupNode nodeId nodes.
Proof.
  intros Hnd Hperm.
  assert (Hnd' : NoDup nodes'.*1).
  { by rewrite <- Hperm. }
  destruct (Story.lookupNode nodeId nodes) as [n|] eqn:E.
  - apply (lookupNode_Some _ _ _ Hnd) in E.
    apply (lookupNode_Some _ _ _ Hnd'). by rewrite <- Hperm.
  - destruct (Story.lookupNode nodeId nodes') as [n'|] eqn:E'; [|done].
    apply (lookupNode_Some _ _ _ Hnd') in E'. rewrite <- Hperm in E'.
    apply (lookupNode_Some _ _ _ Hnd) in E'. congruence.
Qed.

Lemma reverseTail_keepsEntries : keepsEntries reverseTail.
Proof.
  intros nodes nodeId. unfold reverseTail.
  destruct nodes as [|first rest]; [done|]. case_decide as Hnd; [|done].
  apply (lookupNode_permutation _ _ _ Hnd).
  constructor. symmetry. apply reverse_Permutation.
Qed.

Lemma reverseTail_keepsFirstKey : keepsFirstKey reverseTail.
Proof.
  intros nodes. unfold reverseTail.
  destruct nodes as [|first rest]; [done|]. by case_decide.
Qed.

End NodeTables.

Section Reordering.
Variable reorder : list (string * Dialog.StoryNode) -> list (string * Dialog.StoryNode).

Local Abbreviation sim := (simulates reorder).

Lemma sim_ret {A} (a : A) : sim (ret a) (ret a).
Proof. by intros g. Qed.

Lemma sim_bind {A B} (m' m : M A) (k' k : A -> M B) :
  sim m' m -> (forall a, sim (k' a) (k a)) -> sim (bind m' k') (bind m k).
Proof.
  intros Hm Hk g. unfold bind. rewrite Hm.
  destruct (m g) as [a g1|g1|]; cbn; [apply Hk|done|done].
Qed.

Lemma sim_gets {A} (f : Game -> A) :
  (forall g, f (reorderGame reorder g) = f g) -> sim (gets f) (gets f).
Proof. intros Hf g. unfold gets. by rewrite Hf. Qed.

Lemma sim_modify (f' f : Game -> Game) :
  (forall g, f' (reorderGame reorder g) = reorderGame reorder (f g)) ->
  sim (modify f') (modify f).
Proof. intros Hf g. unfold modify. by rewrite Hf. Qed.

Lemma sim_throw {A} : sim (@throwTypeError A) throwTypeError.
Proof. by intros g. Qed.

Lemma sim_outOfFuel {A} : sim (@outOfFuel A) outOfFuel.
Proof. by intros g. Qed.

Lemma sim_emit (n : Emitted) : sim (emit n) (emit n).
Proof. by apply sim_modify. Qed.

Lemma sim_forEach {A} (l : list A) (body' body : A -> M unit) :
  (forall x, sim (body' x) (body x)) -> sim (forEach l body') (forEach l body).
Proof.
  intros Hbody. induction l as [|x l IH]; cbn [forEach].
  - apply sim_ret.
  - apply sim_bind; [apply Hbody|]. intros _. exact IH.
Qed.

Lemma sim_changeState (st : GameStateMachine.GameState) :
  sim (changeState st) (changeState st).
Proof.
  intros g. unfold changeState. cbn.
  by destruct (GameStateMachine.changeState st JsUndefined (stateMachine g))
    as [[r m] ev].
Qed.

Lemma sim_setDialogState (st : GameStateMachine.DialogState) :
  sim (setDialogState st) (setDialogState st).
Proof. by intros g. Qed.

Lemma sim_changeFavor (c : string) (d : Z) : sim (changeFavor c d) (changeFavor c d).
Proof.
  intros g. unfold changeFavor. cbn.
  by destruct (CharacterSystem.changeFavor c d (characters g)) as [[r s] ev].
Qed.

Lemma sim_modifyDialog (f : Dialog.t -> Dialog.t) :
  sim (DialogSystem.modifyDialog f) (DialogSystem.modifyDialog f).
Proof. by apply sim_modify. Qed.

Lemma sim_modifyStory (f' f : Story.t -> Story.t) :
  (forall s, f' (reorderStory reorder s) = reorderStory reorder (f s)) ->
  sim (StoryManager.modifyStory f') (StoryManager.modifyStory f).
Proof.
  intros Hf. apply sim_modify. intros g.
  unfold reorderGame. cbn. by rewrite Hf.
Qed.

Lemma sim_gets_story {A} (k' k : Story.t -> M A) :
  (forall s, sim (k' (reorderStory reorder s)) (k s)) ->
  sim (bind (gets story) k') (bind (gets story) k).
Proof. intros Hk g. unfold bind, gets. apply Hk. Qed.

(** ** The dialog never reads the story *)

Lemma sim_dialog_applyEffects (effects : list Dialog.Effect) :
  sim (DialogSystem.applyEffects effects) (DialogSystem.applyEffects effects).
Proof.
  apply sim_forEach. intros effect.
  destruct (Dialog.effect_type effect); apply sim_emit || apply sim_ret.
Qed.

Lemma sim_playDialog (node : Dialog.StoryNode) :
  sim (DialogSystem.playDialog node) (DialogSystem.playDialog node).
Proof.
  unfold DialogSystem.playDialog.
  repeat (apply sim_bind; [|intros ?]);
    auto using sim_changeState, sim_setDialogState, sim_modifyDialog.
Qed.

Lemma sim_playChoice (node : Dialog.StoryNode) :
  sim (DialogSystem.playChoice node) (DialogSystem.playChoice node).
Proof.
  unfold DialogSystem.playChoice.
  repeat (apply sim_bind; [|intros ?]);
    auto using sim_changeState, sim_modifyDialog, sim_emit.
Qed.

Lemma sim_playEnding : sim DialogSystem.playEnding DialogSystem.playEnding.
Proof.
  unfold DialogSystem.playEnding.
  apply sim_bind; [apply sim_changeState|]. intros _. apply sim_emit.
Qed.

Lemma sim_dialog_next (cb' cb : string -> M unit) :
  (forall nodeId, sim (cb' nodeId) (cb nodeId)) ->
  sim (DialogSystem.next cb') (DialogSystem.next cb).
Proof.
  intros Hcb. unfold DialogSystem.next.
  apply sim_bind; [by apply sim_gets|]. intros d.
  destruct (Dialog._isTyping d); [apply sim_modifyDialog|].
  destruct (Dialog._currentNode d) as [n|]; [|apply sim_throw].
  destruct (truthyString (Dialog.node_next n)) as [nextId|]; [|apply sim_playEnding].
  apply sim_bind; [apply sim_emit|]. intros _. apply Hcb.
Qed.

Lemma sim_dialog_playNode (cb' cb : string -> M unit) (node : Dialog.StoryNode) :
  (forall nodeId, sim (cb' nodeId) (cb nodeId)) ->
  sim (DialogSystem.playNode cb' node) (DialogSystem.playNode cb node).
Proof.
  intros Hcb. unfold DialogSystem.playNode.
  apply sim_bind; [apply sim_modifyDialog|]. intros _.
  apply sim_bind.
  { destruct (Dialog.node_effects node);
      [apply sim_dialog_applyEffects|apply sim_ret]. }
  intros _. apply sim_bind.
  { destruct (truthyString (Dialog.node_background node));
      [apply sim_emit|apply sim_ret]. }
  intros _. apply sim_bind.
  { destruct (Dialog.node_character node); apply sim_emit. }
  intros _.
  destruct (Dialog.node_type node);
    auto using sim_playDialog, sim_playChoice, sim_playEnding, sim_dialog_next.
Qed.

Lemma sim_dialog_selectChoice (cb' cb : string -> M unit) (choiceId : string) :
  (forall nodeId, sim (cb' nodeId) (cb nodeId)) ->
  sim (DialogSystem.selectChoice cb' choiceId)
      (DialogSystem.selectChoice cb choiceId).
Proof.
  intros Hcb. unfold DialogSystem.selectChoice.
  apply sim_bind; [by apply sim_gets|]. intros d.
  destruct (Dialog._currentNode d) as [n|]; [|apply sim_throw].
  destruct (find _ _) as [choice|]; [|apply sim_ret].
  apply sim_bind.
  { destruct (Dialog.choice_effects choice);
      [apply sim_dialog_applyEffects|apply sim_ret]. }
  intros _. apply sim_bind.
  { destruct (Dialog.choice_favorChange choice) as [entries|]; [|apply sim_ret].
    apply sim_forEach. intros [charId delta]. apply sim_emit. }
  intros _. case_bool_decide; [apply sim_ret|].
  apply sim_bind; [apply sim_emit|]. intros _. apply Hcb.
Qed.

(** ** The story reads a node table by key, and its first key *)

Lemma find_reorderChapter (chapterId : string) (config : list Story.Chapter) :
  find (fun c => bool_decide (Story.chapter_id c = chapterId))
       (map (reorderChapter reorder) config)
  = reorderChapter reorder
      <$> find (fun c => bool_decide (Story.chapter_id c = chapterId)) config.
Proof.
  induction config as [|c config IH]; [done|]. cbn.
  by destruct (bool_decide (Story.chapter_id c = chapterId)).
Qed.

Lemma checkCondition_reorderStory (condition : Story.UnlockCondition) (s : Story.t) :
  StoryManager.checkCondition condition (reorderStory reorder s)
  = StoryManager.checkCondition condition s.
Proof. reflexivity. Qed.

Lemma list_find_reorderChapter (chapterId : string) (config : list Story.Chapter) :
  fst <$> list_find (fun c => Story.chapter_id c = chapterId)
            (map (reorderChapter reorder) config)
  = fst <$> list_find (fun c => Story.chapter_id c = chapterId) config.
Proof.
  induction config as [|c config IH]; [done|]. cbn.
  case_decide; [done|].
  destruct (list_find _ (map _ config)) as [[i c']|],
           (list_find _ config) as [[j c'']|]; cbn in *; congruence.
Qed.

Lemma currentIndex_reorderStory (s : Story.t) :
  StoryManager.currentIndex (reorderStory reorder s) = StoryManager.currentIndex s.
Proof.
  unfold StoryManager.currentIndex. cbn.
  destruct (Story._currentChapter s) as [current|]; [|done]. cbn.
  pose proof (list_find_reorderChapter (Story.chapter_id current) (Story._config s))
    as H.
  destruct (list_find _ (map _ (Story._config s))) as [[i c']|],
           (list_find _ (Story._config s)) as [[j c'']|]; cbn in *; congruence.
Qed.

Hypothesis reorder_keepsEntries : keepsEntries reorder.

Lemma sim_story_playNode (fuel : nat) (nodeId : string) :
  sim (StoryManager.playNode fuel nodeId) (StoryManager.playNode fuel nodeId).
Proof.
  revert nodeId. induction fuel as [|fuel IH]; intros nodeId.
  - apply sim_outOfFuel.
  - cbn [StoryManager.playNode]. apply sim_gets_story. intros s.
    cbn [reorderStory Story._currentChapter].
    destruct (Story._currentChapter s) as [current|]; [|apply sim_ret].
    cbn [fmap option_fmap option_map reorderChapter Story.chapter_nodes].
    rewrite reorder_keepsEntries.
    destruct (Story.lookupNode nodeId (Story.chapter_nodes current)) as [node|];
      [|apply sim_ret].
    apply sim_bind; [by apply sim_modifyStory|]. intros _.
    apply sim_bind; [apply sim_modifyDialog|]. intros _.
    apply sim_bind.
    { apply sim_dialog_playNode. intros nextNodeId.
      apply sim_bind; [apply IH|]. intros _. apply sim_ret. }
    intros _. apply sim_bind; [apply sim_emit|]. intros _. apply sim_ret.
Qed.

Lemma sim_dialogCallbacks (fuel : nat) (nodeId : string) :
  sim (StoryManager.dialogCallbacks fuel nodeId)
      (StoryManager.dialogCallbacks fuel nodeId).
Proof.
  unfold StoryManager.dialogCallbacks.
  apply sim_bind; [by apply sim_gets|]. intros d.
  destruct (Dialog.storySubscribed d); [|apply sim_ret].
  apply sim_bind; [apply sim_story_playNode|]. intros _. apply sim_ret.
Qed.

Lemma sim_story_applyEffects (effects : list Dialog.Effect) :
  sim (StoryManager.applyEffects effects) (StoryManager.applyEffects effects).
Proof.
  apply sim_forEach. intros effect.
  destruct (Dialog.effect_type effect);
    (by apply sim_modifyStory) || apply sim_ret.
Qed.

Lemma sim_story_selectChoice (fuel : nat) (choice : Dialog.ChoiceData) :
  sim (StoryManager.selectChoice fuel choice)
      (StoryManager.selectChoice fuel choice).
Proof.
  unfold StoryManager.selectChoice.
  apply sim_bind; [by apply sim_modifyStory|]. intros _.
  apply sim_bind.
  { destruct (Dialog.choice_effects choice);
      [apply sim_story_applyEffects|apply sim_ret]. }
  intros _. apply sim_bind.
  { destruct (Dialog.choice_favorChange choice) as [entries|]; [|apply sim_ret].
    apply sim_forEach. intros [charId delta].
    apply sim_bind; [apply sim_changeFavor|]. intros _. apply sim_ret. }
  intros _. apply sim_story_playNode.
Qed.

Hypothesis reorder_keepsFirstKey : keepsFirstKey reorder.

Lemma sim_playChapter (fuel : nat) (chapterId : string) :
  sim (StoryManager.playChapter fuel chapterId)
      (StoryManager.playChapter fuel chapterId).
Proof.
  unfold StoryManager.playChapter. apply sim_gets_story. intros s.
  cbn [reorderStory Story._config]. rewrite find_reorderChapter.
  destruct (find _ (Story._config s)) as [chapter|]; cbn [fmap option_fmap option_map];
    [|apply sim_ret].
  cbn [reorderChapter Story.chapter_unlockCondition Story.chapter_id].
  destruct (match Story.chapter_unlockCondition chapter with
            | Some condition => negb (StoryManager.checkCondition condition s)
            | None => false
            end) eqn:Hlocked.
  - assert (Hlocked' :
      match Story.chapter_unlockCondition chapter with
      | Some condition =>
          negb (StoryManager.checkCondition condition (reorderStory reorder s))
      | None => false
      end = true).
    { destruct (Story.chapter_unlockCondition chapter); [|done].
      by rewrite checkCondition_reorderStory. }
    rewrite Hlocked'.
    apply sim_bind; [apply sim_emit|]. intros _. apply sim_ret.
  - assert (Hlocked' :
      match Story.chapter_unlockCondition chapter with
      | Some condition =>
          negb (StoryManager.checkCondition condition (reorderStory reorder s))
      | None => false
      end = false).
    { destruct (Story.chapter_unlockCondition chapter); [|done].
      by rewrite checkCondition_reorderStory. }
    rewrite Hlocked'.
    apply sim_bind; [by apply sim_modifyStory|]. intros _.
    apply sim_bind.
    { unfold StoryManager.firstNodeId. cbn [Story.chapter_nodes reorderChapter].
      rewrite reorder_keepsFirstKey.
      destruct (truthyString _) as [first|]; [|apply sim_ret].
      apply sim_bind; [apply sim_story_playNode|]. intros _. apply sim_ret. }
    intros _. apply sim_bind; [apply sim_emit|]. intros _. apply sim_ret.
Qed.

Lemma sim_endChapter (fuel : nat) :
  sim (StoryManager.endChapter fuel) (StoryManager.endChapter fuel).
Proof.
  unfold StoryManager.endChapter. apply sim_gets_story. intros s.
  rewrite currentIndex_reorderStory.
  cbn [reorderStory Story._config]. rewrite length_map.
  destruct (_ <? _).
  - rewrite list_lookup_fmap.
    destruct (Story._config s !! _) as [nextChapter|];
      cbn [fmap option_fmap option_map reorderChapter Story.chapter_id];
      [apply sim_playChapter|apply sim_throw].
  - apply sim_bind; [apply sim_changeState|]. intros _.
    apply sim_bind; [apply sim_emit|]. intros _. apply sim_ret.
Qed.

Lemma sim_story_next (fuel : nat) :
  sim (StoryManager.next fuel) (StoryManager.next fuel).
Proof.
  unfold StoryManager.next. apply sim_gets_story. intros s.
  cbn [reorderStory Story._currentChapter Story._currentNodeId].
  destruct (Story._currentChapter s) as [current|];
    cbn [fmap option_fmap option_map reorderChapter Story.chapter_nodes];
    [|apply sim_ret].
  rewrite reorder_keepsEntries.
  destruct (_ ≫= _); [apply sim_story_playNode|apply sim_endChapter].
Qed.

Lemma sim_jumpTo (fuel : nat) (chapterId nodeId : string) :
  sim (StoryManager.jumpTo fuel chapterId nodeId)
      (StoryManager.jumpTo fuel chapterId nodeId).
Proof.
  unfold StoryManager.jumpTo. apply sim_gets_story. intros s.
  assert (Hid : Story.chapter_id <$> Story._currentChapter (reorderStory reorder s)
                = Story.chapter_id <$> Story._currentChapter s).
  { cbn. by destruct (Story._currentChapter s). }
  rewrite Hid. apply sim_bind; [|intros _; apply sim_story_playNode].
  case_bool_decide; [apply sim_ret|].
  apply sim_bind; [apply sim_playChapter|]. intros _. apply sim_ret.
Qed.

End Reordering.

(** C4, as the code has it. Let the node tables of all chapters be
    re-enumerated in a way that keeps what every key maps to. Then
    [playNode] and [selectChoice] do the same on the re-enumerated game
    as on the game: same returned value, same notifications, same
    current node, same mode state. If the re-enumeration also keeps the
    first key of every table, the same holds for [playChapter], which
    enters a chapter at the first key of its table, and for the methods
    that may start a chapter: [next], [jumpTo] and the dialog's advance
    through the registered callbacks. *)
Theorem traversal_depends_on_links_and_first_key
    (reorder : list (string * Dialog.StoryNode) -> list (string * Dialog.StoryNode)) :
  keepsEntries reorder ->
  (forall fuel nodeId,
     simulates reorder (StoryManager.playNode fuel nodeId)
                       (StoryManager.playNode fuel nodeId))
  /\ (forall fuel choice,
        simulates reorder (StoryManager.selectChoice fuel choice)
                          (StoryManager.selectChoice fuel choice))
  /\ (forall fuel,
        simulates reorder (DialogSystem.next (StoryManager.dialogCallbacks fuel))
                          (DialogSystem.next (StoryManager.dialogCallbacks fuel)))
  /\ (keepsFirstKey reorder ->
      (forall fuel chapterId,
         simulates reorder (StoryManager.playChapter fuel chapterId)
                           (StoryManager.playChapter fuel chapterId))
      /\ (forall fuel,
            simulates reorder (StoryManager.next fuel) (StoryManager.next fuel))
      /\ (forall fuel chapterId nodeId,
            simulates reorder (StoryManager.jumpTo fuel chapterId nodeId)
                              (StoryManager.jumpTo fuel chapterId nodeId))).
Proof.
  intros Hentries. split; [|split; [|split]].
  - intros fuel nodeId. by apply sim_story_playNode.
  - intros fuel choice. by apply sim_story_selectChoice.
  - intros fuel. apply sim_dialog_next. intros nodeId.
    by apply sim_dialogCallbacks.
  - intros Hfirst. split; [|split].
    + intros fuel chapterId. by apply sim_playChapter.
    + intros fuel. by apply sim_story_next.
    + intros fuel chapterId nodeId. by apply sim_jumpTo.
Qed.

(** The chapter [a -> c -> b] with its table enumerated [a, b, c] and
    [a, c, b]: [playChapter] enters at [a], an event, and comes to rest
    on [c] in both. *)
Lemma traversal_depends_on_links_and_first_key_witness :
  let g := newGame threeNodeStory in
  keepsEntries reverseTail
  /\ keepsFirstKey reverseTail
  /\ Story._config (story (reorderGame reverseTail g)) <> Story._config (story g)
  /\ StoryManager.playChapter 5 "ch" (reorderGame reverseTail g)
     = reorderRes reverseTail (StoryManager.playChapter 5 "ch" g)
  /\ nodeAfter (StoryManager.playChapter 5 "ch" (reorderGame reverseTail g))
     = Some "c".
Proof.
  intros g.
  split; [exact reverseTail_keepsEntries|].
  split; [exact reverseTail_keepsFirstKey|].
  split; [by vm_compute|].
  split; [|by vm_compute].
  apply (proj1 (proj2 (proj2 (proj2
           (traversal_depends_on_links_and_first_key reverseTail
              reverseTail_keepsEntries))) reverseTail_keepsFirstKey)).
Defined.

(** C4, as stated, fails: with the node table of [ch00] enumerated in the
    opposite order (the same entries under the same keys), [playChapter]
    plays [ch00_01] where it played [ch00_start]. *)
Lemma playChapter_key_order_counterexample :
  let g := newGame Story.storyConfig in
  Forall2 (fun c c' => Story.chapter_nodes c ≡ₚ Story.chapter_nodes c'
                       /\ forall nodeId,
                            Story.lookupNode nodeId (Story.chapter_nodes c')
                            = Story.lookupNode nodeId (Story.chapter_nodes c))
          (Story._config (story g))
          (Story._config (story (reorderGame reverseAll g)))
  /\ nodeAfter (StoryManager.playChapter 5 "ch00" g) = Some "ch00_start"
  /\ nodeAfter (StoryManager.playChapter 5 "ch00" (reorderGame reverseAll g))
     = Some "ch00_01".
Proof.
  intros g. split; [|split; by vm_compute].
  constructor; [|constructor]. split.
  - symmetry. apply (reverse_Permutation (Story.chapter_nodes _)).
  - intros nodeId. apply lookupNode_permutation.
    + apply (bool_decide_unpack _). by vm_compute.
    + symmetry. apply (reverse_Permutation (Story.chapter_nodes _)).
Qed.

(* ===================================================================== *)
(** * Mode state machine: going back, and the states never entered *)
(* ===================================================================== *)

Section StateMachineHistory.
Import GameStateMachine.

Lemma last_push {A} (l : list A) (x : A) : last (l ++ [x]) = Some x.
Proof. apply last_snoc. Qed.

Lemma pushStates_cases (from to : GameState) :
  (from, to) ∈ pushStates ->
  (from = MAIN_MENU /\ to = PLAYING) \/ (from = PLAYING /\ to = DIALOG)
  \/ (from = PLAYING /\ to = CHOICE) \/ (from = PLAYING /\ to = PAUSE)
  \/ (from = PLAYING /\ to = INVENTORY) \/ (from = PLAYING /\ to = CHARACTER)
  \/ (from = PAUSE /\ to = SAVE_LOAD) \/ (from = PAUSE /\ to = SETTINGS).
Proof.
  unfold pushStates. intros H.
  repeat (apply elem_of_cons in H as [[= -> ->]|H]; [tauto|]).
  by apply elem_of_nil in H.
Qed.

Lemma changeState_currentState (newState : GameState) (data : JsValue) (m : t) :
  _currentState (changeState newState data m).1.2 = _currentState m
  \/ (_currentState (changeState newState data m).1.2 = newState
      /\ newState ∈ STATE_TRANSITIONS (_currentState m)).
Proof.
  unfold changeState. destruct (canTransition newState m) eqn:E;
    cbn [negb fst snd _currentState]; [|left; reflexivity].
  right. split; [done|]. by apply includes_spec.
Qed.

Lemma changeState_stack (newState : GameState) (data : JsValue) (m : t) :
  _stateStack (changeState newState data m).1.2 = _stateStack m
  \/ (_stateStack (changeState newState data m).1.2
        = _stateStack m ++ [_currentState m]
      /\ (_currentState m, newState) ∈ pushStates).
Proof.
  unfold changeState. destruct (canTransition newState m);
    cbn [negb fst snd _stateStack]; [|left; reflexivity].
  destruct (shouldPushToStack (_currentState m) newState) eqn:E; [|left; reflexivity].
  right. split; [done|].
  unfold shouldPushToStack in E. apply existsb_exists in E as ([f t'] & Hin & Hft).
  apply andb_true_iff in Hft as [Hf Ht].
  apply bool_decide_eq_true in Hf, Ht. subst. by apply list_elem_of_In.
Qed.

Lemma no_way_into_MAP_ACHIEVEMENT (s target : GameState) :
  target ∈ STATE_TRANSITIONS s -> target <> MAP /\ target <> ACHIEVEMENT.
Proof.
  intros H. destruct s; cbn in H;
    repeat (apply elem_of_cons in H as [->|H]; [done|]);
    by apply elem_of_nil in H.
Qed.

Lemma changeState_machineInvariant (newState : GameState) (data : JsValue) (m : t) :
  machineInvariant m -> machineInvariant (changeState newState data m).1.2.
Proof.
  intros (Hmap & Hach & Hstack). unfold machineInvariant.
  destruct (changeState_currentState newState data m) as [->|[-> Hin]];
  destruct (changeState_stack newState data m) as [->|[-> Hpush]].
  - done.
  - split; [done|]. split; [done|]. apply Forall_app. split; [done|].
    apply Forall_singleton. apply pushStates_cases in Hpush.
    destruct Hpush as [[-> _]|[[-> _]|[[-> _]|[[-> _]|[[-> _]|[[-> _]|[[-> _]|[-> _]]]]]]]];
      set_solver.
  - apply no_way_into_MAP_ACHIEVEMENT in Hin as [? ?]. done.
  - apply no_way_into_MAP_ACHIEVEMENT in Hin as [? ?].
    split; [done|]. split; [done|]. apply Forall_app. split; [done|].
    apply Forall_singleton. apply pushStates_cases in Hpush.
    destruct Hpush as [[-> _]|[[-> _]|[[-> _]|[[-> _]|[[-> _]|[[-> _]|[[-> _]|[-> _]]]]]]]];
      set_solver.
Qed.

Lemma goBack_machineInvariant (data : JsValue) (m : t) :
  machineInvariant m -> machineInvariant (goBack data m).1.2.
Proof.
  intros Hm. unfold goBack.
  destruct (last (_stateStack m)) as [previous|] eqn:E; [|done].
  apply changeState_machineInvariant.
  destruct Hm as (Hmap & Hach & Hstack). split; [done|]. split; [done|]. cbn.
  destruct (_stateStack m) as [|x l] using rev_ind; [done|].
  rewrite removelast_last. apply Forall_app in Hstack. tauto.
Qed.

Lemma goBack_push (cur prev : GameState) (menu : MenuState) (dlg : DialogState)
    (stack : list GameState) (x : GameState) (data : JsValue) :
  goBack data (mk cur prev menu dlg (stack ++ [x]))
  = changeState x data (mk cur prev menu dlg stack).
Proof.
  unfold goBack. cbn [_stateStack _currentState _previousState _menuState
                      _dialogState].
  by rewrite last_push, removelast_last.
Qed.

End StateMachineHistory.

(** X1. [goBack] with an empty history fails and changes nothing. After
    a transition that records its origin (one of the eight pairs of
    [shouldPushToStack]), [goBack] takes the recorded state off the
    history and succeeds exactly when that state is an allowed target of
    the state the machine is in; this is so for six of the pairs, and not
    for [main_menu -> playing] and [pause -> save_load], where [goBack]
    returns [false], stays where it is and the recorded state is lost. *)
Theorem goBack_after_recorded_transition :
  (forall m data,
     GameStateMachine._stateStack m = [] ->
     GameStateMachine.goBack data m = (false, m, []))
  /\ (forall m from to data data',
        GameStateMachine._currentState m = from ->
        (from, to) ∈ GameStateMachine.pushStates ->
        let m1 := (GameStateMachine.changeState to data m).1.2 in
        (GameStateMachine.changeState to data m).1.1 = true
        /\ GameStateMachine._stateStack m1 = GameStateMachine._stateStack m ++ [from]
        /\ let '(r, m2, ev) := GameStateMachine.goBack data' m1 in
           r = bool_decide (from ∈ GameStateMachine.STATE_TRANSITIONS to)
           /\ r = negb (bool_decide
                          ((from, to) ∈ [(GameStateMachine.MAIN_MENU,
                                          GameStateMachine.PLAYING);
                                         (GameStateMachine.PAUSE,
                                          GameStateMachine.SAVE_LOAD)]))
           /\ GameStateMachine._stateStack m2 = GameStateMachine._stateStack m
           /\ GameStateMachine._currentState m2 = (if r then from else to)
           /\ ev = if r then [GameStateMachine.stateChanged to from data'] else []).
Proof.
  split.
  - intros m data Hempty. unfold GameStateMachine.goBack. by rewrite Hempty.
  - intros [cur prev menu dlg stack] from to data data' Hcur Hpush.
    cbn in Hcur. subst cur.
    assert (E : GameStateMachine.changeState to data
                  (GameStateMachine.mk from prev menu dlg stack)
                = (true, GameStateMachine.mk to from menu dlg (stack ++ [from]),
                   [GameStateMachine.stateChanged from to data])).
    { apply pushStates_cases in Hpush.
      destruct Hpush as [[-> ->]|[[-> ->]|[[-> ->]|[[-> ->]|[[-> ->]|[[-> ->]|[[-> ->]|[-> ->]]]]]]]];
        reflexivity. }
    intros m1. subst m1. rewrite E.
    cbn [fst snd GameStateMachine._stateStack].
    split; [done|]. split; [done|]. rewrite goBack_push.
    apply pushStates_cases in Hpush.
    destruct Hpush as [[-> ->]|[[-> ->]|[[-> ->]|[[-> ->]|[[-> ->]|[[-> ->]|[[-> ->]|[-> ->]]]]]]]];
      by vm_compute.
Qed.

Lemma goBack_after_recorded_transition_witness :
  let m := GameStateMachine.mk GameStateMachine.PLAYING GameStateMachine.MAIN_MENU
             GameStateMachine.MENU_MAIN GameStateMachine.WAITING [] in
  let m1 := (GameStateMachine.changeState GameStateMachine.PAUSE JsUndefined m).1.2 in
  GameStateMachine._currentState m1 = GameStateMachine.PAUSE
  /\ (GameStateMachine.goBack JsUndefined m1).1.1 = true
  /\ GameStateMachine._currentState (GameStateMachine.goBack JsUndefined m1).1.2
     = GameStateMachine.PLAYING
  /\ GameStateMachine.goBack JsUndefined m = (false, m, []).
Proof.
  intros m m1. split; [reflexivity|].
  assert (Hpush : (GameStateMachine.PLAYING, GameStateMachine.PAUSE)
                    ∈ GameStateMachine.pushStates).
  { apply (bool_decide_unpack _). by vm_compute. }
  pose proof (proj2 goBack_after_recorded_transition m GameStateMachine.PLAYING
                GameStateMachine.PAUSE JsUndefined JsUndefined eq_refl Hpush) as H.
  cbn zeta in H. destruct H as (_ & _ & H). fold m1 in H.
  destruct (GameStateMachine.goBack JsUndefined m1) as [[r m2] ev].
  destruct H as (Hr & _ & _ & Hcur & _). cbn [fst snd].
  assert (r = true) as -> by (rewrite Hr; by vm_compute).
  split; [done|]. split; [exact Hcur|].
  apply (proj1 goBack_after_recorded_transition). reflexivity.
Defined.

(** X2. No sequence of [changeState], [goBack], [setMenuState],
    [setDialogState] and [reset] calls brings a machine into [map] or
    [achievement] (no transition list names them), and the history stack
    only ever holds [main_menu], [playing] and [pause]. *)
Theorem machine_never_enters_map_or_achievement
    (calls : list MachineCall) (m : GameStateMachine.t) :
  machineInvariant m -> machineInvariant (runMachineCalls calls m).
Proof.
  revert m. induction calls as [|call calls IH]; intros m Hm; [exact Hm|].
  cbn [runMachineCalls fold_left]. apply IH.
  destruct call; cbn [runMachineCall].
  - by apply changeState_machineInvariant.
  - by apply goBack_machineInvariant.
  - exact Hm.
  - exact Hm.
  - repeat split; done.
Qed.

Lemma machine_never_enters_map_or_achievement_witness :
  machineInvariant GameStateMachine.new
  /\ GameStateMachine._currentState
       (runMachineCalls
          [callChangeState GameStateMachine.TITLE JsUndefined;
           callChangeState GameStateMachine.MAIN_MENU JsUndefined;
           callChangeState GameStateMachine.PLAYING JsUndefined;
           callChangeState GameStateMachine.MAP JsUndefined;
           callGoBack JsUndefined]
          GameStateMachine.new)
     <> GameStateMachine.MAP.
Proof.
  assert (H : machineInvariant GameStateMachine.new).
  { repeat split; done. }
  split; [exact H|].
  exact (proj1 (machine_never_enters_map_or_achievement _ _ H)).
Defined.

(* ===================================================================== *)
(** * Affinity ledger: levels, composition, endings and events *)
(* ===================================================================== *)

(** X3. For a roster character the level is between 1 and 7. With a
    positive maximum it is a non-decreasing function of the favor: level
    1 at favor 0, level 7 from 85% of the maximum on. *)
Theorem getFavorLevel_range_and_monotone :
  (forall (s : gmap string CharacterSystem.CharacterData) c ch,
     s !! c = Some ch -> 1 <= CharacterSystem.getFavorLevel c s <= 7)
  /\ (forall (s s' : gmap string CharacterSystem.CharacterData) c ch ch',
        s !! c = Some ch -> s' !! c = Some ch' ->
        CharacterSystem.maxFavor ch' = CharacterSystem.maxFavor ch ->
        0 < CharacterSystem.maxFavor ch ->
        CharacterSystem.favor ch <= CharacterSystem.favor ch' ->
        CharacterSystem.getFavorLevel c s <= CharacterSystem.getFavorLevel c s')
  /\ (forall (s : gmap string CharacterSystem.CharacterData) c ch,
        s !! c = Some ch -> 0 < CharacterSystem.maxFavor ch ->
        (CharacterSystem.favor ch = 0 -> CharacterSystem.getFavorLevel c s = 1)
        /\ (85 * CharacterSystem.maxFavor ch <= 100 * CharacterSystem.favor ch ->
            CharacterSystem.getFavorLevel c s = 7)).
Proof.
  split; [|split].
  - intros s c ch Hc. unfold CharacterSystem.getFavorLevel. rewrite Hc.
    repeat case_match; lia.
  - intros s s' c ch ch' Hc Hc' Hmax Hpos Hle.
    unfold CharacterSystem.getFavorLevel, CharacterSystem.percent_ge.
    rewrite Hc, Hc', Hmax.
    destruct (Z.ltb_spec 0 (CharacterSystem.maxFavor ch)) as [_|]; [|lia].
    repeat match goal with
           | |- context [?a <=? ?b] => destruct (Z.leb_spec a b)
           end; lia.
  - intros s c ch Hc Hpos.
    unfold CharacterSystem.getFavorLevel, CharacterSystem.percent_ge. rewrite Hc.
    destruct (Z.ltb_spec 0 (CharacterSystem.maxFavor ch)) as [_|]; [|lia].
    split; intros H;
      repeat match goal with
             | |- context [?a <=? ?b] => destruct (Z.leb_spec a b)
             end; lia.
Qed.

Lemma getFavorLevel_range_and_monotone_witness :
  let s := (CharacterSystem.changeFavor "heroine_1" 549 CharacterSystem.init).1.2 in
  let s' := (CharacterSystem.changeFavor "heroine_1" 1 s).1.2 in
  CharacterSystem.getFavorLevel "heroine_1" s = 4
  /\ CharacterSystem.getFavorLevel "heroine_1" s' = 5
  /\ CharacterSystem.getFavorLevel "heroine_1" s
     <= CharacterSystem.getFavorLevel "heroine_1" s'.
Proof.
  intros s s'. split; [by vm_compute|]. split; [by vm_compute|].
  eapply (proj1 (proj2 getFavorLevel_range_and_monotone) s s' "heroine_1").
  - vm_compute. reflexivity.
  - vm_compute. reflexivity.
  - reflexivity.
  - reflexivity.
  - by vm_compute.
Defined.

(** X4. On a character whose favor lies within its bounds, two
    [changeFavor] calls with deltas of the same sign leave the roster that
    one call with the sum leaves, and the two returned deltas add up to
    the one returned for the sum. *)
Theorem changeFavor_same_sign_composes
    (s : gmap string CharacterSystem.CharacterData) (c : string)
    (ch : CharacterSystem.CharacterData) (d1 d2 : Z) :
  s !! c = Some ch ->
  0 <= CharacterSystem.favor ch <= CharacterSystem.maxFavor ch ->
  (0 <= d1 /\ 0 <= d2) \/ (d1 <= 0 /\ d2 <= 0) ->
  let '(r1, s1, _) := CharacterSystem.changeFavor c d1 s in
  let '(r2, s2, _) := CharacterSystem.changeFavor c d2 s1 in
  let '(r, s', _) := CharacterSystem.changeFavor c (d1 + d2) s in
  s2 = s' /\ r1 + r2 = r.
Proof.
  intros Hc Hb Hsign.
  rewrite (changeFavor_known _ _ _ _ Hc).
  rewrite (changeFavor_known _ c d2 (CharacterSystem.set_favor (clampFavor ch d1) ch))
    by apply lookup_insert_eq.
  rewrite (changeFavor_known _ _ _ _ Hc).
  rewrite insert_insert_eq.
  assert (E : clampFavor (CharacterSystem.set_favor (clampFavor ch d1) ch) d2
              = clampFavor ch (d1 + d2)).
  { unfold clampFavor.
    cbn [CharacterSystem.favor CharacterSystem.maxFavor CharacterSystem.set_favor].
    destruct Hsign; lia. }
  rewrite E. split.
  - f_equal.
  - cbn [CharacterSystem.favor CharacterSystem.set_favor]. lia.
Qed.

Lemma changeFavor_same_sign_composes_witness :
  let s := (CharacterSystem.changeFavor "heroine_3" 990 CharacterSystem.init).1.2 in
  (CharacterSystem.changeFavor "heroine_3" 8
     (CharacterSystem.changeFavor "heroine_3" 7 s).1.2).1.2
  = (CharacterSystem.changeFavor "heroine_3" 15 s).1.2.
Proof.
  intros s.
  destruct (s !! "heroine_3") as [ch|] eqn:Hc; [|by vm_compute in Hc].
  assert (Hb : 0 <= CharacterSystem.favor ch <= CharacterSystem.maxFavor ch).
  { vm_compute in Hc. injection Hc as <-. cbn. lia. }
  assert (Hsign : (0 <= 7 /\ 0 <= 8) \/ (7 <= 0 /\ 8 <= 0)) by lia.
  pose proof (changeFavor_same_sign_composes s "heroine_3" ch 7 8 Hc Hb Hsign) as H.
  destruct (CharacterSystem.changeFavor "heroine_3" 7 s) as [[r1 s1] e1].
  cbn [fst snd].
  destruct (CharacterSystem.changeFavor "heroine_3" 8 s1) as [[r2 s2] e2].
  change (7 + 8) with 15 in H.
  destruct (CharacterSystem.changeFavor "heroine_3" 15 s) as [[r s'] e].
  exact (proj1 H).
Defined.

Section EndingsAndEvents.
Import CharacterSystem.

Lemma includes_true (l : list string) (x : string) : includes l x = true <-> x ∈ l.
Proof. unfold includes. apply bool_decide_eq_true. Qed.

Lemma insert_listsDistinct (s : gmap string CharacterData) (c : string)
    (ch : CharacterData) :
  listsDistinct s -> NoDup (endings ch) -> NoDup (events ch) ->
  listsDistinct (<[c := ch]> s).
Proof.
  intros Hs He Hv c' ch'. destruct (decide (c = c')) as [->|Hne].
  - rewrite lookup_insert_eq. by intros [= <-].
  - rewrite lookup_insert_ne by done. apply Hs.
Qed.

Lemma runRosterCall_listsDistinct (s : gmap string CharacterData)
    (call : RosterCall) :
  listsDistinct s -> listsDistinct (runRosterCall s call).
Proof.
  intros Hs. destruct call as [c d|c|c e|c e|]; cbn [runRosterCall].
  - destruct (s !! c) as [ch|] eqn:Hc.
    + rewrite (changeFavor_known _ _ _ _ Hc). cbn [fst snd].
      destruct (Hs _ _ Hc). by apply insert_listsDistinct.
    + by rewrite (changeFavor_absent _ _ _ Hc).
  - unfold unlockCharacter. destruct (s !! c) as [ch|] eqn:Hc; [|done].
    destruct (unlocked ch); [done|]. cbn [fst snd].
    destruct (Hs _ _ Hc). by apply insert_listsDistinct.
  - unfold unlockEnding. destruct (s !! c) as [ch|] eqn:Hc; [|done].
    destruct (includes (endings ch) e) eqn:Hin; [done|]. cbn [fst snd].
    destruct (Hs _ _ Hc) as [He Hv]. apply insert_listsDistinct; [done| |done].
    cbn. apply NoDup_app. split; [done|]. split; [|apply NoDup_singleton].
    intros x Hx ->%list_elem_of_singleton.
    apply includes_true in Hx. congruence.
  - unfold recordEvent. destruct (s !! c) as [ch|] eqn:Hc; [|done].
    destruct (includes (events ch) e) eqn:Hin; [done|]. cbn [fst snd].
    destruct (Hs _ _ Hc) as [He Hv]. apply insert_listsDistinct; [done|done|].
    cbn. apply NoDup_app. split; [done|]. split; [|apply NoDup_singleton].
    intros x Hx ->%list_elem_of_singleton.
    apply includes_true in Hx. congruence.
  - intros c ch'. unfold reset. rewrite lookup_fmap.
    destruct (s !! c); [|done]. intros [= <-]. cbn. split; constructor.
Qed.

Lemma init_listsDistinct : listsDistinct init.
Proof.
  intros c ch. unfold init, initializeCharacters, characterConfig.
  cbn [fold_left cfg_id cfg_name cfg_title cfg_sprites cfg_maxFavor cfg_defaultFavor].
  intros H.
  repeat (apply lookup_insert_Some in H as [[_ <-]|[_ H]]; [cbn; split; constructor|]).
  by rewrite lookup_empty in H.
Qed.

End EndingsAndEvents.

(** X5. The endings and the events of a character never hold an id
    twice: this holds at start-up and after every sequence of roster
    calls. After [unlockEnding] or [recordEvent] for a roster character
    the id is on the list, and the same call again returns [false],
    changes nothing and notifies nothing. *)
Theorem endings_and_events_recorded_once :
  listsDistinct CharacterSystem.init
  /\ (forall s calls, listsDistinct s -> listsDistinct (runRosterCalls calls s))
  /\ (forall (s : gmap string CharacterSystem.CharacterData) c e ch,
        s !! c = Some ch ->
        let s1 := (CharacterSystem.unlockEnding c e s).1.2 in
        (exists ch1, s1 !! c = Some ch1 /\ e ∈ CharacterSystem.endings ch1)
        /\ CharacterSystem.unlockEnding c e s1 = (false, s1, []))
  /\ (forall (s : gmap string CharacterSystem.CharacterData) c e ch,
        s !! c = Some ch ->
        let s1 := (CharacterSystem.recordEvent c e s).1.2 in
        (exists ch1, s1 !! c = Some ch1 /\ e ∈ CharacterSystem.events ch1)
        /\ CharacterSystem.recordEvent c e s1 = (false, s1, [])).
Proof.
  split; [exact init_listsDistinct|]. split; [|split].
  - intros s calls. revert s.
    induction calls as [|call calls IH]; intros s Hs; [exact Hs|].
    cbn [runRosterCalls fold_left]. apply IH. by apply runRosterCall_listsDistinct.
  - intros s c e ch Hc s1. subst s1.
    destruct (CharacterSystem.includes (CharacterSystem.endings ch) e) eqn:Hin.
    + assert (E : CharacterSystem.unlockEnding c e s = (false, s, [])).
      { unfold CharacterSystem.unlockEnding. by rewrite Hc, Hin. }
      rewrite E. cbn [fst snd]. split; [|exact E].
      exists ch. split; [done|]. by apply includes_true.
    + assert (E : CharacterSystem.unlockEnding c e s
                  = (true,
                     <[c := CharacterSystem.set_endings
                              (CharacterSystem.endings ch ++ [e]) ch]> s,
                     [CharacterSystem.endingUnlocked c e])).
      { unfold CharacterSystem.unlockEnding. by rewrite Hc, Hin. }
      rewrite E. cbn [fst snd]. split.
      * eexists. rewrite lookup_insert_eq. split; [done|]. cbn. set_solver.
      * unfold CharacterSystem.unlockEnding. rewrite lookup_insert_eq.
        cbn [CharacterSystem.endings CharacterSystem.set_endings].
        rewrite (proj2 (includes_true _ e)); [reflexivity|set_solver].
  - intros s c e ch Hc s1. subst s1.
    destruct (CharacterSystem.includes (CharacterSystem.events ch) e) eqn:Hin.
    + assert (E : CharacterSystem.recordEvent c e s = (false, s, [])).
      { unfold CharacterSystem.recordEvent. by rewrite Hc, Hin. }
      rewrite E. cbn [fst snd]. split; [|exact E].
      exists ch. split; [done|]. by apply includes_true.
    + assert (E : CharacterSystem.recordEvent c e s
                  = (true,
                     <[c := CharacterSystem.set_events
                              (CharacterSystem.events ch ++ [e]) ch]> s,
                     [CharacterSystem.eventRecorded c e])).
      { unfold CharacterSystem.recordEvent. by rewrite Hc, Hin. }
      rewrite E. cbn [fst snd]. split.
      * eexists. rewrite lookup_insert_eq. split; [done|]. cbn. set_solver.
      * unfold CharacterSystem.recordEvent. rewrite lookup_insert_eq.
        cbn [CharacterSystem.events CharacterSystem.set_events].
        rewrite (proj2 (includes_true _ e)); [reflexivity|set_solver].
Qed.

Lemma endings_and_events_recorded_once_witness :
  let s := runRosterCalls
             [callUnlockEnding "heroine_1" "good"; callUnlockEnding "heroine_1" "good";
              callRecordEvent "heroine_1" "festival"]
             CharacterSystem.init in
  listsDistinct s
  /\ (CharacterSystem.endings <$> s !! "heroine_1") = Some ["good"]
  /\ CharacterSystem.recordEvent "heroine_1" "festival" s = (false, s, []).
Proof.
  intros s. split; [|split].
  - apply (proj1 (proj2 endings_and_events_recorded_once)).
    exact (proj1 endings_and_events_recorded_once).
  - by vm_compute.
  - by vm_compute.
Defined.

(** X6. [importData] overwrites favor, unlock state, endings and events
    of exactly the roster characters named in the data (a missing list
    becomes empty), stores the favor as given, without clamping, keeps
    id, name, title, sprites and maximum, leaves every other character as
    it was and never adds a character. *)
Theorem importData_overwrites_named_characters
    (data : gmap string CharacterSystem.CharacterSave)
    (s : gmap string CharacterSystem.CharacterData) :
  dom (CharacterSystem.importData data s) = dom s
  /\ forall c ch,
       s !! c = Some ch ->
       match data !! c with
       | Some saved =>
           CharacterSystem.importData data s !! c
           = Some (CharacterSystem.mkCharacterData
                     (CharacterSystem.id ch) (CharacterSystem.name ch)
                     (CharacterSystem.title ch) (CharacterSystem.sprites ch)
                     (CharacterSystem.save_favor saved) (CharacterSystem.maxFavor ch)
                     (CharacterSystem.save_unlocked saved)
                     (default [] (CharacterSystem.save_endings saved))
                     (default [] (CharacterSystem.save_events saved)))
       | None => CharacterSystem.importData data s !! c = Some ch
       end.
Proof.
  split.
  - apply set_eq. intros c. rewrite !elem_of_dom, importData_lookup.
    destruct (s !! c); [|done]. split; eauto.
  - intros c ch Hc. rewrite importData_lookup, Hc. by destruct (data !! c).
Qed.

Lemma importData_overwrites_named_characters_witness :
  let data : gmap string CharacterSystem.CharacterSave :=
    {[ "heroine_1" := CharacterSystem.mkCharacterSave 5000 true None None;
       "stranger" := CharacterSystem.mkCharacterSave 1 true None None ]} in
  let s := CharacterSystem.importData data CharacterSystem.init in
  (CharacterSystem.favor <$> s !! "heroine_1") = Some 5000
  /\ (CharacterSystem.maxFavor <$> s !! "heroine_1") = Some 1000
  /\ s !! "stranger" = None
  /\ dom s = dom CharacterSystem.init.
Proof.
  intros data s. split; [by vm_compute|]. split; [by vm_compute|].
  split; [by vm_compute|].
  exact (proj1 (importData_overwrites_named_characters data CharacterSystem.init)).
Defined.

(* ===================================================================== *)
(** * Flag store: toggling, round trips, undeclared and added flags *)
(* ===================================================================== *)

Section FlagStoreFacts.
Import FlagManager.

Lemma set_flags_is_Some (k k' : string) (v : bool) (s : t) :
  is_Some (_flags s !! k') -> is_Some (_flags (set k v s).1 !! k').
Proof.
  intros H. unfold set. case_bool_decide; [done|]. cbn [fst _flags].
  destruct (decide (k = k')) as [->|Hne].
  - rewrite lookup_insert_eq. eauto.
  - by rewrite lookup_insert_ne.
Qed.

Lemma set_declaredStored (k : string) (v : bool) (s : t) :
  declaredStored s -> declaredStored (set k v s).1.
Proof.
  intros Hs k' def. rewrite set_definitions. intros Hd.
  apply set_flags_is_Some. by eapply Hs.
Qed.

Lemma setEntriesStore_declaredStored (entries : list (string * bool)) (s : t) :
  declaredStored s -> declaredStored (setEntriesStore entries s).
Proof.
  revert s. induction entries as [|e entries IH]; intros s Hs; [done|].
  cbn [setEntriesStore fold_left]. fold (setEntriesStore entries (set e.1 e.2 s).1).
  apply IH. by apply set_declaredStored.
Qed.

Lemma setEntries_fst (entries : list (string * bool)) (s : t) :
  (setEntries entries s).1 = setEntriesStore entries s.
Proof. unfold setEntries. apply setEntries_store. Qed.

Lemma reset_declaredStored (s : t) : declaredStored (reset s).1.
Proof.
  intros k def Hd. cbn [reset fst _definitions] in Hd.
  rewrite reset_flags_lookup, Hd. eauto.
Qed.

Lemma importData_fst (data : gmap string bool) (s : t) :
  (importData data s).1 = setEntriesStore (map_to_list data) (reset s).1.
Proof.
  unfold importData. destruct (reset s) as [s1 ev1].
  destruct (setEntries (map_to_list data) s1) as [s2 ev2] eqn:E. cbn [fst].
  by rewrite <- setEntries_fst, E.
Qed.

Lemma runFlagCall_declaredStored (s : t) (call : FlagCall) :
  declaredStored s -> declaredStored (runFlagCall s call).
Proof.
  intros Hs. destruct call as [k v|k|data| |data|k d desc tags]; cbn [runFlagCall].
  - by apply set_declaredStored.
  - unfold toggle. destruct (set k (negb (get k s)) s) as [s' ev] eqn:E.
    cbn [fst snd]. replace s' with (set k (negb (get k s)) s).1 by (by rewrite E).
    by apply set_declaredStored.
  - unfold setMultiple. rewrite setEntries_fst. by apply setEntriesStore_declaredStored.
  - apply reset_declaredStored.
  - rewrite importData_fst. apply setEntriesStore_declaredStored, reset_declaredStored.
  - unfold addFlag. destruct (_definitions s !! k) eqn:Hk; [done|].
    intros k' def. cbn [_definitions _flags].
    destruct (decide (k = k')) as [->|Hne].
    + rewrite !lookup_insert_eq. eauto.
    + rewrite !lookup_insert_ne by done. apply Hs.
Qed.

Lemma new_declaredStored : declaredStored new.
Proof.
  intros k def Hd.
  assert (E : new = (reset new).1) by (by rewrite reset_new).
  rewrite E. by eapply reset_declaredStored.
Qed.

End FlagStoreFacts.

(** X7. [toggle] returns the negation of what the flag read as and
    leaves the flag reading as that negation. Two toggles of a flag give
    back every reading of the store, the second returns what the flag
    read as at first, and together they notify exactly twice. *)
Theorem toggle_twice_restores_readings (k : string) (s : FlagManager.t) :
  let '(r1, s1, ev1) := FlagManager.toggle k s in
  let '(r2, s2, ev2) := FlagManager.toggle k s1 in
  r1 = negb (FlagManager.get k s)
  /\ FlagManager.get k s1 = r1
  /\ r2 = FlagManager.get k s
  /\ (forall k', FlagManager.get k' s2 = FlagManager.get k' s)
  /\ ev1 ++ ev2
     = [FlagManager.flagChanged k (FlagManager.get k s) (negb (FlagManager.get k s));
        FlagManager.flagChanged k (negb (FlagManager.get k s)) (FlagManager.get k s)].
Proof.
  unfold FlagManager.toggle.
  destruct (FlagManager.set k (negb (FlagManager.get k s)) s) as [s1 ev1] eqn:E1.
  destruct (FlagManager.set k (negb (FlagManager.get k s1)) s1) as [s2 ev2] eqn:E2.
  assert (Hs1 : s1 = (FlagManager.set k (negb (FlagManager.get k s)) s).1)
    by (by rewrite E1).
  assert (Hg1 : FlagManager.get k s1 = negb (FlagManager.get k s)).
  { rewrite Hs1, get_set. by rewrite decide_True. }
  split; [done|]. split; [done|]. split; [rewrite Hg1; apply negb_involutive|].
  split.
  - intros k'.
    replace s2 with (FlagManager.set k (negb (FlagManager.get k s1)) s1).1
      by (by rewrite E2).
    rewrite get_set, Hg1, negb_involutive.
    destruct (decide (k = k')) as [->|Hne]; [done|].
    rewrite Hs1, get_set. by rewrite decide_False.
  - assert (Hev : forall s' v, FlagManager.get k s' <> v ->
                    (FlagManager.set k v s').2
                    = [FlagManager.flagChanged k (FlagManager.get k s') v]).
    { intros s' v Hne. unfold FlagManager.set. fold (FlagManager.get k s').
      by rewrite bool_decide_eq_false_2. }
    replace ev1 with (FlagManager.set k (negb (FlagManager.get k s)) s).2
      by (by rewrite E1).
    replace ev2 with (FlagManager.set k (negb (FlagManager.get k s1)) s1).2
      by (by rewrite E2).
    rewrite (Hev s (negb (FlagManager.get k s)))
      by (by destruct (FlagManager.get k s)).
    rewrite (Hev s1 (negb (FlagManager.get k s1)))
      by (by destruct (FlagManager.get k s1)).
    cbn [app]. by rewrite Hg1, negb_involutive.
Qed.

(** X8. A store built by the constructor and any sequence of calls has a
    stored value for every declared flag. For such a store the export,
    imported into a store with the same definitions, gives back the
    reading of every declared flag whose key is not [__proto__]. A flag
    declared under the key [__proto__] is never in the export and reads
    as its declared default after the import. *)
Theorem flags_export_import_roundtrip :
  declaredStored FlagManager.new
  /\ (forall calls s, declaredStored s -> declaredStored (runFlagCalls calls s))
  /\ (forall s t k,
        declaredStored s ->
        FlagManager._definitions t = FlagManager._definitions s ->
        is_Some (FlagManager._definitions s !! k) ->
        k <> "__proto__" ->
        FlagManager.get k (FlagManager.importData (FlagManager.exportData s) t).1
        = FlagManager.get k s)
  /\ (forall s t def,
        FlagManager._definitions t !! "__proto__" = Some def ->
        FlagManager.get "__proto__"
          (FlagManager.importData (FlagManager.exportData s) t).1
        = FlagManager.defaultValue def).
Proof.
  split; [exact new_declaredStored|]. split; [|split].
  - intros calls. induction calls as [|call calls IH]; intros s Hs; [exact Hs|].
    cbn [runFlagCalls fold_left]. apply IH. by apply runFlagCall_declaredStored.
  - intros s t k Hs Hdefs [def Hd] Hk.
    rewrite get_importData. unfold importedValue. rewrite Hdefs, Hd.
    destruct (Hs _ _ Hd) as [v Hv].
    assert (Hget : FlagManager.get k s = v) by (unfold FlagManager.get; by rewrite Hv).
    rewrite Hget.
    destruct (FlagManager.exportData s !! k) as [w|] eqn:E.
    + apply exportData_lookup in E as (_ & def' & _ & Hw & _). congruence.
    + destruct (decide (v = FlagManager.defaultValue def)) as [->|Hne]; [done|].
      assert (FlagManager.exportData s !! k = Some v) as E'.
      { apply exportData_lookup. eauto. }
      congruence.
  - intros s t def Hd. rewrite get_importData. unfold importedValue.
    by rewrite exportData_proto, Hd.
Qed.

Lemma flags_export_import_roundtrip_witness :
  let s := runFlagCalls
             [callSet "met_yuqing" true; callToggle "cold"; callSet "polite" true;
              callSet "polite" false]
             FlagManager.new in
  let t := (FlagManager.importData (FlagManager.exportData s) FlagManager.new).1 in
  FlagManager.get "met_yuqing" t = true
  /\ FlagManager.get "cold" t = FlagManager.get "cold" s
  /\ FlagManager.get "polite" t = false.
Proof.
  intros s t. split; [by vm_compute|]. split; [|by vm_compute].
  apply (proj1 (proj2 (proj2 flags_export_import_roundtrip)) s FlagManager.new "cold").
  - apply (proj1 (proj2 flags_export_import_roundtrip)).
    exact (proj1 flags_export_import_roundtrip).
  - reflexivity.
  - eexists. reflexivity.
  - done.
Defined.

(** X9. A flag without a definition can be set and read, but [reset]
    does not clear it, the export never holds it, and so an import of the
    export does not carry it over: the importing store keeps its own
    reading of the key. *)
Theorem undeclared_flag_not_saved
    (s t : FlagManager.t) (k : string) (v : bool) :
  FlagManager._definitions s !! k = None ->
  FlagManager._definitions t !! k = None ->
  let s1 := (FlagManager.set k v s).1 in
  FlagManager.get k s1 = v
  /\ FlagManager.get k (FlagManager.reset s1).1 = v
  /\ FlagManager.exportData s1 !! k = None
  /\ FlagManager.get k (FlagManager.importData (FlagManager.exportData s1) t).1
     = FlagManager.get k t.
Proof.
  intros Hs Ht s1.
  assert (Hg : FlagManager.get k s1 = v).
  { subst s1. rewrite get_set. by rewrite decide_True. }
  assert (Hd1 : FlagManager._definitions s1 !! k = None).
  { subst s1. by rewrite set_definitions. }
  assert (He : FlagManager.exportData s1 !! k = None).
  { destruct (FlagManager.exportData s1 !! k) eqn:E; [|done].
    apply exportData_lookup in E as (_ & def & Hdef & _). congruence. }
  split; [exact Hg|]. split; [|split; [exact He|]].
  - unfold FlagManager.get in *. by rewrite reset_flags_lookup, Hd1.
  - rewrite get_importData. unfold importedValue. by rewrite He, Ht.
Qed.

Lemma undeclared_flag_not_saved_witness :
  let s1 := (FlagManager.set "first_gift" true FlagManager.new).1 in
  FlagManager._definitions FlagManager.new !! "first_gift" = None
  /\ FlagManager.get "first_gift" s1 = true
  /\ FlagManager.get "first_gift"
       (FlagManager.importData (FlagManager.exportData s1) FlagManager.new).1
     = false.
Proof.
  intros s1.
  assert (H : FlagManager._definitions FlagManager.new !! "first_gift" = None)
    by (by vm_compute).
  destruct (undeclared_flag_not_saved FlagManager.new FlagManager.new
              "first_gift" true H H) as (H1 & _ & _ & H4).
  split; [exact H|]. split; [exact H1|]. fold s1 in H4. rewrite H4. by vm_compute.
Defined.

(** X10. [addFlag] for a key that has a definition changes nothing,
    whatever default it is given. For a key without one it declares the
    flag and stores the default, replacing a value stored under the key
    before; the export then does not hold the key and other readings are
    kept. *)
Theorem addFlag_declares_once
    (s : FlagManager.t) (k : string) (d : bool) (desc : string)
    (tags : list string) :
  let s1 := FlagManager.addFlag k d desc tags s in
  (is_Some (FlagManager._definitions s !! k) -> s1 = s)
  /\ (FlagManager._definitions s !! k = None ->
      FlagManager._definitions s1 !! k
        = Some (FlagManager.mkFlagDefinition k d desc tags)
      /\ FlagManager.get k s1 = d
      /\ FlagManager.exportData s1 !! k = None
      /\ forall k', k' <> k -> FlagManager.get k' s1 = FlagManager.get k' s).
Proof.
  intros s1. subst s1. unfold FlagManager.addFlag. split.
  - intros [def Hd]. by rewrite Hd.
  - intros Hnone. rewrite Hnone. cbn [FlagManager._definitions].
    split; [by rewrite lookup_insert_eq|]. split; [|split].
    + unfold FlagManager.get. cbn. by rewrite lookup_insert_eq.
    + destruct (FlagManager.exportData _ !! k) as [v|] eqn:E; [|done].
      apply exportData_lookup in E as (_ & def & Hdef & Hv & Hne).
      cbn [FlagManager._definitions FlagManager._flags] in Hdef, Hv.
      rewrite lookup_insert_eq in Hdef. rewrite lookup_insert_eq in Hv.
      injection Hdef as <-. injection Hv as <-. done.
    + intros k' Hne. unfold FlagManager.get. cbn. by rewrite lookup_insert_ne.
Qed.

Lemma addFlag_declares_once_witness :
  let s := (FlagManager.set "first_gift" false
              (FlagManager.set "first_gift" true FlagManager.new).1).1 in
  let s1 := FlagManager.addFlag "first_gift" true "" [] s in
  FlagManager.get "first_gift" s = false
  /\ FlagManager.get "first_gift" s1 = true
  /\ FlagManager.addFlag "first_gift" false "" [] s1 = s1.
Proof.
  intros s s1. split; [by vm_compute|].
  assert (H : FlagManager._definitions s !! "first_gift" = None) by (by vm_compute).
  split.
  - exact (proj1 (proj2 (proj2 (addFlag_declares_once s "first_gift" true "" []) H))).
  - apply (proj1 (addFlag_declares_once s1 "first_gift" false "" [])).
    vm_compute. eexists. reflexivity.
Defined.

(* ===================================================================== *)
(** * Persistence: slots, the guard, auto-save and restoring *)
(* ===================================================================== *)

Section SaveFacts.

Lemma storageKey_inj (a b : Z) :
  SaveLoadSystem.storageKey a = SaveLoadSystem.storageKey b -> a = b.
Proof.
  unfold SaveLoadSystem.storageKey. intros H.
  apply String.app_inj in H. by apply pretty_Z_inj in H.
Qed.

Lemma validSlot_test (slot : Z) :
  validSlot slot -> (slot <? 0) || (Save.MAX_SLOTS <=? slot) = false.
Proof. unfold validSlot, Save.MAX_SLOTS. lia. Qed.

Lemma invalidSlot_test (slot : Z) :
  ~ validSlot slot -> (slot <? 0) || (Save.MAX_SLOTS <=? slot) = true.
Proof. unfold validSlot, Save.MAX_SLOTS. lia. Qed.

(** The game a save leaves when its subscribers do nothing. *)
Lemma save_silent (g : Game) (slot : Z) (data : option Save.Overrides) (now : Z) :
  Save._isSaving (saveLoad g) = false -> validSlot slot ->
  SaveLoadSystem.save slot data now silent g
  = Ok true
      (with_saveLoad
         (SaveLoadSystem.set_isSaving false
            (SaveLoadSystem.set_currentSlot slot
               (SaveLoadSystem.set_isSaving true (saveLoad g))))
         (with_emitted
            (emitted g
             ++ [fromSaveLoad
                   (Save.saveSuccess slot
                      (SaveLoadSystem.collectSaveData slot data now g))])
            (with_localStorage
               (<[SaveLoadSystem.storageKey slot :=
                    SaveLoadSystem.collectSaveData slot data now g]>
                  (localStorage g))
               g))).
Proof.
  intros Hfree Hslot. unfold SaveLoadSystem.save, bind at 1, gets at 1.
  rewrite Hfree, (validSlot_test _ Hslot). reflexivity.
Qed.

Lemma load_stored (g : Game) (slot : Z) (d : Save.SaveData) :
  validSlot slot ->
  localStorage g !! SaveLoadSystem.storageKey slot = Some d ->
  SaveLoadSystem.load slot g
  = Ok (Some d)
       (with_emitted (emitted g ++ [fromSaveLoad (Save.loadSuccess slot d)])
          (with_saveLoad (SaveLoadSystem.set_currentSlot slot (saveLoad g)) g)).
Proof.
  intros Hslot Hd. unfold SaveLoadSystem.load.
  rewrite (validSlot_test _ Hslot). unfold bind at 1, gets at 1.
  unfold SaveLoadSystem.getStorage. rewrite Hd. reflexivity.
Qed.

Lemma load_nothing (g : Game) (slot : Z) :
  ~ validSlot slot \/ localStorage g !! SaveLoadSystem.storageKey slot = None ->
  SaveLoadSystem.load slot g = Ok None g.
Proof.
  intros H. unfold SaveLoadSystem.load.
  destruct (decide (validSlot slot)) as [Hv|Hn].
  - destruct H as [?|Hd]; [done|]. rewrite (validSlot_test _ Hv).
    unfold bind at 1, gets at 1, SaveLoadSystem.getStorage. by rewrite Hd.
  - by rewrite (invalidSlot_test _ Hn).
Qed.

Lemma runRosterCall_sameCast (s s' : gmap string CharacterSystem.CharacterData)
    (call : RosterCall) :
  sameCast s s' -> sameCast s (runRosterCall s' call).
Proof.
  intros Hs c. specialize (Hs c).
  assert (Hins : forall c' ch1 ch',
            s' !! c' = Some ch1 ->
            CharacterSystem.id ch' = CharacterSystem.id ch1 ->
            CharacterSystem.name ch' = CharacterSystem.name ch1 ->
            CharacterSystem.title ch' = CharacterSystem.title ch1 ->
            CharacterSystem.sprites ch' = CharacterSystem.sprites ch1 ->
            CharacterSystem.maxFavor ch' = CharacterSystem.maxFavor ch1 ->
            match s !! c, <[c' := ch']> s' !! c with
            | Some ch, Some ch2 =>
                CharacterSystem.id ch = CharacterSystem.id ch2
                /\ CharacterSystem.name ch = CharacterSystem.name ch2
                /\ CharacterSystem.title ch = CharacterSystem.title ch2
                /\ CharacterSystem.sprites ch = CharacterSystem.sprites ch2
                /\ CharacterSystem.maxFavor ch = CharacterSystem.maxFavor ch2
            | None, None => True
            | _, _ => False
            end).
  { intros c' ch1 ch' H1 Hid Hname Htitle Hsprites Hmax.
    destruct (decide (c' = c)) as [->|Hne].
    - rewrite lookup_insert_eq. rewrite H1 in Hs.
      destruct (s !! c); [|done]. rewrite Hid, Hname, Htitle, Hsprites, Hmax. exact Hs.
    - by rewrite lookup_insert_ne. }
  destruct call as [c' d|c'|c' e|c' e|]; cbn [runRosterCall].
  - destruct (s' !! c') as [ch1|] eqn:H1.
    + rewrite (changeFavor_known _ _ _ _ H1). cbn [fst snd]. by eapply Hins.
    + by rewrite (changeFavor_absent _ _ _ H1).
  - unfold CharacterSystem.unlockCharacter. destruct (s' !! c') as [ch1|] eqn:H1; [|done].
    destruct (CharacterSystem.unlocked ch1); [done|]. cbn [fst snd]. by eapply Hins.
  - unfold CharacterSystem.unlockEnding. destruct (s' !! c') as [ch1|] eqn:H1; [|done].
    destruct (CharacterSystem.includes _ e); [done|]. cbn [fst snd]. by eapply Hins.
  - unfold CharacterSystem.recordEvent. destruct (s' !! c') as [ch1|] eqn:H1; [|done].
    destruct (CharacterSystem.includes _ e); [done|]. cbn [fst snd]. by eapply Hins.
  - unfold CharacterSystem.reset. rewrite lookup_fmap.
    destruct (s !! c), (s' !! c); done.
Qed.

Lemma runRosterCalls_sameCast (s : gmap string CharacterSystem.CharacterData)
    (calls : list RosterCall) :
  sameCast s (runRosterCalls calls s).
Proof.
  assert (H : forall s', sameCast s s' -> sameCast s (runRosterCalls calls s')).
  { induction calls as [|call calls IH]; intros s' Hs'; [exact Hs'|].
    cbn [runRosterCalls fold_left]. apply IH. by apply runRosterCall_sameCast. }
  apply H. intros c. by destruct (s !! c).
Qed.

End SaveFacts.

(** X11. [load] of a slot outside 0..5, or of a slot nothing is stored
    under, returns no data, and the game stays as it was: the current
    slot is kept and nothing is notified. In a game that has never saved,
    this is so for every slot. *)
Theorem load_of_empty_or_invalid_slot (g : Game) (slot : Z) :
  ~ validSlot slot \/ localStorage g !! SaveLoadSystem.storageKey slot = None ->
  SaveLoadSystem.load slot g = Ok None g.
Proof. apply load_nothing. Qed.

Lemma load_of_empty_or_invalid_slot_witness :
  SaveLoadSystem.load 3 (newGame Story.storyConfig)
  = Ok None (newGame Story.storyConfig)
  /\ SaveLoadSystem.load 6 (newGame Story.storyConfig)
     = Ok None (newGame Story.storyConfig).
Proof.
  split; apply load_of_empty_or_invalid_slot.
  - right. reflexivity.
  - left. unfold validSlot, Save.MAX_SLOTS. lia.
Defined.

(** X12. A save to a valid slot of a game that is not saving returns
    [true], notifies [saveSuccess] once and leaves the roster, the flags,
    the story and the mode state as they were. A [load] of the slot then
    returns exactly the snapshot that was collected and makes the slot the
    current one; what is stored under every other slot is as before. *)
Theorem save_then_load_returns_snapshot
    (g : Game) (slot : Z) (data : option Save.Overrides) (now : Z) :
  Save._isSaving (saveLoad g) = false ->
  validSlot slot ->
  match SaveLoadSystem.save slot data now silent g with
  | Ok r g1 =>
      r = true
      /\ characters g1 = characters g /\ flags g1 = flags g
      /\ story g1 = story g /\ stateMachine g1 = stateMachine g
      /\ emitted g1
         = emitted g
           ++ [fromSaveLoad
                 (Save.saveSuccess slot
                    (SaveLoadSystem.collectSaveData slot data now g))]
      /\ (forall slot', slot' <> slot ->
            localStorage g1 !! SaveLoadSystem.storageKey slot'
            = localStorage g !! SaveLoadSystem.storageKey slot')
      /\ match SaveLoadSystem.load slot g1 with
         | Ok (Some d) g2 =>
             d = SaveLoadSystem.collectSaveData slot data now g
             /\ Save._currentSlot (saveLoad g2) = slot
         | _ => False
         end
  | _ => False
  end.
Proof.
  intros Hfree Hslot. rewrite (save_silent _ _ _ _ Hfree Hslot).
  repeat (split; [reflexivity|]). split.
  - intros slot' Hne. cbn [localStorage with_saveLoad with_emitted with_localStorage].
    apply lookup_insert_ne. intros H. apply storageKey_inj in H. congruence.
  - erewrite load_stored; [|exact Hslot|].
    + split; reflexivity.
    + cbn [localStorage with_saveLoad with_emitted with_localStorage].
      apply lookup_insert_eq.
Qed.

Lemma save_then_load_returns_snapshot_witness :
  match SaveLoadSystem.save 2 None 1000 silent gameWithFlag with
  | Ok r g1 =>
      r = true
      /\ match SaveLoadSystem.load 2 g1 with
         | Ok (Some d) g2 =>
             d = SaveLoadSystem.collectSaveData 2 None 1000 gameWithFlag
         | _ => False
         end
  | _ => False
  end.
Proof.
  assert (Hfree : Save._isSaving (saveLoad gameWithFlag) = false) by reflexivity.
  assert (Hslot : validSlot 2) by (unfold validSlot, Save.MAX_SLOTS; lia).
  pose proof (save_then_load_returns_snapshot gameWithFlag 2 None 1000 Hfree Hslot) as H.
  destruct (SaveLoadSystem.save 2 None 1000 silent gameWithFlag) as [r g1|g1|]; try done.
  destruct H as (Hr & _ & _ & _ & _ & _ & _ & Hload). split; [exact Hr|].
  destruct (SaveLoadSystem.load 2 g1) as [[d|] g2|g2|]; try done.
  exact (proj1 Hload).
Defined.

(** X13. [save] and the listeners of its two notifications. Those of
    ['saveSuccess'] run inside the [try] block, those of ['saveFailed']
    inside the [catch] block, where nothing catches what they throw.

    - [SaveLoadSystem.save] is [save] with no listener of ['saveFailed'].
    - A save that starts on a game that is not saving has released the
      guard when it is over, whether it returns or throws and whatever
      the listeners do.
    - If the listeners of ['saveFailed'] never throw, [save] never
      throws.
    - If a listener of ['saveSuccess'] throws and those of ['saveFailed']
      do not, the save returns [false] and notifies ['saveFailed'] after
      ['saveSuccess'], although the snapshot is already in the storage
      and the slot is already the current one.
    - If a listener of ['saveFailed'] throws as well, [save] throws,
      with the same snapshot stored and the same notifications sent. *)
Theorem save_releases_guard :
  (forall g slot data now onSuccess,
     SaveLoadSystem.save slot data now onSuccess g
     = SaveListeners.save slot data now onSuccess failedSilent g)
  /\ (forall g slot data now onSuccess onFailed,
        Save._isSaving (saveLoad g) = false ->
        match SaveListeners.save slot data now onSuccess onFailed g with
        | Ok _ g' | Threw g' => Save._isSaving (saveLoad g') = false
        | OutOfFuel => True
        end)
  /\ (forall g slot data now onSuccess onFailed,
        (forall s g0, match onFailed s g0 with Threw _ => False | _ => True end) ->
        match SaveListeners.save slot data now onSuccess onFailed g with
        | Threw _ => False
        | _ => True
        end)
  /\ (forall g slot data now,
        Save._isSaving (saveLoad g) = false ->
        validSlot slot ->
        exists g',
          SaveListeners.save slot data now throwing failedSilent g = Ok false g'
          /\ SaveListeners.save slot data now throwing failedThrowing g = Threw g'
          /\ Save._isSaving (saveLoad g') = false
          /\ Save._currentSlot (saveLoad g') = slot
          /\ localStorage g' !! SaveLoadSystem.storageKey slot
             = Some (SaveLoadSystem.collectSaveData slot data now g)
          /\ emitted g'
             = emitted g
               ++ [fromSaveLoad
                     (Save.saveSuccess slot
                        (SaveLoadSystem.collectSaveData slot data now g));
                   fromSaveLoad (Save.saveFailed slot)]).
Proof.
  split; [|split; [|split]].
  - intros g slot data now onSuccess.
    unfold SaveLoadSystem.save, SaveListeners.save, bind, gets.
    destruct (Save._isSaving (saveLoad g)); [reflexivity|].
    destruct ((slot <? 0) || (Save.MAX_SLOTS <=? slot)); reflexivity.
  - intros g slot data now onSuccess onFailed Hfree.
    unfold SaveListeners.save, bind at 1, gets at 1. rewrite Hfree.
    destruct ((slot <? 0) || (Save.MAX_SLOTS <=? slot)); [exact Hfree|].
    unfold bind at 1, modify at 1, tryCatchFinally.
    match goal with
    | |- context [match ?body ?g0 with _ => _ end] => destruct (body g0) as [a g1|g1|]
    end; [done| |done].
    match goal with
    | |- context [match ?handler ?g0 with _ => _ end] =>
        destruct (handler g0) as [a g2|g2|]
    end; done.
  - intros g slot data now onSuccess onFailed Hquiet.
    unfold SaveListeners.save, bind at 1, gets at 1.
    destruct (Save._isSaving (saveLoad g)); [done|].
    destruct ((slot <? 0) || (Save.MAX_SLOTS <=? slot)); [done|].
    unfold bind at 1, modify at 1, tryCatchFinally.
    match goal with
    | |- context [match ?body ?g0 with _ => _ end] => destruct (body g0) as [a g1|g1|]
    end; [done| |done].
    unfold bind at 1, emit at 1, modify at 1.
    unfold bind at 1.
    match goal with
    | |- context [onFailed slot ?g0] =>
        pose proof (Hquiet slot g0) as Hq; destruct (onFailed slot g0) as [a g2|g2|]
    end; done.
  - intros g slot data now Hfree Hslot.
    eexists. split.
    { unfold SaveListeners.save, bind at 1, gets at 1.
      rewrite Hfree, (validSlot_test _ Hslot). reflexivity. }
    split.
    { unfold SaveListeners.save, bind at 1, gets at 1.
      rewrite Hfree, (validSlot_test _ Hslot). reflexivity. }
    cbn. split; [reflexivity|]. split; [reflexivity|].
    split; [apply lookup_insert_eq|]. by rewrite <- app_assoc.
Qed.

Lemma save_releases_guard_witness :
  let g := newGame Story.storyConfig in
  exists g',
    SaveListeners.save 0 None 1000 throwing failedSilent g = Ok false g'
    /\ SaveListeners.save 0 None 1000 throwing failedThrowing g = Threw g'
    /\ Save._isSaving (saveLoad g') = false
    /\ is_Some (localStorage g' !! SaveLoadSystem.storageKey 0).
Proof.
  intros g.
  assert (Hfree : Save._isSaving (saveLoad g) = false) by reflexivity.
  assert (Hslot : validSlot 0) by (unfold validSlot, Save.MAX_SLOTS; lia).
  destruct (proj2 (proj2 (proj2 save_releases_guard)) g 0 None 1000 Hfree Hslot)
    as (g' & Hsilent & Hthrowing & Hs & _ & Hst & _).
  exists g'. split; [exact Hsilent|]. split; [exact Hthrowing|].
  split; [exact Hs|]. rewrite Hst. eauto.
Defined.

(** X14. [autoSave] does nothing and returns [false] when auto-save is
    disabled or less than the interval has passed since the last attempt.
    Otherwise, on a game that is not saving, it saves to the current slot
    (slot 0 if there is none), the snapshot's chapter and node both being
    the given node id, and every further [autoSave] before the interval
    has passed again is rejected. An attempt made while a save is in
    progress writes nothing and returns [false], but still counts as the
    last attempt. *)
Theorem autoSave_rate_limited :
  (forall g nodeId now subscribers,
     Save._autoSaveEnabled (saveLoad g) = false
     \/ now - Save._lastAutoSaveTime (saveLoad g) < Save._autoSaveInterval (saveLoad g) ->
     SaveLoadSystem.autoSave nodeId now subscribers g = Ok false g)
  /\ (forall g nodeId now,
        Save._autoSaveEnabled (saveLoad g) = true ->
        Save._autoSaveInterval (saveLoad g)
          <= now - Save._lastAutoSaveTime (saveLoad g) ->
        Save._isSaving (saveLoad g) = false ->
        Save._currentSlot (saveLoad g) < Save.MAX_SLOTS ->
        nodeId <> "" ->
        let slot := Z.max 0 (Save._currentSlot (saveLoad g)) in
        match SaveLoadSystem.autoSave (Some nodeId) now silent g with
        | Ok r g1 =>
            r = true
            /\ (exists d, localStorage g1 !! SaveLoadSystem.storageKey slot = Some d
                          /\ Save.chapter d = nodeId /\ Save.node d = nodeId)
            /\ Save._currentSlot (saveLoad g1) = slot
            /\ forall nodeId' now' subscribers,
                 now' - now < Save._autoSaveInterval (saveLoad g) ->
                 SaveLoadSystem.autoSave nodeId' now' subscribers g1 = Ok false g1
        | _ => False
        end)
  /\ (forall g nodeId now subscribers,
        Save._autoSaveEnabled (saveLoad g) = true ->
        Save._autoSaveInterval (saveLoad g)
          <= now - Save._lastAutoSaveTime (saveLoad g) ->
        Save._isSaving (saveLoad g) = true ->
        match SaveLoadSystem.autoSave nodeId now subscribers g with
        | Ok r g1 =>
            r = false
            /\ localStorage g1 = localStorage g
            /\ emitted g1 = emitted g
            /\ Save._lastAutoSaveTime (saveLoad g1) = now
        | _ => False
        end).
Proof.
  split; [|split].
  - intros g nodeId now subscribers H.
    unfold SaveLoadSystem.autoSave, bind at 1, gets at 1.
    destruct (Save._autoSaveEnabled (saveLoad g)); [|done]. cbn [negb].
    destruct H as [H|H]; [done|].
    destruct (Z.ltb_spec (now - Save._lastAutoSaveTime (saveLoad g))
                (Save._autoSaveInterval (saveLoad g))); [done|lia].
  - intros g nodeId now Hen Hint Hfree Hcur Hnode slot.
    unfold SaveLoadSystem.autoSave, bind at 1, gets at 1. rewrite Hen. cbn [negb].
    destruct (Z.ltb_spec (now - Save._lastAutoSaveTime (saveLoad g))
                (Save._autoSaveInterval (saveLoad g))) as [|_]; [lia|].
    assert (Hslot : (if 0 <=? Save._currentSlot (saveLoad g)
                     then Save._currentSlot (saveLoad g) else 0) = slot).
    { subst slot. destruct (Z.leb_spec 0 (Save._currentSlot (saveLoad g))); lia. }
    rewrite Hslot.
    assert (Hvalid : validSlot slot).
    { subst slot. unfold validSlot, Save.MAX_SLOTS in *. lia. }
    assert (Hnode' : SaveLoadSystem.orString (Some nodeId) "" = nodeId).
    { unfold SaveLoadSystem.orString, truthyString.
      by rewrite bool_decide_eq_false_2. }
    rewrite Hnode'. unfold bind at 1, modify at 1.
    fold silent. unfold bind at 1.
    rewrite save_silent; [|exact Hfree|exact Hvalid].
    cbn [bind emit modify ret].
    split; [reflexivity|]. split; [|split; [reflexivity|]].
    + eexists. cbn [localStorage with_saveLoad with_emitted with_localStorage].
      rewrite lookup_insert_eq. split; [reflexivity|].
      cbn [SaveLoadSystem.collectSaveData Save.chapter Save.node
           mbind option_bind Save.o_chapter Save.o_node saveLoad with_saveLoad
           Save._autoSaveNode SaveLoadSystem.set_autoSave].
      unfold SaveLoadSystem.orString, truthyString in *.
      rewrite bool_decide_eq_false_2 by done. cbn [default]. done.
    + intros nodeId' now' subscribers Hsoon.
      unfold SaveLoadSystem.autoSave, bind at 1, gets at 1.
      cbn [saveLoad with_saveLoad with_emitted with_localStorage
           Save._autoSaveEnabled Save._lastAutoSaveTime Save._autoSaveInterval
           SaveLoadSystem.set_isSaving SaveLoadSystem.set_currentSlot
           SaveLoadSystem.set_autoSave].
      rewrite Hen. cbn [negb].
      by destruct (Z.ltb_spec (now' - now) (Save._autoSaveInterval (saveLoad g)));
        [|lia].
  - intros g nodeId now subscribers Hen Hint Hbusy.
    unfold SaveLoadSystem.autoSave, bind at 1, gets at 1. rewrite Hen. cbn [negb].
    destruct (Z.ltb_spec (now - Save._lastAutoSaveTime (saveLoad g))
                (Save._autoSaveInterval (saveLoad g))) as [|_]; [lia|].
    unfold bind at 1, modify at 1. unfold bind at 1.
    unfold SaveLoadSystem.save, bind at 1, gets at 1.
    cbn [saveLoad with_saveLoad Save._isSaving SaveLoadSystem.set_autoSave].
    rewrite Hbusy. done.
Qed.

Lemma autoSave_rate_limited_witness :
  match SaveLoadSystem.autoSave (Some "ch00_01") 400000 silent
          (newGame Story.storyConfig) with
  | Ok r g1 =>
      r = true
      /\ SaveLoadSystem.autoSave (Some "ch00_02") 600000 silent g1 = Ok false g1
  | _ => False
  end.
Proof.
  pose proof (proj1 (proj2 autoSave_rate_limited) (newGame Story.storyConfig)
                "ch00_01" 400000 eq_refl) as H.
  cbn zeta in H.
  assert (H1 : Save._autoSaveInterval (saveLoad (newGame Story.storyConfig))
               <= 400000 - Save._lastAutoSaveTime (saveLoad (newGame Story.storyConfig)))
    by (by vm_compute).
  assert (H2 : Save._currentSlot (saveLoad (newGame Story.storyConfig)) < Save.MAX_SLOTS)
    by (by vm_compute).
  specialize (H H1 eq_refl H2 ltac:(done)).
  destruct (SaveLoadSystem.autoSave (Some "ch00_01") 400000 silent
              (newGame Story.storyConfig)) as [r g1|g1|]; try done.
  destruct H as (Hr & _ & _ & Hnext). split; [exact Hr|].
  apply Hnext. by vm_compute.
Defined.

(** X15. [deleteSave] of a valid slot returns [true] and notifies
    [saveDeleted], whether or not anything was stored; afterwards [load]
    of the slot finds nothing, the other slots are as before, and the
    current slot is reset to none exactly when it was the deleted one.
    For a slot outside 0..5 it returns [false] and changes nothing. *)
Theorem deleteSave_clears_slot (g : Game) (slot : Z) :
  (validSlot slot ->
   match SaveLoadSystem.deleteSave slot g with
   | Ok r g1 =>
       r = true
       /\ SaveLoadSystem.load slot g1 = Ok None g1
       /\ (forall slot', slot' <> slot ->
             localStorage g1 !! SaveLoadSystem.storageKey slot'
             = localStorage g !! SaveLoadSystem.storageKey slot')
       /\ Save._currentSlot (saveLoad g1)
          = (if bool_decide (Save._currentSlot (saveLoad g) = slot) then -1
             else Save._currentSlot (saveLoad g))
       /\ emitted g1 = emitted g ++ [fromSaveLoad (Save.saveDeleted slot)]
       /\ characters g1 = characters g /\ flags g1 = flags g
   | _ => False
   end)
  /\ (~ validSlot slot -> SaveLoadSystem.deleteSave slot g = Ok false g).
Proof.
  split.
  - intros Hslot. unfold SaveLoadSystem.deleteSave.
    rewrite (validSlot_test _ Hslot). cbn [bind modify emit ret].
    cbn [localStorage saveLoad with_localStorage with_emitted].
    split; [reflexivity|]. split; [|split; [|split]].
    + apply load_nothing. right. case_bool_decide; cbn; apply lookup_delete_eq.
    + intros slot' Hne.
      assert (Hk : SaveLoadSystem.storageKey slot <> SaveLoadSystem.storageKey slot').
      { intros H. apply storageKey_inj in H. congruence. }
      case_bool_decide; cbn; by apply lookup_delete_ne.
    + by case_bool_decide.
    + by case_bool_decide.
  - intros Hslot. unfold SaveLoadSystem.deleteSave.
    by rewrite (invalidSlot_test _ Hslot).
Qed.

Lemma deleteSave_clears_slot_witness :
  match SaveLoadSystem.save 1 None 1000 silent (newGame Story.storyConfig) with
  | Ok _ g1 =>
      match SaveLoadSystem.deleteSave 1 g1 with
      | Ok r g2 => r = true /\ SaveLoadSystem.load 1 g2 = Ok None g2
                   /\ Save._currentSlot (saveLoad g2) = -1
      | _ => False
      end
  | _ => False
  end.
Proof.
  assert (Hfree : Save._isSaving (saveLoad (newGame Story.storyConfig)) = false)
    by reflexivity.
  assert (Hslot : validSlot 1) by (unfold validSlot, Save.MAX_SLOTS; lia).
  rewrite (save_silent _ 1 None 1000 Hfree Hslot).
  match goal with
  | |- match SaveLoadSystem.deleteSave 1 ?g1 with _ => _ end =>
      pose proof (proj1 (deleteSave_clears_slot g1 1) Hslot) as H;
      destruct (SaveLoadSystem.deleteSave 1 g1) as [r2 g2|g2|]; try done
  end.
  destruct H as (Hr & Hload & _ & Hcur & _). split; [exact Hr|]. split; [exact Hload|].
  rewrite Hcur. reflexivity.
Defined.

(** X16. A snapshot that went through the storage restores the roster:
    after a save, any later sequence of roster calls, a [load] of the slot
    and [applySaveData], every character has the favor, unlock state,
    endings and events it had when the save was made. If play time had
    started, the play time computed at any time after the restore is at
    least the snapshot's. *)
Theorem saved_roster_restored_after_play
    (g : Game) (slot : Z) (now later : Z) (calls : list RosterCall) :
  Save._isSaving (saveLoad g) = false ->
  validSlot slot ->
  match SaveLoadSystem.save slot None now silent g with
  | Ok _ g1 =>
      let g2 := with_characters (runRosterCalls calls (characters g1)) g1 in
      match SaveLoadSystem.load slot g2 with
      | Ok (Some d) g3 =>
          match SaveLoadSystem.applySaveData d later g3 with
          | Ok r g4 =>
              r = true
              /\ characters g4 = characters g
              /\ (0 < Save._playStartTime (saveLoad g) -> now <= later ->
                  forall t, later <= t ->
                    Save.playTime (Save.player d)
                    <= SaveLoadSystem.calculatePlayTime t (saveLoad g4))
          | _ => False
          end
      | _ => False
      end
  | _ => False
  end.
Proof.
  intros Hfree Hslot. rewrite (save_silent _ _ _ _ Hfree Hslot). cbn zeta.
  erewrite load_stored; [|exact Hslot|].
  2:{ cbn [localStorage with_saveLoad with_emitted with_localStorage with_characters].
      apply lookup_insert_eq. }
  cbn [SaveLoadSystem.applySaveData bind modify emit ret].
  split; [reflexivity|]. split.
  - cbn [characters with_characters with_saveLoad with_emitted with_localStorage
         SaveLoadSystem.collectSaveData Save.characters].
    apply importData_exportData. apply runRosterCalls_sameCast.
  - intros Hstart Hlater t Ht.
    cbn [saveLoad with_characters with_saveLoad with_emitted with_localStorage
         SaveLoadSystem.collectSaveData Save.player Save.playTime mbind option_bind
         SaveLoadSystem.set_playStartTime SaveLoadSystem.set_currentSlot
         SaveLoadSystem.set_isSaving Save._playStartTime].
    unfold SaveLoadSystem.calculatePlayTime, CharacterSystem.orNumber.
    cbn [Save._playStartTime default Z.eqb].
    destruct (Z.leb_spec (Save._playStartTime (saveLoad g)) 0) as [|_]; [lia|].
    pose proof (Z.mul_div_le (now - Save._playStartTime (saveLoad g)) 1000
                  ltac:(lia)) as Hq.
    set (pt := (now - Save._playStartTime (saveLoad g)) / 1000) in *.
    replace (0 + pt) with pt by lia.
    change (Save._playStartTime (SaveLoadSystem.set_playStartTime _ _))
      with (later - pt * 1000).
    destruct (Z.leb_spec (later - pt * 1000) 0) as [|_]; [lia|].
    replace (t - (later - pt * 1000)) with ((t - later) + pt * 1000) by lia.
    rewrite Z.div_add by lia.
    pose proof (Z.div_pos (t - later) 1000 ltac:(lia) ltac:(lia)). lia.
Qed.

Lemma saved_roster_restored_after_play_witness :
  match SaveLoadSystem.save 2 None 61000 silent
          (with_saveLoad (SaveLoadSystem.set_playStartTime 1000
                            (saveLoad (newGame Story.storyConfig)))
             (newGame Story.storyConfig)) with
  | Ok _ g1 =>
      match SaveLoadSystem.load 2
              (with_characters
                 (runRosterCalls [callChangeFavor "heroine_1" 250]
                    (characters g1)) g1) with
      | Ok (Some d) g3 =>
          match SaveLoadSystem.applySaveData d 90000 g3 with
          | Ok r g4 =>
              r = true
              /\ characters g4 = characters (newGame Story.storyConfig)
              /\ Save.playTime (Save.player d)
                 <= SaveLoadSystem.calculatePlayTime 95000 (saveLoad g4)
          | _ => False
          end
      | _ => False
      end
  | _ => False
  end.
Proof.
  set (g := with_saveLoad (SaveLoadSystem.set_playStartTime 1000
                             (saveLoad (newGame Story.storyConfig)))
              (newGame Story.storyConfig)).
  assert (Hslot : validSlot 2) by (unfold validSlot, Save.MAX_SLOTS; lia).
  pose proof (saved_roster_restored_after_play g 2 61000 90000
                [callChangeFavor "heroine_1" 250] eq_refl Hslot) as H.
  destruct (SaveLoadSystem.save 2 None 61000 silent g) as [r1 g1|g1|]; try done.
  cbn zeta in H.
  destruct (SaveLoadSystem.load 2 _) as [[d|] g3|g3|]; try done.
  destruct (SaveLoadSystem.applySaveData d 90000 g3) as [r g4|g4|]; try done.
  destruct H as (Hr & Hc & Ht). split; [exact Hr|]. split; [exact Hc|].
  apply Ht; [by vm_compute|lia|lia].
Defined.


(* ===================================================================== *)
(** * Story play: what it leaves alone *)
(* ===================================================================== *)

Section Preservation.
Context (R : Game -> Game -> Prop).
Hypothesis R_refl : forall g, R g g.
Hypothesis R_trans : forall g1 g2 g3, R g1 g2 -> R g2 g3 -> R g1 g3.

Lemma preserves_ret {A} (a : A) : preserves R (ret a).
Proof. intros g. apply R_refl. Qed.

Lemma preserves_bind {A B} (m : M A) (k : A -> M B) :
  preserves R m -> (forall a, preserves R (k a)) -> preserves R (bind m k).
Proof.
  intros Hm Hk g. unfold bind. specialize (Hm g).
  destruct (m g) as [a g1|g1|]; [|done|done].
  specialize (Hk a g1). destruct (k a g1); [| |done]; by eapply R_trans.
Qed.

Lemma preserves_gets {A} (f : Game -> A) : preserves R (gets f).
Proof. intros g. apply R_refl. Qed.

Lemma preserves_modify (f : Game -> Game) :
  (forall g, R g (f g)) -> preserves R (modify f).
Proof. intros Hf g. apply Hf. Qed.

Lemma preserves_throw {A} : preserves R (@throwTypeError A).
Proof. intros g. apply R_refl. Qed.

Lemma preserves_outOfFuel {A} : preserves R (@outOfFuel A).
Proof. by intros g. Qed.

Lemma preserves_forEach {A} (l : list A) (body : A -> M unit) :
  (forall x, preserves R (body x)) -> preserves R (forEach l body).
Proof.
  intros Hbody. induction l as [|x l IH]; cbn [forEach].
  - apply preserves_ret.
  - apply preserves_bind; [apply Hbody|intros _; exact IH].
Qed.

End Preservation.

Section Walk.
Context (R : Game -> Game -> Prop).
Hypothesis R_refl : forall g, R g g.
Hypothesis R_trans : forall g1 g2 g3, R g1 g2 -> R g2 g3 -> R g1 g3.
Hypothesis R_emitted : forall g ev, R g (with_emitted (emitted g ++ ev) g).
Hypothesis R_dialog : forall g d, R g (with_dialog d g).
Hypothesis R_stateMachine : forall g m, R g (with_stateMachine m g).
Hypothesis R_enterNode :
  forall g nodeId, R g (with_story (StoryManager.enterNode nodeId (story g)) g).
Hypothesis R_chapter :
  forall g chapter,
    R g (with_story (StoryManager.set_currentChapter chapter (story g)) g).

Local Abbreviation keeps := (preserves R).

Lemma walk_ret {A} (a : A) : keeps (ret a).
Proof. by apply preserves_ret. Qed.

Lemma walk_bind {A B} (m : M A) (k : A -> M B) :
  keeps m -> (forall a, keeps (k a)) -> keeps (bind m k).
Proof. by apply preserves_bind. Qed.

Lemma walk_gets {A} (f : Game -> A) : keeps (gets f).
Proof. by apply preserves_gets. Qed.

Lemma walk_emit (n : Emitted) : keeps (emit n).
Proof. intros g. apply R_emitted. Qed.

Lemma walk_forEach {A} (l : list A) (body : A -> M unit) :
  (forall x, keeps (body x)) -> keeps (forEach l body).
Proof. by apply preserves_forEach. Qed.

Lemma walk_changeState (s : GameStateMachine.GameState) : keeps (changeState s).
Proof.
  intros g. unfold changeState.
  destruct (GameStateMachine.changeState s JsUndefined (stateMachine g))
    as [[r m] ev].
  eapply R_trans; [apply (R_stateMachine g m)|].
  apply (R_emitted (with_stateMachine m g)).
Qed.

Lemma walk_setDialogState (s : GameStateMachine.DialogState) :
  keeps (setDialogState s).
Proof.
  intros g. unfold setDialogState.
  destruct (GameStateMachine.setDialogState s (stateMachine g)) as [m ev].
  eapply R_trans; [apply (R_stateMachine g m)|].
  apply (R_emitted (with_stateMachine m g)).
Qed.

Lemma walk_modifyDialog (f : Dialog.t -> Dialog.t) :
  keeps (DialogSystem.modifyDialog f).
Proof. intros g. apply R_dialog. Qed.

Lemma walk_dialog_applyEffects (effects : list Dialog.Effect) :
  keeps (DialogSystem.applyEffects effects).
Proof.
  apply walk_forEach. intros effect.
  destruct (Dialog.effect_type effect); first [apply walk_emit | apply walk_ret].
Qed.

Lemma walk_playEnding : keeps DialogSystem.playEnding.
Proof.
  apply walk_bind; [apply walk_changeState|intros _; apply walk_emit].
Qed.

Lemma walk_playDialog (node : Dialog.StoryNode) : keeps (DialogSystem.playDialog node).
Proof.
  unfold DialogSystem.playDialog.
  repeat first [apply walk_bind; [|intros _] | apply walk_changeState
               | apply walk_setDialogState | apply walk_modifyDialog].
Qed.

Lemma walk_playChoice (node : Dialog.StoryNode) : keeps (DialogSystem.playChoice node).
Proof.
  unfold DialogSystem.playChoice.
  repeat first [apply walk_bind; [|intros _] | apply walk_changeState
               | apply walk_emit | apply walk_modifyDialog].
Qed.

Lemma walk_dialog_next (cb : string -> M unit) :
  (forall nodeId, keeps (cb nodeId)) -> keeps (DialogSystem.next cb).
Proof.
  intros Hcb. unfold DialogSystem.next.
  apply walk_bind; [apply walk_gets|]. intros d.
  destruct (Dialog._isTyping d); [apply walk_modifyDialog|].
  destruct (Dialog._currentNode d) as [node|]; [|by apply preserves_throw].
  destruct (truthyString (Dialog.node_next node)); [|apply walk_playEnding].
  apply walk_bind; [apply walk_emit|intros _; apply Hcb].
Qed.

Lemma walk_dialog_playNode (cb : string -> M unit) (node : Dialog.StoryNode) :
  (forall nodeId, keeps (cb nodeId)) -> keeps (DialogSystem.playNode cb node).
Proof.
  intros Hcb. unfold DialogSystem.playNode.
  apply walk_bind; [apply walk_modifyDialog|intros _].
  apply walk_bind; [|intros _].
  { destruct (Dialog.node_effects node);
      [apply walk_dialog_applyEffects|apply walk_ret]. }
  apply walk_bind; [|intros _].
  { destruct (truthyString (Dialog.node_background node));
      [apply walk_emit|apply walk_ret]. }
  apply walk_bind; [|intros _].
  { destruct (Dialog.node_character node); apply walk_emit. }
  destruct (Dialog.node_type node);
    first [apply walk_playDialog | apply walk_playChoice
          | apply walk_playEnding | by apply walk_dialog_next].
Qed.

Lemma walk_dialog_selectChoice (cb : string -> M unit) (choiceId : string) :
  (forall nodeId, keeps (cb nodeId)) -> keeps (DialogSystem.selectChoice cb choiceId).
Proof.
  intros Hcb. unfold DialogSystem.selectChoice.
  apply walk_bind; [apply walk_gets|]. intros d.
  destruct (Dialog._currentNode d) as [node|]; [|by apply preserves_throw].
  destruct (find _ _) as [choice|]; [|apply walk_ret].
  apply walk_bind; [|intros _].
  { destruct (Dialog.choice_effects choice);
      [apply walk_dialog_applyEffects|apply walk_ret]. }
  apply walk_bind; [|intros _].
  { destruct (Dialog.choice_favorChange choice) as [entries|]; [|apply walk_ret].
    apply walk_forEach. intros [charId delta]. apply walk_emit. }
  case_bool_decide; [apply walk_ret|].
  apply walk_bind; [apply walk_emit|intros _; apply Hcb].
Qed.

Lemma walk_playNode (fuel : nat) (nodeId : string) :
  keeps (StoryManager.playNode fuel nodeId).
Proof.
  revert nodeId. induction fuel as [|fuel IH]; intros nodeId;
    [apply preserves_outOfFuel|].
  cbn [StoryManager.playNode].
  apply walk_bind; [apply walk_gets|]. intros s.
  destruct (Story._currentChapter s) as [chapter|]; [|apply walk_ret].
  destruct (Story.lookupNode nodeId (Story.chapter_nodes chapter)) as [node|];
    [|apply walk_ret].
  apply walk_bind; [intros g; apply R_enterNode|intros _].
  apply walk_bind; [apply walk_modifyDialog|intros _].
  apply walk_bind; [|intros _].
  { apply walk_dialog_playNode. intros nextId.
    apply walk_bind; [apply IH|intros _; apply walk_ret]. }
  apply walk_bind; [apply walk_emit|intros _; apply walk_ret].
Qed.

Lemma walk_playChapter (fuel : nat) (chapterId : string) :
  keeps (StoryManager.playChapter fuel chapterId).
Proof.
  unfold StoryManager.playChapter.
  apply walk_bind; [apply walk_gets|]. intros s.
  destruct (find _ _) as [chapter|]; [|apply walk_ret].
  destruct (match Story.chapter_unlockCondition chapter with
            | Some condition => negb (StoryManager.checkCondition condition s)
            | None => false
            end).
  { apply walk_bind; [apply walk_emit|intros _; apply walk_ret]. }
  apply walk_bind; [intros g; apply R_chapter|intros _].
  apply walk_bind; [|intros _].
  { destruct (truthyString (StoryManager.firstNodeId chapter)); [|apply walk_ret].
    apply walk_bind; [apply walk_playNode|intros _; apply walk_ret]. }
  apply walk_bind; [apply walk_emit|intros _; apply walk_ret].
Qed.

Lemma walk_endChapter (fuel : nat) : keeps (StoryManager.endChapter fuel).
Proof.
  unfold StoryManager.endChapter.
  apply walk_bind; [apply walk_gets|]. intros s. cbn zeta.
  destruct (_ <? _).
  - destruct (_ !! _); [apply walk_playChapter|by apply preserves_throw].
  - apply walk_bind; [apply walk_changeState|intros _].
    apply walk_bind; [apply walk_emit|intros _; apply walk_ret].
Qed.

Lemma walk_next (fuel : nat) : keeps (StoryManager.next fuel).
Proof.
  unfold StoryManager.next.
  apply walk_bind; [apply walk_gets|]. intros s.
  destruct (Story._currentChapter s) as [chapter|]; [|apply walk_ret].
  destruct (_ ≫= _); [apply walk_playNode|apply walk_endChapter].
Qed.

Lemma walk_jumpTo (fuel : nat) (chapterId nodeId : string) :
  keeps (StoryManager.jumpTo fuel chapterId nodeId).
Proof.
  unfold StoryManager.jumpTo.
  apply walk_bind; [apply walk_gets|]. intros s.
  apply walk_bind; [|intros _; apply walk_playNode].
  case_bool_decide; [apply walk_ret|].
  apply walk_bind; [apply walk_playChapter|intros _; apply walk_ret].
Qed.

Lemma walk_dialogCallbacks (fuel : nat) (nodeId : string) :
  keeps (StoryManager.dialogCallbacks fuel nodeId).
Proof.
  unfold StoryManager.dialogCallbacks.
  apply walk_bind; [apply walk_gets|]. intros d.
  destruct (Dialog.storySubscribed d); [|apply walk_ret].
  apply walk_bind; [apply walk_playNode|intros _; apply walk_ret].
Qed.

End Walk.

Section StoryFrame.

Lemma sameCast_refl (s : gmap string CharacterSystem.CharacterData) : sameCast s s.
Proof. intros c. by destruct (s !! c). Qed.

Lemma sameCast_trans (s1 s2 s3 : gmap string CharacterSystem.CharacterData) :
  sameCast s1 s2 -> sameCast s2 s3 -> sameCast s1 s3.
Proof.
  intros H12 H23 c. specialize (H12 c). specialize (H23 c).
  destruct (s1 !! c), (s2 !! c), (s3 !! c); try done.
  destruct H12 as (-> & -> & -> & -> & ->). exact H23.
Qed.

Lemma storyFrame_refl (g : Game) : storyFrame g g.
Proof. unfold storyFrame. repeat (split; [done|]). apply sameCast_refl. Qed.

Lemma storyFrame_trans (g1 g2 g3 : Game) :
  storyFrame g1 g2 -> storyFrame g2 g3 -> storyFrame g1 g3.
Proof.
  intros (F1 & S1 & L1 & C1 & V1 & H1 & E1 & K1) (F2 & S2 & L2 & C2 & V2 & H2 & E2 & K2).
  unfold storyFrame.
  split; [congruence|]. split; [congruence|]. split; [congruence|].
  split; [congruence|]. split; [set_solver|].
  split; [by etrans|]. split; [by etrans|]. by eapply sameCast_trans.
Qed.

Lemma storyFrame_emitted (g : Game) (ev : list Emitted) :
  storyFrame g (with_emitted (emitted g ++ ev) g).
Proof.
  unfold storyFrame. cbn. repeat (split; [done|]).
  split; [by apply prefix_app_r|]. apply sameCast_refl.
Qed.

Lemma storyFrame_dialog (g : Game) (d : Dialog.t) : storyFrame g (with_dialog d g).
Proof. unfold storyFrame. cbn. repeat (split; [done|]). apply sameCast_refl. Qed.

Lemma storyFrame_stateMachine (g : Game) (m : GameStateMachine.t) :
  storyFrame g (with_stateMachine m g).
Proof. unfold storyFrame. cbn. repeat (split; [done|]). apply sameCast_refl. Qed.

Lemma storyFrame_story (g : Game) (s : Story.t) :
  Story._config s = Story._config (story g) ->
  Story._visitedNodes (story g) ⊆ Story._visitedNodes s ->
  Story._choiceHistory (story g) `prefix_of` Story._choiceHistory s ->
  storyFrame g (with_story s g).
Proof.
  intros Hc Hv Hh. unfold storyFrame. cbn. repeat (split; [done|]).
  apply sameCast_refl.
Qed.

Lemma storyFrame_enterNode (g : Game) (nodeId : string) :
  storyFrame g (with_story (StoryManager.enterNode nodeId (story g)) g).
Proof. apply storyFrame_story; cbn; [done|set_solver|done]. Qed.

Lemma storyFrame_chapter (g : Game) (chapter : Story.Chapter) :
  storyFrame g (with_story (StoryManager.set_currentChapter chapter (story g)) g).
Proof. by apply storyFrame_story. Qed.

Lemma storyFrame_changeFavor (c : string) (d : Z) :
  preserves storyFrame (changeFavor c d).
Proof.
  intros g. unfold changeFavor.
  pose proof (runRosterCall_sameCast (characters g) (characters g)
                (callChangeFavor c d) (sameCast_refl _)) as Hcast.
  cbn [runRosterCall] in Hcast.
  destruct (CharacterSystem.changeFavor c d (characters g)) as [[r s] ev].
  unfold storyFrame. cbn. repeat (split; [done|]).
  split; [by apply prefix_app_r|]. exact Hcast.
Qed.

Lemma storyFrame_applyEffects (effects : list Dialog.Effect) :
  preserves storyFrame (StoryManager.applyEffects effects).
Proof.
  apply preserves_forEach; [apply storyFrame_refl|apply storyFrame_trans|].
  intros effect. destruct (Dialog.effect_type effect);
    first [apply preserves_ret, storyFrame_refl
          | intros g; by apply storyFrame_story].
Qed.

Lemma walkFrame_trans (g1 g2 g3 : Game) :
  walkFrame g1 g2 -> walkFrame g2 g3 -> walkFrame g1 g3.
Proof.
  intros (C1 & H1 & L1) (C2 & H2 & L2). unfold walkFrame.
  split; [congruence|]. split; congruence.
Qed.

Lemma walkFrame_playNode (fuel : nat) (nodeId : string) :
  preserves walkFrame (StoryManager.playNode fuel nodeId).
Proof. by apply walk_playNode; [|apply walkFrame_trans|..]. Qed.

End StoryFrame.

(** X17. Story play leaves the flag store, the save system, the storage
    and the story's chapters as they are, keeps the cast, and only adds to
    the visited nodes, the choice history and the log of notifications.
    This holds for [playNode], [playChapter], [next], [selectChoice] and
    [jumpTo] of the story, and for [selectChoice] and [next] of the
    dialog with the story's callbacks, whether the call returns or
    throws, with any bound on the depth of the walk. In particular a
    ['flag'] effect of a node or a choice never reaches the flag store. *)
Theorem story_play_frame (fuel : nat) :
  (forall nodeId, preserves storyFrame (StoryManager.playNode fuel nodeId))
  /\ (forall chapterId, preserves storyFrame (StoryManager.playChapter fuel chapterId))
  /\ preserves storyFrame (StoryManager.next fuel)
  /\ (forall choice, preserves storyFrame (StoryManager.selectChoice fuel choice))
  /\ (forall chapterId nodeId,
        preserves storyFrame (StoryManager.jumpTo fuel chapterId nodeId))
  /\ (forall choiceId,
        preserves storyFrame
          (DialogSystem.selectChoice (StoryManager.dialogCallbacks fuel) choiceId))
  /\ preserves storyFrame (DialogSystem.next (StoryManager.dialogCallbacks fuel)).
Proof.
  pose proof storyFrame_refl as H1. pose proof storyFrame_trans as H2.
  pose proof storyFrame_emitted as H3. pose proof storyFrame_dialog as H4.
  pose proof storyFrame_stateMachine as H5. pose proof storyFrame_enterNode as H6.
  pose proof storyFrame_chapter as H7.
  split; [intros; by apply walk_playNode|].
  split; [intros; by apply walk_playChapter|].
  split; [by apply walk_next|].
  split; [|split; [intros; by apply walk_jumpTo|split]].
  - intros choice. unfold StoryManager.selectChoice.
    apply preserves_bind; [done| |intros _].
    { intros g. apply storyFrame_story; cbn; [done|done|by apply prefix_app_r]. }
    apply preserves_bind; [done| |intros _].
    { destruct (Dialog.choice_effects choice);
        [apply storyFrame_applyEffects|by apply preserves_ret]. }
    apply preserves_bind; [done| |intros _; by apply walk_playNode].
    destruct (Dialog.choice_favorChange choice) as [entries|];
      [|by apply preserves_ret].
    apply preserves_forEach; [done|done|]. intros [charId delta].
    apply preserves_bind; [done|apply storyFrame_changeFavor|].
    intros _. by apply preserves_ret.
  - intros choiceId. apply walk_dialog_selectChoice; try done.
    intros nodeId. by apply walk_dialogCallbacks.
  - apply walk_dialog_next; try done.
    intros nodeId. by apply walk_dialogCallbacks.
Qed.

(** X18. Walking the story never changes a character, the choice history
    or the story's own flags: [playNode], [playChapter], [next] and
    [jumpTo] of the story, and [selectChoice] and [next] of the dialog
    with the story's callbacks, leave all three as they are. The dialog's
    [selectChoice] only announces the favor changes and the effects of a
    choice; they take effect through the story's [selectChoice] alone. *)
Theorem walk_changes_no_character (fuel : nat) :
  (forall nodeId, preserves walkFrame (StoryManager.playNode fuel nodeId))
  /\ (forall chapterId, preserves walkFrame (StoryManager.playChapter fuel chapterId))
  /\ preserves walkFrame (StoryManager.next fuel)
  /\ (forall chapterId nodeId,
        preserves walkFrame (StoryManager.jumpTo fuel chapterId nodeId))
  /\ (forall choiceId,
        preserves walkFrame
          (DialogSystem.selectChoice (StoryManager.dialogCallbacks fuel) choiceId))
  /\ preserves walkFrame (DialogSystem.next (StoryManager.dialogCallbacks fuel)).
Proof.
  assert (H1 : forall g, walkFrame g g) by done.
  pose proof walkFrame_trans as H2.
  assert (H3 : forall g ev, walkFrame g (with_emitted (emitted g ++ ev) g)) by done.
  assert (H4 : forall g d, walkFrame g (with_dialog d g)) by done.
  assert (H5 : forall g m, walkFrame g (with_stateMachine m g)) by done.
  assert (H6 : forall g nodeId,
            walkFrame g (with_story (StoryManager.enterNode nodeId (story g)) g))
    by done.
  assert (H7 : forall g chapter,
            walkFrame g
              (with_story (StoryManager.set_currentChapter chapter (story g)) g))
    by done.
  split; [intros; by apply walk_playNode|].
  split; [intros; by apply walk_playChapter|].
  split; [by apply walk_next|].
  split; [intros; by apply walk_jumpTo|]. split.
  - intros choiceId. apply walk_dialog_selectChoice; try done.
    intros nodeId. by apply walk_dialogCallbacks.
  - apply walk_dialog_next; try done.
    intros nodeId. by apply walk_dialogCallbacks.
Qed.

(* ===================================================================== *)
(** * Story play: where a walk stops *)
(* ===================================================================== *)

Section StoryWalk.
Import Dialog Story.

Lemma bind_Ok {A B} (m : M A) (k : A -> M B) (g g1 : Game) (a : A) :
  m g = Ok a g1 -> bind m k g = k a g1.
Proof. intros H. unfold bind. by rewrite H. Qed.

Lemma with_emitted_nil (g : Game) : with_emitted (emitted g ++ []) g = g.
Proof. destruct g; cbn. by rewrite app_nil_r. Qed.

Lemma with_emitted_app (g : Game) (ev1 ev2 : list Emitted) :
  with_emitted (emitted (with_emitted (emitted g ++ ev1) g) ++ ev2)
    (with_emitted (emitted g ++ ev1) g)
  = with_emitted (emitted g ++ (ev1 ++ ev2)) g.
Proof. unfold with_emitted; cbn. by rewrite <- app_assoc. Qed.

Lemma dialog_applyEffects_emits (effects : list Effect) (g : Game) :
  exists ev,
    DialogSystem.applyEffects effects g = Ok tt (with_emitted (emitted g ++ ev) g).
Proof.
  unfold DialogSystem.applyEffects. revert g.
  induction effects as [|effect effects IH]; intros g; cbn [forEach].
  - exists []. unfold ret. by rewrite with_emitted_nil.
  - assert (Hstep : exists ev1,
              match effect_type effect with
              | eff_favor =>
                  emit (fromDialog (favorChanged (effect_target effect)
                                      (effect_value effect)))
              | eff_flag =>
                  emit (fromDialog (flagSet (effect_target effect)
                                      (effect_value effect)))
              | eff_unlock => emit (fromDialog (contentUnlocked (effect_target effect)))
              | _ => ret tt
              end g = Ok tt (with_emitted (emitted g ++ ev1) g)).
    { destruct (effect_type effect);
        first [by eexists [_] | exists []; unfold ret; by rewrite with_emitted_nil]. }
    destruct Hstep as [ev1 Hstep]. erewrite bind_Ok by exact Hstep.
    destruct (IH (with_emitted (emitted g ++ ev1) g)) as [ev2 ->].
    exists (ev1 ++ ev2). by rewrite with_emitted_app.
Qed.

(** [DialogSystem.playNode] up to its [switch]: the node is made current
    and some notifications are sent. *)
Lemma dialog_playNode_switch (cb : string -> M unit) (node : StoryNode) (g : Game) :
  exists ev,
    DialogSystem.playNode cb node g
    = match node_type node with
      | DIALOG | NARRATION => DialogSystem.playDialog node
      | CHOICE => DialogSystem.playChoice node
      | END => DialogSystem.playEnding
      | _ => DialogSystem.next cb
      end
        (with_emitted (emitted g ++ ev)
           (with_dialog (DialogSystem.set_currentNode node (dialog g)) g)).
Proof.
  unfold DialogSystem.playNode.
  erewrite bind_Ok by reflexivity.
  set (g1 := with_dialog (DialogSystem.set_currentNode node (dialog g)) g).
  assert (H1 : exists ev1,
            match node_effects node with
            | Some effects => DialogSystem.applyEffects effects
            | None => ret tt
            end g1 = Ok tt (with_emitted (emitted g1 ++ ev1) g1)).
  { destruct (node_effects node); [apply dialog_applyEffects_emits|].
    exists []. unfold ret. by rewrite with_emitted_nil. }
  destruct H1 as [ev1 H1]. erewrite bind_Ok by exact H1.
  assert (H2 : exists ev2,
            match truthyString (node_background node) with
            | Some bgName => emit (fromDialog (backgroundChanged bgName))
            | None => ret tt
            end (with_emitted (emitted g1 ++ ev1) g1)
            = Ok tt (with_emitted (emitted g1 ++ (ev1 ++ ev2)) g1)).
  { destruct (truthyString (node_background node)).
    - eexists [_]. unfold emit, modify. by rewrite with_emitted_app.
    - exists []. unfold ret. by rewrite app_nil_r. }
  destruct H2 as [ev2 H2]. erewrite bind_Ok by exact H2.
  assert (H3 : exists ev3,
            match node_character node with
            | Some display => emit (fromDialog (characterShown display))
            | None => emit (fromDialog allCharactersHidden)
            end (with_emitted (emitted g1 ++ (ev1 ++ ev2)) g1)
            = Ok tt (with_emitted (emitted g1 ++ ((ev1 ++ ev2) ++ ev3)) g1)).
  { destruct (node_character node); eexists [_]; unfold emit, modify;
      by rewrite with_emitted_app. }
  destruct H3 as [ev3 H3]. erewrite bind_Ok by exact H3.
  by exists ((ev1 ++ ev2) ++ ev3).
Qed.

Lemma changeState_run (s : GameStateMachine.GameState) (g : Game) :
  changeState s g
  = Ok (GameStateMachine.canTransition s (stateMachine g))
       (with_emitted
          (emitted g
           ++ map fromStateMachine
                (GameStateMachine.changeState s JsUndefined (stateMachine g)).2)
          (with_stateMachine
             (GameStateMachine.changeState s JsUndefined (stateMachine g)).1.2 g)).
Proof.
  unfold changeState, GameStateMachine.changeState.
  by destruct (GameStateMachine.canTransition s (stateMachine g)).
Qed.

Lemma changeState_mode (s : GameStateMachine.GameState) (d : JsValue)
    (m : GameStateMachine.t) :
  GameStateMachine._currentState (GameStateMachine.changeState s d m).1.2
  = if GameStateMachine.canTransition s m then s
    else GameStateMachine._currentState m.
Proof.
  unfold GameStateMachine.changeState.
  by destruct (GameStateMachine.canTransition s m).
Qed.

(** [StoryManager.playNode] on a node of the current chapter, up to the
    dialog's [switch]. *)
Lemma playNode_known (fuel : nat) (g : Game) (chapter : Chapter) (nodeId : string)
    (node : StoryNode) :
  _currentChapter (story g) = Some chapter ->
  lookupNode nodeId (chapter_nodes chapter) = Some node ->
  exists ev,
    StoryManager.playNode (S fuel) nodeId g
    = ((match node_type node with
        | DIALOG | NARRATION => DialogSystem.playDialog node
        | CHOICE => DialogSystem.playChoice node
        | END => DialogSystem.playEnding
        | _ => DialogSystem.next
                 (fun nextNodeId => StoryManager.playNode fuel nextNodeId;; ret tt)
        end);;
       emit (fromStory (nodePlayed node));;
       ret true)
        (with_emitted (emitted g ++ ev)
           (with_dialog
              (DialogSystem.set_currentNode node
                 (DialogSystem.set_storySubscribed true (dialog g)))
              (with_story (StoryManager.enterNode nodeId (story g)) g))).
Proof.
  intros Hch Hnode. cbn [StoryManager.playNode].
  erewrite bind_Ok by reflexivity. rewrite Hch, Hnode.
  erewrite bind_Ok by reflexivity. erewrite bind_Ok by reflexivity.
  destruct (dialog_playNode_switch
              (fun nextNodeId => StoryManager.playNode fuel nextNodeId;; ret tt) node
              (with_dialog (DialogSystem.set_storySubscribed true (dialog g))
                 (with_story (StoryManager.enterNode nodeId (story g)) g)))
    as [ev Hsw].
  exists ev. unfold bind at 1.
  match goal with
  | |- match ?run with Ok _ _ => _ | Threw _ => _ | OutOfFuel => _ end = _ =>
      replace run with
        (match node_type node with
         | DIALOG | NARRATION => DialogSystem.playDialog node
         | CHOICE => DialogSystem.playChoice node
         | END => DialogSystem.playEnding
         | _ => DialogSystem.next
                  (fun nextNodeId => StoryManager.playNode fuel nextNodeId;; ret tt)
         end
           (with_emitted (emitted g ++ ev)
              (with_dialog
                 (DialogSystem.set_currentNode node
                    (DialogSystem.set_storySubscribed true (dialog g)))
                 (with_story (StoryManager.enterNode nodeId (story g)) g))))
        by (symmetry; exact Hsw)
  end.
  reflexivity.
Qed.


End StoryWalk.

(* ===================================================================== *)
(** * Story play with the widgets and the dropped promises *)
(* ===================================================================== *)

Section Widgets.
Import Dialog Story.

Lemma storyNotifications_app (ev1 ev2 : list Emitted) :
  storyNotifications (ev1 ++ ev2) = storyNotifications ev1 ++ storyNotifications ev2.
Proof. apply omap_app. Qed.

Lemma storyNotifications_machine (ns : list GameStateMachine.Notification) :
  storyNotifications (map fromStateMachine ns) = [].
Proof. by induction ns. Qed.

Lemma applyEffects_quiet (effects : list Effect) (g : Game) :
  exists ev,
    storyNotifications ev = []
    /\ DialogSystem.applyEffects effects g
       = Ok tt (with_emitted (emitted g ++ ev) g).
Proof.
  unfold DialogSystem.applyEffects. revert g.
  induction effects as [|effect effects IH]; intros g; cbn [forEach].
  - exists []. split; [done|]. unfold ret. by rewrite with_emitted_nil.
  - assert (Hstep : exists ev1,
              storyNotifications ev1 = []
              /\ match effect_type effect with
                 | eff_favor =>
                     emit (fromDialog (favorChanged (effect_target effect)
                                         (effect_value effect)))
                 | eff_flag =>
                     emit (fromDialog (flagSet (effect_target effect)
                                         (effect_value effect)))
                 | eff_unlock =>
                     emit (fromDialog (contentUnlocked (effect_target effect)))
                 | _ => ret tt
                 end g = Ok tt (with_emitted (emitted g ++ ev1) g)).
    { destruct (effect_type effect);
        first [eexists [_]; split; [|reflexivity]; reflexivity
              | exists []; split; [done|]; unfold ret; by rewrite with_emitted_nil]. }
    destruct Hstep as (ev1 & Hq1 & Hstep). erewrite bind_Ok by exact Hstep.
    destruct (IH (with_emitted (emitted g ++ ev1) g)) as (ev2 & Hq2 & ->).
    exists (ev1 ++ ev2). split.
    + by rewrite storyNotifications_app, Hq1, Hq2.
    + by rewrite with_emitted_app.
Qed.

(** [DialogSystem.playNode] up to its [switch]: the node is made current
    and the dialog sends some notifications of its own. *)
Lemma widgets_playNode_switch (installed : bool) (cb : string -> M unit)
    (node : StoryNode) (g : Game) :
  exists ev,
    storyNotifications ev = []
    /\ DialogWidgets.playNode installed cb node g
       = match node_type node with
         | DIALOG | NARRATION => DialogWidgets.playDialog installed node
         | CHOICE => DialogWidgets.playChoice installed node
         | END => DialogWidgets.playEnding installed
         | _ => DialogWidgets.next installed cb
         end
           (with_emitted (emitted g ++ ev)
              (with_dialog (DialogSystem.set_currentNode node (dialog g)) g)).
Proof.
  unfold DialogWidgets.playNode.
  erewrite bind_Ok by reflexivity.
  set (g1 := with_dialog (DialogSystem.set_currentNode node (dialog g)) g).
  assert (H1 : exists ev1,
            storyNotifications ev1 = []
            /\ match node_effects node with
               | Some effects => DialogSystem.applyEffects effects
               | None => ret tt
               end g1 = Ok tt (with_emitted (emitted g1 ++ ev1) g1)).
  { destruct (node_effects node); [apply applyEffects_quiet|].
    exists []. split; [done|]. unfold ret. by rewrite with_emitted_nil. }
  destruct H1 as (ev1 & Hq1 & H1). erewrite bind_Ok by exact H1.
  assert (H2 : exists ev2,
            storyNotifications ev2 = []
            /\ match truthyString (node_background node) with
               | Some bgName => emit (fromDialog (backgroundChanged bgName))
               | None => ret tt
               end (with_emitted (emitted g1 ++ ev1) g1)
               = Ok tt (with_emitted (emitted g1 ++ (ev1 ++ ev2)) g1)).
  { destruct (truthyString (node_background node)).
    - eexists [_]. split; [|unfold emit, modify; by rewrite with_emitted_app]. done.
    - exists []. split; [done|]. unfold ret. by rewrite app_nil_r. }
  destruct H2 as (ev2 & Hq2 & H2). erewrite bind_Ok by exact H2.
  assert (H3 : exists ev3,
            storyNotifications ev3 = []
            /\ match node_character node with
               | Some display => emit (fromDialog (characterShown display))
               | None => emit (fromDialog allCharactersHidden)
               end (with_emitted (emitted g1 ++ (ev1 ++ ev2)) g1)
               = Ok tt (with_emitted (emitted g1 ++ ((ev1 ++ ev2) ++ ev3)) g1)).
  { destruct (node_character node); eexists [_];
      (split; [|unfold emit, modify; by rewrite with_emitted_app]); done. }
  destruct H3 as (ev3 & Hq3 & H3). erewrite bind_Ok by exact H3.
  exists ((ev1 ++ ev2) ++ ev3). split; [|done].
  by rewrite !storyNotifications_app, Hq1, Hq2, Hq3.
Qed.

(** [StoryManager.playNode] on a node of the current chapter, up to the
    dialog's [switch]. *)
Lemma widgets_playNode_known (installed : bool) (fuel : nat) (g : Game)
    (chapter : Chapter) (nodeId : string) (node : StoryNode) :
  _currentChapter (story g) = Some chapter ->
  lookupNode nodeId (chapter_nodes chapter) = Some node ->
  exists ev,
    storyNotifications ev = []
    /\ StoryWidgets.playNode installed (S fuel) nodeId g
       = ((match node_type node with
           | DIALOG | NARRATION => DialogWidgets.playDialog installed node
           | CHOICE => DialogWidgets.playChoice installed node
           | END => DialogWidgets.playEnding installed
           | _ => DialogWidgets.next installed
                    (fun nextNodeId =>
                       StoryWidgets.dropPromise
                         (StoryWidgets.playNode installed fuel nextNodeId))
           end);;
          emit (fromStory (nodePlayed node));;
          ret true)
           (with_emitted (emitted g ++ ev)
              (with_dialog
                 (DialogSystem.set_currentNode node
                    (DialogSystem.set_storySubscribed true (dialog g)))
                 (with_story (StoryManager.enterNode nodeId (story g)) g))).
Proof.
  intros Hch Hnode. cbn [StoryWidgets.playNode].
  erewrite bind_Ok by reflexivity. rewrite Hch, Hnode.
  erewrite bind_Ok by reflexivity. erewrite bind_Ok by reflexivity.
  destruct (widgets_playNode_switch installed
              (fun nextNodeId =>
                 StoryWidgets.dropPromise
                   (StoryWidgets.playNode installed fuel nextNodeId)) node
              (with_dialog (DialogSystem.set_storySubscribed true (dialog g))
                 (with_story (StoryManager.enterNode nodeId (story g)) g)))
    as (ev & Hq & Hsw).
  exists ev. split; [exact Hq|]. unfold bind at 1.
  match goal with
  | |- match ?run with Ok _ _ => _ | Threw _ => _ | OutOfFuel => _ end = _ =>
      replace run with
        (match node_type node with
         | DIALOG | NARRATION => DialogWidgets.playDialog installed node
         | CHOICE => DialogWidgets.playChoice installed node
         | END => DialogWidgets.playEnding installed
         | _ => DialogWidgets.next installed
                  (fun nextNodeId =>
                     StoryWidgets.dropPromise
                       (StoryWidgets.playNode installed fuel nextNodeId))
         end
           (with_emitted (emitted g ++ ev)
              (with_dialog
                 (DialogSystem.set_currentNode node
                    (DialogSystem.set_storySubscribed true (dialog g)))
                 (with_story (StoryManager.enterNode nodeId (story g)) g))))
        by (symmetry; exact Hsw)
  end.
  reflexivity.
Qed.

(** What the [switch] does for a node that is displayed: with the widgets
    it returns; without them it throws at the first write to a widget,
    after the request to the state machine. *)
Lemma widgets_displayed (installed : bool) (node : StoryNode) (g : Game) :
  node_type node ∈ [DIALOG; NARRATION; CHOICE; END] ->
  exists g',
    match node_type node with
    | DIALOG | NARRATION => DialogWidgets.playDialog installed node
    | CHOICE => DialogWidgets.playChoice installed node
    | _ => DialogWidgets.playEnding installed
    end g = (if installed then Ok tt g' else Threw g')
    /\ story g' = story g
    /\ _currentNode (dialog g') = _currentNode (dialog g)
    /\ GameStateMachine._currentState (stateMachine g')
       = (if GameStateMachine.canTransition (modeOf (node_type node)) (stateMachine g)
          then modeOf (node_type node)
          else GameStateMachine._currentState (stateMachine g))
    /\ storyNotifications (emitted g') = storyNotifications (emitted g)
    /\ _isTyping (dialog g')
       = match node_type node with
         | DIALOG | NARRATION => if installed then true else _isTyping (dialog g)
         | CHOICE => false
         | _ => _isTyping (dialog g)
         end
    /\ _currentText (dialog g')
       = match node_type node with
         | DIALOG | NARRATION =>
             if installed then node_content node else _currentText (dialog g)
         | _ => _currentText (dialog g)
         end.
Proof.
  intros Htype.
  destruct (node_type node) eqn:E; cbn [modeOf];
    try (apply (bool_decide_pack _) in Htype; by vm_compute in Htype).
  all: unfold DialogWidgets.playDialog, DialogWidgets.playChoice,
         DialogWidgets.playEnding;
    erewrite bind_Ok by apply changeState_run;
    destruct installed; (eexists; split; [reflexivity|]);
    cbn -[storyNotifications GameStateMachine.changeState];
    (split; [reflexivity|]); (split; [reflexivity|]);
    (split; [apply changeState_mode|]); (split; [|done]);
    rewrite !storyNotifications_app, storyNotifications_machine;
    cbn; by rewrite ?app_nil_r.
Qed.

(** [playNode] on a node that is displayed, with and without the
    widgets. *)
Lemma widgets_playNode_displayed (installed : bool) (fuel : nat) (g : Game)
    (chapter : Chapter) (nodeId : string) (node : StoryNode) :
  _currentChapter (story g) = Some chapter ->
  lookupNode nodeId (chapter_nodes chapter) = Some node ->
  node_type node ∈ [DIALOG; NARRATION; CHOICE; END] ->
  exists g',
    StoryWidgets.playNode installed (S fuel) nodeId g
    = (if installed then Ok true g' else Threw g')
    /\ _currentChapter (story g') = Some chapter
    /\ _currentNodeId (story g') = nodeId
    /\ _visitedNodes (story g') = {[nodeId]} ∪ _visitedNodes (story g)
    /\ _currentNode (dialog g') = Some node
    /\ GameStateMachine._currentState (stateMachine g')
       = (if GameStateMachine.canTransition (modeOf (node_type node)) (stateMachine g)
          then modeOf (node_type node)
          else GameStateMachine._currentState (stateMachine g))
    /\ storyNotifications (emitted g')
       = storyNotifications (emitted g)
         ++ (if installed then [nodePlayed node] else [])
    /\ (installed = true -> last (emitted g') = Some (fromStory (nodePlayed node)))
    /\ _isTyping (dialog g')
       = match node_type node with
         | DIALOG | NARRATION => if installed then true else _isTyping (dialog g)
         | CHOICE => false
         | _ => _isTyping (dialog g)
         end
    /\ _currentText (dialog g')
       = match node_type node with
         | DIALOG | NARRATION =>
             if installed then node_content node else _currentText (dialog g)
         | _ => _currentText (dialog g)
         end.
Proof.
  intros Hch Hnode Htype.
  destruct (widgets_playNode_known installed fuel g chapter nodeId node Hch Hnode)
    as (ev & Hq & ->).
  set (g1 := with_emitted _ _).
  destruct (widgets_displayed installed node g1 Htype)
    as (g2 & Hrun & Hs & Hn & Hm & Hsn & Ht & Hx).
  assert (Hrun' :
            match node_type node with
            | DIALOG | NARRATION => DialogWidgets.playDialog installed node
            | CHOICE => DialogWidgets.playChoice installed node
            | END => DialogWidgets.playEnding installed
            | _ => DialogWidgets.next installed
                     (fun nextNodeId =>
                        StoryWidgets.dropPromise
                          (StoryWidgets.playNode installed fuel nextNodeId))
            end g1 = (if installed then Ok tt g2 else Threw g2)).
  { rewrite <- Hrun. destruct (node_type node); try reflexivity;
      apply (bool_decide_pack _) in Htype; by vm_compute in Htype. }
  assert (Hsn1 : storyNotifications (emitted g1) = storyNotifications (emitted g)).
  { subst g1. cbn [emitted with_emitted].
    by rewrite storyNotifications_app, Hq, app_nil_r. }
  destruct installed.
  - exists (with_emitted (emitted g2 ++ [fromStory (nodePlayed node)]) g2).
    erewrite bind_Ok by exact Hrun'. split; [reflexivity|].
    cbn [story dialog emitted stateMachine with_emitted].
    rewrite Hs, Hn, Hm, Ht, Hx, storyNotifications_app, Hsn, Hsn1.
    subst g1. cbn -[storyNotifications].
    split; [exact Hch|]. do 4 (split; [reflexivity|]).
    split; [reflexivity|]. split; [intros _; apply last_snoc|]. done.
  - exists g2. unfold bind at 1. rewrite Hrun'. split; [reflexivity|].
    rewrite Hs, Hn, Hm, Ht, Hx, Hsn, Hsn1, app_nil_r.
    subst g1. cbn -[storyNotifications].
    split; [exact Hch|]. by do 4 (split; [reflexivity|]).
Qed.

End Widgets.

(** X19. [playNode] on a node of the current chapter whose type is
    DIALOG, NARRATION, CHOICE or END, with any bound of at least one on
    the depth of the walk. The methods that display such a node write to
    the widgets of the dialog, which are [null] until
    [DialogSystem.init] has handed them over.

    - With the widgets, [playNode] returns [true] and ['nodePlayed'] is
      the last notification; the dialog is typing the node's text after
      a DIALOG or NARRATION node.
    - Without them, [playNode] throws and the story manager announces
      nothing; after a DIALOG or NARRATION node the dialog types as
      before and holds the text it held.
    - Either way the chapter stays current, the node has become the
      current node of the story and of the dialog and is among the
      visited nodes; the state machine has been asked for the mode of
      the node (DIALOG, CHOICE or ENDING) and has changed to it exactly
      if the transition is allowed; the dialog is not typing after a
      CHOICE node and types as before after an END node. *)
Theorem playNode_displayed_node_needs_widgets (installed : bool) (fuel : nat)
    (g : Game) (chapter : Story.Chapter) (nodeId : string) (node : Dialog.StoryNode) :
  Story._currentChapter (story g) = Some chapter ->
  Story.lookupNode nodeId (Story.chapter_nodes chapter) = Some node ->
  Dialog.node_type node ∈ [Dialog.DIALOG; Dialog.NARRATION; Dialog.CHOICE; Dialog.END] ->
  exists g',
    StoryWidgets.playNode installed (S fuel) nodeId g
    = (if installed then Ok true g' else Threw g')
    /\ Story._currentChapter (story g') = Some chapter
    /\ Story._currentNodeId (story g') = nodeId
    /\ Story._visitedNodes (story g') = {[nodeId]} ∪ Story._visitedNodes (story g)
    /\ Dialog._currentNode (dialog g') = Some node
    /\ GameStateMachine._currentState (stateMachine g')
       = (if GameStateMachine.canTransition (modeOf (Dialog.node_type node))
               (stateMachine g)
          then modeOf (Dialog.node_type node)
          else GameStateMachine._currentState (stateMachine g))
    /\ storyNotifications (emitted g')
       = storyNotifications (emitted g)
         ++ (if installed then [Story.nodePlayed node] else [])
    /\ (installed = true ->
        last (emitted g') = Some (fromStory (Story.nodePlayed node)))
    /\ Dialog._isTyping (dialog g')
       = match Dialog.node_type node with
         | Dialog.DIALOG | Dialog.NARRATION =>
             if installed then true else Dialog._isTyping (dialog g)
         | Dialog.CHOICE => false
         | _ => Dialog._isTyping (dialog g)
         end
    /\ Dialog._currentText (dialog g')
       = match Dialog.node_type node with
         | Dialog.DIALOG | Dialog.NARRATION =>
             if installed then Dialog.node_content node
             else Dialog._currentText (dialog g)
         | _ => Dialog._currentText (dialog g)
         end.
Proof. apply widgets_playNode_displayed. Qed.

Lemma playNode_displayed_node_needs_widgets_witness :
  let g := gameInChapter (chapterOf [textNode "c" Dialog.DIALOG (Some "b")]) in
  (exists g',
     StoryWidgets.playNode false 1 "c" g = Threw g'
     /\ Story._currentNodeId (story g') = "c"
     /\ storyNotifications (emitted g') = []
     /\ Dialog._isTyping (dialog g') = false
     /\ GameStateMachine._currentState (stateMachine g') = GameStateMachine.BOOT)
  /\ (exists g',
        StoryWidgets.playNode true 1 "c" g = Ok true g'
        /\ Story._currentNodeId (story g') = "c"
        /\ storyNotifications (emitted g')
           = [Story.nodePlayed (textNode "c" Dialog.DIALOG (Some "b")).2]
        /\ Dialog._isTyping (dialog g') = true
        /\ GameStateMachine._currentState (stateMachine g') = GameStateMachine.BOOT).
Proof.
  intros g.
  assert (Htype : Dialog.node_type (textNode "c" Dialog.DIALOG (Some "b")).2
                  ∈ [Dialog.DIALOG; Dialog.NARRATION; Dialog.CHOICE; Dialog.END])
    by (apply (bool_decide_unpack _); by vm_compute).
  split.
  - destruct (playNode_displayed_node_needs_widgets false 0 g
                (chapterOf [textNode "c" Dialog.DIALOG (Some "b")])
                "c" (textNode "c" Dialog.DIALOG (Some "b")).2
                eq_refl eq_refl Htype)
      as (g' & Hrun & _ & Hid & _ & _ & Hmode & Hsn & _ & Htyping & _).
    exists g'. split; [exact Hrun|]. split; [exact Hid|]. split; [exact Hsn|].
    split; [exact Htyping|exact Hmode].
  - destruct (playNode_displayed_node_needs_widgets true 0 g
                (chapterOf [textNode "c" Dialog.DIALOG (Some "b")])
                "c" (textNode "c" Dialog.DIALOG (Some "b")).2
                eq_refl eq_refl Htype)
      as (g' & Hrun & _ & Hid & _ & _ & Hmode & Hsn & _ & Htyping & _).
    exists g'. split; [exact Hrun|]. split; [exact Hid|]. split; [exact Hsn|].
    split; [exact Htyping|exact Hmode].
Defined.

Section AutoAdvance.
Import Dialog Story.

Lemma autoAdvanceLoop_step (chapter : Chapter) (loop : list string) (nodeId : string) :
  autoAdvanceLoop chapter loop = true -> nodeId ∈ loop ->
  exists node nextId,
    lookupNode nodeId (chapter_nodes chapter) = Some node
    /\ node_type node ∈ [EVENT; BRANCH]
    /\ truthyString (node_next node) = Some nextId
    /\ nextId ∈ loop.
Proof.
  intros Hloop Hin. unfold autoAdvanceLoop in Hloop.
  rewrite forallb_forall in Hloop.
  specialize (Hloop nodeId). rewrite <- list_elem_of_In in Hloop.
  specialize (Hloop Hin).
  destruct (lookupNode nodeId (chapter_nodes chapter)) as [node|]; [|done].
  apply andb_true_iff in Hloop as [Htype Hnext].
  destruct (truthyString (node_next node)) as [nextId|] eqn:En; [|done].
  exists node, nextId. split; [done|].
  split; [by apply bool_decide_eq_true in Htype|].
  split; [done|]. by apply bool_decide_eq_true in Hnext.
Qed.

(** [DialogSystem.next] on a node that leads on, when no line is being
    typed: the successor is requested from the callback, and no widget is
    written to. *)
Lemma widgets_next_requests (installed : bool) (cb : string -> M unit) (g : Game)
    (node : StoryNode) (nextId : string) :
  _isTyping (dialog g) = false ->
  _currentNode (dialog g) = Some node ->
  truthyString (node_next node) = Some nextId ->
  DialogWidgets.next installed cb g
  = cb nextId (with_emitted (emitted g ++ [fromDialog (requestNode nextId)]) g).
Proof.
  intros Ht Hn Hnext. unfold DialogWidgets.next.
  erewrite bind_Ok by reflexivity. rewrite Ht, Hn, Hnext.
  erewrite bind_Ok by reflexivity. reflexivity.
Qed.

(** The walk of [playNode] through such a set of nodes is deeper than
    any bound, with or without the widgets. *)
Lemma widgets_playNode_loop_deeper (installed : bool) (fuel : nat) (g : Game)
    (chapter : Chapter) (loop : list string) (nodeId : string) :
  _currentChapter (story g) = Some chapter ->
  autoAdvanceLoop chapter loop = true ->
  nodeId ∈ loop ->
  _isTyping (dialog g) = false ->
  StoryWidgets.playNode installed fuel nodeId g = OutOfFuel.
Proof.
  intros Hch Hloop. revert g nodeId Hch.
  induction fuel as [|fuel IH]; intros g nodeId Hch Hin Htyping; [reflexivity|].
  destruct (autoAdvanceLoop_step chapter loop nodeId Hloop Hin)
    as (node & nextId & Hnode & Htype & Hnext & Hin').
  destruct (widgets_playNode_known installed fuel g chapter nodeId node Hch Hnode)
    as (ev & _ & ->).
  set (g1 := with_emitted _ _).
  assert (Hnextcall :
            match node_type node with
            | DIALOG | NARRATION => DialogWidgets.playDialog installed node
            | CHOICE => DialogWidgets.playChoice installed node
            | END => DialogWidgets.playEnding installed
            | _ => DialogWidgets.next installed
                     (fun nextNodeId =>
                        StoryWidgets.dropPromise
                          (StoryWidgets.playNode installed fuel nextNodeId))
            end g1 = OutOfFuel).
  { assert (Hrun : DialogWidgets.next installed
                     (fun nextNodeId =>
                        StoryWidgets.dropPromise
                          (StoryWidgets.playNode installed fuel nextNodeId))
                     g1 = OutOfFuel).
    { rewrite (widgets_next_requests installed _ g1 node nextId);
        [|exact Htyping|done|exact Hnext].
      unfold StoryWidgets.dropPromise.
      rewrite IH; [done|exact Hch|exact Hin'|exact Htyping]. }
    destruct (node_type node); try exact Hrun;
      apply (bool_decide_pack _) in Htype; by vm_compute in Htype. }
  unfold bind at 1. by rewrite Hnextcall.
Qed.

End AutoAdvance.

(** X20. A walk that enters a set of EVENT and BRANCH nodes closed under
    [next] while no line is being typed nests without bound: each node
    hands on to its successor inside its own [playNode], before it has
    announced ['nodePlayed'], so whatever bound is put on the depth of
    the nesting, the walk goes deeper. This holds with and without the
    widgets, which such a walk never writes to. What the host does once
    its call stack is exhausted is not part of the embedding. *)
Theorem playNode_in_event_loop_exceeds_every_depth (installed : bool) (fuel : nat)
    (g : Game) (chapter : Story.Chapter) (loop : list string) (nodeId : string) :
  Story._currentChapter (story g) = Some chapter ->
  autoAdvanceLoop chapter loop = true ->
  nodeId ∈ loop ->
  Dialog._isTyping (dialog g) = false ->
  StoryWidgets.playNode installed fuel nodeId g = OutOfFuel.
Proof.
  intros Hch Hloop Hin Htyping.
  by apply (widgets_playNode_loop_deeper installed fuel g chapter loop).
Qed.

Lemma playNode_in_event_loop_exceeds_every_depth_witness :
  let g := gameInChapter (chapterOf [textNode "a" Dialog.EVENT (Some "b");
                                     textNode "b" Dialog.BRANCH (Some "a")]) in
  StoryWidgets.playNode false 50 "a" g = OutOfFuel
  /\ StoryWidgets.playNode true 50 "a" g = OutOfFuel.
Proof.
  intros g. split.
  - apply (playNode_in_event_loop_exceeds_every_depth false 50 g
             (chapterOf [textNode "a" Dialog.EVENT (Some "b");
                         textNode "b" Dialog.BRANCH (Some "a")])
             ["a"; "b"]).
    + reflexivity.
    + by vm_compute.
    + apply (bool_decide_unpack _). by vm_compute.
    + reflexivity.
  - apply (playNode_in_event_loop_exceeds_every_depth true 50 g
             (chapterOf [textNode "a" Dialog.EVENT (Some "b");
                         textNode "b" Dialog.BRANCH (Some "a")])
             ["a"; "b"]).
    + reflexivity.
    + by vm_compute.
    + apply (bool_decide_unpack _). by vm_compute.
    + reflexivity.
Defined.

(** X21. [playNode] on an EVENT or BRANCH node of the current chapter
    while a line is being typed does not follow the node's [next]: the
    dialog takes the request as a fast-forward and only stops the typing.
    The call returns [true] with any bound of at least one; the node is
    the current node and the only node added to the visited ones, and the
    mode is unchanged. *)
Theorem playNode_event_while_typing_stops (fuel : nat) (g : Game)
    (chapter : Story.Chapter) (nodeId : string) (node : Dialog.StoryNode) :
  Story._currentChapter (story g) = Some chapter ->
  Story.lookupNode nodeId (Story.chapter_nodes chapter) = Some node ->
  Dialog.node_type node ∈ [Dialog.EVENT; Dialog.BRANCH] ->
  Dialog._isTyping (dialog g) = true ->
  match StoryManager.playNode (S fuel) nodeId g with
  | Ok r g' =>
      r = true
      /\ Dialog._isTyping (dialog g') = false
      /\ Story._currentNodeId (story g') = nodeId
      /\ Story._visitedNodes (story g') = {[nodeId]} ∪ Story._visitedNodes (story g)
      /\ Dialog._currentNode (dialog g') = Some node
      /\ stateMachine g' = stateMachine g
      /\ last (emitted g') = Some (fromStory (Story.nodePlayed node))
  | _ => False
  end.
Proof.
  intros Hch Hnode Htype Htyping.
  destruct (playNode_known fuel g chapter nodeId node Hch Hnode) as [ev ->].
  set (g1 := with_emitted _ _).
  assert (Hrun :
            match Dialog.node_type node with
            | Dialog.DIALOG | Dialog.NARRATION => DialogSystem.playDialog node
            | Dialog.CHOICE => DialogSystem.playChoice node
            | Dialog.END => DialogSystem.playEnding
            | _ => DialogSystem.next
                     (fun nextNodeId => StoryManager.playNode fuel nextNodeId;; ret tt)
            end g1
            = Ok tt (with_dialog (DialogSystem.set_isTyping false (dialog g1)) g1)).
  { assert (Hnext : DialogSystem.next
                      (fun nextNodeId => StoryManager.playNode fuel nextNodeId;; ret tt)
                      g1
                    = Ok tt (with_dialog (DialogSystem.set_isTyping false (dialog g1)) g1)).
    { unfold DialogSystem.next. erewrite bind_Ok by reflexivity.
      replace (Dialog._isTyping (dialog g1)) with true by (symmetry; exact Htyping).
      reflexivity. }
    destruct (Dialog.node_type node); try exact Hnext;
      apply (bool_decide_pack _) in Htype; by vm_compute in Htype. }
  erewrite bind_Ok by exact Hrun. cbn [bind emit modify ret].
  subst g1. cbn.
  repeat (split; [reflexivity|]). apply last_snoc.
Qed.

Lemma playNode_event_while_typing_stops_witness :
  let chapter := chapterOf [textNode "a" Dialog.EVENT (Some "b");
                            textNode "b" Dialog.DIALOG None] in
  let g := with_dialog (DialogSystem.set_isTyping true Dialog.new)
             (gameInChapter chapter) in
  match StoryManager.playNode 5 "a" g with
  | Ok r g' =>
      r = true
      /\ Story._currentNodeId (story g') = "a"
      /\ Dialog._isTyping (dialog g') = false
  | _ => False
  end.
Proof.
  intros chapter g.
  assert (Htype : Dialog.node_type (textNode "a" Dialog.EVENT (Some "b")).2
                  ∈ [Dialog.EVENT; Dialog.BRANCH])
    by (apply (bool_decide_unpack _); by vm_compute).
  pose proof (playNode_event_while_typing_stops 4 g chapter "a"
                (textNode "a" Dialog.EVENT (Some "b")).2 eq_refl eq_refl Htype eq_refl)
    as H.
  destruct (StoryManager.playNode 5 "a" g) as [r g'|g'|]; try done.
  destruct H as (Hr & Ht & Hid & _). by repeat split.
Defined.


(* ===================================================================== *)
(** * Story play: choices, chapters and the end of the story *)
(* ===================================================================== *)

Section ChoiceFacts.
Import Dialog Story.

Lemma changeFavor_run (c : string) (d : Z) (g : Game) :
  changeFavor c d g
  = Ok (CharacterSystem.changeFavor c d (characters g)).1.1
       (with_emitted
          (emitted g
           ++ map fromCharacters (CharacterSystem.changeFavor c d (characters g)).2)
          (with_characters (CharacterSystem.changeFavor c d (characters g)).1.2 g)).
Proof.
  unfold changeFavor.
  by destruct (CharacterSystem.changeFavor c d (characters g)) as [[r s] ev].
Qed.

Lemma story_applyEffects_run (effects : list Effect) (g : Game) :
  exists lf,
    StoryManager.applyEffects effects g
    = Ok tt (with_story
               (Story.mk (_config (story g)) (_currentChapter (story g))
                  (_currentNodeId (story g)) lf (_visitedNodes (story g))
                  (_choiceHistory (story g))) g).
Proof.
  unfold StoryManager.applyEffects. revert g.
  induction effects as [|effect effects IH]; intros g; cbn [forEach].
  - exists (_localFlags (story g)). unfold ret. f_equal.
    by destruct g as [? ? ? ? [] ? ? ?].
  - destruct (effect_type effect); erewrite bind_Ok by reflexivity;
      try apply IH.
    destruct (IH (with_story
                    (StoryManager.setLocalFlag (effect_target effect)
                       (effect_value effect) (story g)) g)) as [lf Hlf].
    exists lf. exact Hlf.
Qed.

Lemma favorChange_run (entries : list (string * Z)) (g : Game) :
  exists ev,
    forEach entries (fun '(charId, delta) => changeFavor charId delta;; ret tt) g
    = Ok tt
        (with_emitted (emitted g ++ ev)
           (with_characters
              (runRosterCalls
                 ((fun '(charId, delta) => callChangeFavor charId delta) <$> entries)
                 (characters g)) g)).
Proof.
  revert g. induction entries as [|[charId delta] entries IH]; intros g;
    cbn [forEach fmap list_fmap runRosterCalls fold_left].
  - exists []. unfold ret. f_equal. destruct g; cbn. by rewrite app_nil_r.
  - erewrite bind_Ok; [|erewrite bind_Ok by apply changeFavor_run; reflexivity].
    destruct (IH (with_emitted
                    (emitted g
                     ++ map fromCharacters
                          (CharacterSystem.changeFavor charId delta (characters g)).2)
                    (with_characters
                       (CharacterSystem.changeFavor charId delta (characters g)).1.2
                       g))) as [ev Hev].
    exists (map fromCharacters
              (CharacterSystem.changeFavor charId delta (characters g)).2 ++ ev).
    rewrite Hev. cbn. by rewrite <- app_assoc.
Qed.

(** [selectChoice] up to its jump: the choice is recorded, its effects
    and favor changes are applied, and then the target is played. *)
Lemma selectChoice_run (fuel : nat) (choice : ChoiceData) (g : Game) :
  exists lf ev,
    StoryManager.selectChoice fuel choice g
    = StoryManager.playNode fuel (choice_next choice)
        (with_emitted (emitted g ++ ev)
           (with_characters (runRosterCalls (favorCalls choice) (characters g))
              (with_story
                 (Story.mk (_config (story g)) (_currentChapter (story g))
                    (_currentNodeId (story g)) lf (_visitedNodes (story g))
                    (_choiceHistory (story g) ++ [choice_id choice])) g))).
Proof.
  unfold StoryManager.selectChoice. erewrite bind_Ok by reflexivity.
  set (g1 := with_story (StoryManager.pushChoice (choice_id choice) (story g)) g).
  assert (H1 : exists lf,
            match choice_effects choice with
            | Some effects => StoryManager.applyEffects effects
            | None => ret tt
            end g1
            = Ok tt (with_story
                       (Story.mk (_config (story g)) (_currentChapter (story g))
                          (_currentNodeId (story g)) lf (_visitedNodes (story g))
                          (_choiceHistory (story g) ++ [choice_id choice])) g)).
  { destruct (choice_effects choice) as [effects|].
    - destruct (story_applyEffects_run effects g1) as [lf Hlf]. by exists lf.
    - by exists (_localFlags (story g)). }
  destruct H1 as [lf H1]. erewrite bind_Ok by exact H1.
  set (g2 := with_story _ g).
  assert (H2 : exists ev,
            match choice_favorChange choice with
            | Some entries =>
                forEach entries
                  (fun '(charId, delta) => changeFavor charId delta;; ret tt)
            | None => ret tt
            end g2
            = Ok tt (with_emitted (emitted g2 ++ ev)
                       (with_characters
                          (runRosterCalls (favorCalls choice) (characters g2)) g2))).
  { unfold favorCalls. destruct (choice_favorChange choice) as [entries|].
    - apply favorChange_run.
    - exists []. unfold ret. f_equal. cbn. by rewrite app_nil_r. }
  destruct H2 as [ev H2]. erewrite bind_Ok by exact H2.
  by exists lf, ev.
Qed.

Lemma nodeAt_None (nodeId : string) (nodes : list (string * StoryNode)) :
  nodeAt nodeId nodes = None -> lookupNode nodeId nodes = None.
Proof. unfold nodeAt. by destruct (lookupNode nodeId nodes). Qed.

Lemma playNode_unknown (fuel : nat) (nodeId : string) (g : Game) :
  match _currentChapter (story g) with
  | Some chapter => lookupNode nodeId (chapter_nodes chapter) = None
  | None => True
  end ->
  StoryManager.playNode (S fuel) nodeId g = Ok false g.
Proof.
  intros H. cbn [StoryManager.playNode]. erewrite bind_Ok by reflexivity.
  destruct (_currentChapter (story g)) as [chapter|]; [|done]. by rewrite H.
Qed.

End ChoiceFacts.

(** X22. The story's [selectChoice] records the choice and applies its
    favor changes before it jumps: whenever it returns or throws, the
    choice id has been appended to the history and the roster is the one
    the choice's [changeFavor] calls leave. If there is no chapter, or
    the read of the current chapter's node table by the target of the
    choice finds nothing (neither a node nor a member every object
    inherits), the call returns [false]: the choice stays recorded and
    applied although no node is entered. *)
Theorem selectChoice_applies_before_jump (fuel : nat) (g : Game)
    (choice : Dialog.ChoiceData) :
  match StoryManager.selectChoice fuel choice g with
  | Ok _ g' | Threw g' =>
      Story._choiceHistory (story g')
      = Story._choiceHistory (story g) ++ [Dialog.choice_id choice]
      /\ characters g' = runRosterCalls (favorCalls choice) (characters g)
  | OutOfFuel => True
  end
  /\ (match Story._currentChapter (story g) with
      | Some chapter =>
          nodeAt (Dialog.choice_next choice) (Story.chapter_nodes chapter) = None
      | None => True
      end ->
      fuel <> 0%nat ->
      exists g',
        StoryManager.selectChoice fuel choice g = Ok false g'
        /\ Story._currentNodeId (story g') = Story._currentNodeId (story g)
        /\ Story._visitedNodes (story g') = Story._visitedNodes (story g)
        /\ dialog g' = dialog g
        /\ stateMachine g' = stateMachine g).
Proof.
  destruct (selectChoice_run fuel choice g) as (lf & ev & ->).
  set (g3 := with_emitted _ _). split.
  - pose proof (walkFrame_playNode fuel (Dialog.choice_next choice) g3) as H.
    destruct (StoryManager.playNode fuel (Dialog.choice_next choice) g3)
      as [r g'|g'|]; [| |done]; destruct H as (Hc & Hh & _); by rewrite Hc, Hh.
  - intros Hunknown Hfuel. destruct fuel as [|fuel]; [done|].
    exists g3. rewrite playNode_unknown; [done|].
    subst g3. cbn [story with_emitted with_characters with_story
                   Story._currentChapter].
    destruct (Story._currentChapter (story g)) as [chapter|]; [|done].
    by apply nodeAt_None.
Qed.

Lemma selectChoice_applies_before_jump_witness :
  let choice := Dialog.mkChoiceData "confess" "..." "ch00_09" None None
                  (Some [("heroine_1", 30)]) in
  let g := gameAtNode mockChapter "ch00_01" in
  exists g',
    StoryManager.selectChoice 3 choice g = Ok false g'
    /\ Story._currentNodeId (story g') = "ch00_01"
    /\ Story._choiceHistory (story g') = ["confess"]
    /\ characters g'
       = (CharacterSystem.changeFavor "heroine_1" 30 CharacterSystem.init).1.2.
Proof.
  intros choice g.
  pose proof (selectChoice_applies_before_jump 3 g choice) as [Hany Hunknown].
  destruct (Hunknown eq_refl ltac:(done)) as (g' & Hrun & Hid & _).
  rewrite Hrun in Hany. destruct Hany as [Hh Hc].
  exists g'. split; [exact Hrun|]. split; [exact Hid|]. split; [exact Hh|exact Hc].
Defined.

Section ChapterFacts.
Import Dialog Story.

Lemma widgets_playChapter_open (installed : bool) (fuel : nat) (g : Game)
    (chapter : Chapter) :
  List.find (fun c => bool_decide (chapter_id c = chapter_id chapter))
            (_config (story g)) = Some chapter ->
  match chapter_unlockCondition chapter with
  | Some condition => StoryManager.checkCondition condition (story g) = true
  | None => True
  end ->
  StoryWidgets.playChapter installed fuel (chapter_id chapter) g
  = (match truthyString (StoryManager.firstNodeId chapter) with
     | Some first => StoryWidgets.playNode installed fuel first;; ret tt
     | None => ret tt
     end;;
     emit (fromStory (chapterStarted (chapter_id chapter)));;
     ret true)
      (with_story (StoryManager.set_currentChapter chapter (story g)) g).
Proof.
  intros Hfind Hopen. unfold StoryWidgets.playChapter.
  erewrite bind_Ok by reflexivity. rewrite Hfind.
  destruct (chapter_unlockCondition chapter) as [condition|].
  - rewrite Hopen. cbn [negb]. by erewrite bind_Ok by reflexivity.
  - by erewrite bind_Ok by reflexivity.
Qed.

End ChapterFacts.

(** X23. A chapter whose unlock condition has type ['chapter'] is locked
    exactly as long as no node at all has been visited, whatever the
    condition names. With no visited node [playChapter] returns [false],
    notifies ['chapterLocked'] and changes nothing else, with or without
    the widgets of the dialog. With any visited node it enters the
    chapter and plays its first node. For a first node that is
    displayed: with the widgets it returns [true], having announced
    ['nodePlayed'] and then ['chapterStarted'], the last notification;
    without them the exception of the first node ends [playChapter],
    which announces neither. Either way the chapter and its first node
    are current afterwards. *)
Theorem chapter_condition_met_by_any_visited_node (installed : bool) (fuel : nat)
    (g : Game) (chapter : Story.Chapter) (condition : Story.UnlockCondition)
    (first : string) (node : Dialog.StoryNode)
    (rest : list (string * Dialog.StoryNode)) :
  List.find (fun c => bool_decide (Story.chapter_id c = Story.chapter_id chapter))
            (Story._config (story g)) = Some chapter ->
  Story.chapter_unlockCondition chapter = Some condition ->
  Story.unlock_type condition = "chapter" ->
  Story.chapter_nodes chapter = (first, node) :: rest ->
  first <> "" ->
  Dialog.node_type node ∈ [Dialog.DIALOG; Dialog.NARRATION; Dialog.CHOICE; Dialog.END] ->
  (Story._visitedNodes (story g) = ∅ ->
   StoryWidgets.playChapter installed (S fuel) (Story.chapter_id chapter) g
   = Ok false
       (with_emitted
          (emitted g ++ [fromStory (Story.chapterLocked (Story.chapter_id chapter))])
          g))
  /\ (Story._visitedNodes (story g) <> ∅ ->
      exists g',
        StoryWidgets.playChapter installed (S fuel) (Story.chapter_id chapter) g
        = (if installed then Ok true g' else Threw g')
        /\ Story._currentChapter (story g') = Some chapter
        /\ Story._currentNodeId (story g') = first
        /\ Dialog._currentNode (dialog g') = Some node
        /\ storyNotifications (emitted g')
           = storyNotifications (emitted g)
             ++ (if installed
                 then [Story.nodePlayed node;
                       Story.chapterStarted (Story.chapter_id chapter)]
                 else [])
        /\ (installed = true ->
            last (emitted g')
            = Some (fromStory (Story.chapterStarted (Story.chapter_id chapter))))).
Proof.
  intros Hfind Hcond Htype Hnodes Hfirst Hdisplayed. split.
  - intros Hvisited. unfold StoryWidgets.playChapter.
    erewrite bind_Ok by reflexivity. rewrite Hfind, Hcond.
    unfold StoryManager.checkCondition.
    rewrite bool_decide_eq_true_2 by exact Htype.
    rewrite Hvisited, size_empty.
    reflexivity.
  - intros Hvisited. rewrite widgets_playChapter_open; [|exact Hfind|].
    2:{ rewrite Hcond. unfold StoryManager.checkCondition.
        rewrite bool_decide_eq_true_2 by exact Htype.
        apply bool_decide_eq_true_2. intros H. apply Hvisited.
        apply leibniz_equiv. by apply size_empty_inv. }
    unfold StoryManager.firstNodeId. rewrite Hnodes.
    cbn [fmap list_fmap head fst truthyString].
    rewrite bool_decide_eq_false_2 by exact Hfirst.
    set (g1 := with_story _ g).
    assert (Hlookup : Story.lookupNode first (Story.chapter_nodes chapter) = Some node).
    { rewrite Hnodes. cbn. by rewrite bool_decide_eq_true_2. }
    destruct (widgets_playNode_displayed installed fuel g1 chapter first node
                eq_refl Hlookup Hdisplayed)
      as (g2 & Hrun & Hchap & Hid & _ & Hdn & _ & Hsn & _).
    unfold bind at 1. unfold bind at 1. rewrite Hrun.
    destruct installed.
    + eexists. split; [reflexivity|].
      cbn [ret bind emit modify]. cbn [story dialog emitted with_emitted].
      rewrite storyNotifications_app, Hsn, <- app_assoc.
      split; [exact Hchap|]. split; [exact Hid|]. split; [exact Hdn|].
      split; [reflexivity|]. intros _. apply last_snoc.
    + exists g2. split; [reflexivity|].
      split; [exact Hchap|]. split; [exact Hid|]. split; [exact Hdn|].
      split; [exact Hsn|]. done.
Qed.

Lemma chapter_condition_met_by_any_visited_node_witness :
  let chapter :=
    Story.mkChapter "ch01" "chapter" ""
      (Some (Story.mkUnlockCondition "chapter" None (JsString "ch00"))) None
      [textNode "s" Dialog.DIALOG None] in
  let g := newGame [chapter] in
  let visited := with_story (StoryManager.enterNode "x" (story g)) g in
  StoryWidgets.playChapter false 1 "ch01" g
  = Ok false (with_emitted [fromStory (Story.chapterLocked "ch01")] g)
  /\ (exists g',
        StoryWidgets.playChapter false 1 "ch01" visited = Threw g'
        /\ Story._currentChapter (story g') = Some chapter
        /\ Story._currentNodeId (story g') = "s"
        /\ storyNotifications (emitted g') = [])
  /\ (exists g',
        StoryWidgets.playChapter true 1 "ch01" visited = Ok true g'
        /\ Story._currentChapter (story g') = Some chapter
        /\ Story._currentNodeId (story g') = "s"
        /\ storyNotifications (emitted g')
           = [Story.nodePlayed (textNode "s" Dialog.DIALOG None).2;
              Story.chapterStarted "ch01"]).
Proof.
  intros chapter g visited.
  assert (Hdisplayed : Dialog.node_type (textNode "s" Dialog.DIALOG None).2
                       ∈ [Dialog.DIALOG; Dialog.NARRATION; Dialog.CHOICE; Dialog.END])
    by (apply (bool_decide_unpack _); by vm_compute).
  assert (Hfirst : "s" <> "") by done.
  assert (Hvisited : Story._visitedNodes (story visited) <> ∅).
  { intros H. apply (f_equal (fun s : gset string => bool_decide ("x" ∈ s))) in H.
    by vm_compute in H. }
  split; [|split].
  - exact (proj1 (chapter_condition_met_by_any_visited_node false 0 g
                    chapter (Story.mkUnlockCondition "chapter" None (JsString "ch00"))
                    "s" (textNode "s" Dialog.DIALOG None).2 []
                    eq_refl eq_refl eq_refl eq_refl Hfirst Hdisplayed)
                 eq_refl).
  - destruct (proj2 (chapter_condition_met_by_any_visited_node false 0 visited
                       chapter (Story.mkUnlockCondition "chapter" None (JsString "ch00"))
                       "s" (textNode "s" Dialog.DIALOG None).2 []
                       eq_refl eq_refl eq_refl eq_refl Hfirst Hdisplayed)
                    Hvisited)
      as (g' & Hrun & Hch & Hid & _ & Hsn & _).
    exists g'. by repeat split.
  - destruct (proj2 (chapter_condition_met_by_any_visited_node true 0 visited
                       chapter (Story.mkUnlockCondition "chapter" None (JsString "ch00"))
                       "s" (textNode "s" Dialog.DIALOG None).2 []
                       eq_refl eq_refl eq_refl eq_refl Hfirst Hdisplayed)
                    Hvisited)
      as (g' & Hrun & Hch & Hid & _ & Hsn & _).
    exists g'. by repeat split.
Defined.

(** X24. [next] on a node whose [next] names nothing that the read of
    the current chapter's node table finds (neither a node nor a member
    every object inherits) returns [false] and changes nothing: the
    chapter does not end, and every further [next] does the same. *)
Theorem next_at_dead_link_is_stuck (fuel : nat) (g : Game)
    (chapter : Story.Chapter) (node : Dialog.StoryNode) (nextId : string) :
  Story._currentChapter (story g) = Some chapter ->
  Story.lookupNode (Story._currentNodeId (story g)) (Story.chapter_nodes chapter)
  = Some node ->
  truthyString (Dialog.node_next node) = Some nextId ->
  nodeAt nextId (Story.chapter_nodes chapter) = None ->
  StoryManager.next (S fuel) g = Ok false g.
Proof.
  intros Hch Hnode Hnext Hdead. unfold StoryManager.next.
  erewrite bind_Ok by reflexivity. rewrite Hch, Hnode.
  cbn [mbind option_bind]. rewrite Hnext.
  apply playNode_unknown. rewrite Hch. by apply nodeAt_None.
Qed.

Lemma next_at_dead_link_is_stuck_witness :
  StoryManager.next 5 (gameAtNode mockChapter "ch00_01")
  = Ok false (gameAtNode mockChapter "ch00_01").
Proof.
  eapply (next_at_dead_link_is_stuck 4 (gameAtNode mockChapter "ch00_01") mockChapter).
  - reflexivity.
  - reflexivity.
  - reflexivity.
  - reflexivity.
Defined.

(** X25. [next] in the last chapter, on a node without [next] (or when
    the current node id names no node of the chapter), ends the story: it
    returns [true] with any bound on the depth of the walk, notifies
    ['storyEnded'], asks the state machine for ENDING, and leaves the
    story's own state as it is, so that a further [next] ends the story
    again. *)
Theorem next_at_end_of_last_chapter (fuel : nat) (g : Game) (chapter : Story.Chapter) :
  Story._currentChapter (story g) = Some chapter ->
  Story.lookupNode (Story._currentNodeId (story g)) (Story.chapter_nodes chapter)
    ≫= (fun currentNode => truthyString (Dialog.node_next currentNode)) = None ->
  StoryManager.currentIndex (story g)
  = Z.of_nat (length (Story._config (story g))) - 1 ->
  match StoryManager.next fuel g with
  | Ok r g' =>
      r = true
      /\ story g' = story g
      /\ characters g' = characters g
      /\ last (emitted g') = Some (fromStory Story.storyEnded)
      /\ GameStateMachine._currentState (stateMachine g')
         = (if GameStateMachine.canTransition GameStateMachine.ENDING (stateMachine g)
            then GameStateMachine.ENDING
            else GameStateMachine._currentState (stateMachine g))
  | _ => False
  end.
Proof.
  intros Hch Hlast Hindex. unfold StoryManager.next.
  erewrite bind_Ok by reflexivity. rewrite Hch, Hlast.
  unfold StoryManager.endChapter. erewrite bind_Ok by reflexivity. cbn zeta.
  rewrite Hindex, Z.ltb_irrefl.
  erewrite bind_Ok by apply changeState_run.
  cbn [bind emit modify ret]. cbn [story characters emitted stateMachine
                                   with_emitted with_stateMachine].
  split; [reflexivity|]. split; [reflexivity|]. split; [reflexivity|].
  split; [apply last_snoc|apply changeState_mode].
Qed.

Lemma next_at_end_of_last_chapter_witness :
  let chapter := chapterOf [textNode "a" Dialog.DIALOG None] in
  match StoryManager.next 0 (gameAtNode chapter "a") with
  | Ok r g' =>
      r = true
      /\ story g' = story (gameAtNode chapter "a")
      /\ last (emitted g') = Some (fromStory Story.storyEnded)
  | _ => False
  end.
Proof.
  intros chapter.
  pose proof (next_at_end_of_last_chapter 0 (gameAtNode chapter "a") chapter
                eq_refl eq_refl eq_refl) as H.
  destruct (StoryManager.next 0 (gameAtNode chapter "a")) as [r g'|g'|]; try done.
  destruct H as (Hr & Hs & _ & He & _). by repeat split.
Defined.

(* ===================================================================== *)
(** * Inventory *)
(* ===================================================================== *)

Section InventoryFacts.
Import InventorySystem.

Lemma config_entry (k : string) (config : ItemData) :
  ITEM_CONFIG !! k = Some config ->
  item_id config = k /\ item_usable config = None
  /\ (item_type config = GIFT \/ item_type config = KEY).
Proof.
  intros H. unfold ITEM_CONFIG in H. apply elem_of_list_to_map_2 in H.
  unfold giftItem, keyItem in H.
  repeat (apply elem_of_cons in H as [H|H];
          [injection H as -> ->; cbn; by eauto|]).
  by apply elem_of_nil in H.
Qed.

Lemma configAt_table (k : string) :
  is_Some (ITEM_CONFIG !! k) -> is_Some (configAt k).
Proof. intros [config H]. unfold configAt. rewrite H. by eexists. Qed.

Lemma configAt_ownKeyOnly (k : string) :
  ownKeyOnly k -> is_Some (configAt k) -> is_Some (ITEM_CONFIG !! k).
Proof.
  intros Hk [v H]. unfold configAt in H.
  destruct (ITEM_CONFIG !! k) as [config|]; [by eexists|].
  by rewrite bool_decide_eq_false_2 in H.
Qed.

Lemma configAt_usable (k : string) (config : ConfigValue) :
  configAt k = Some config -> usableOf config = None.
Proof.
  unfold configAt. destruct (ITEM_CONFIG !! k) as [c|] eqn:E.
  - intros [= <-]. cbn. by destruct (config_entry _ _ E) as (_ & -> & _).
  - case_bool_decide; [|done]. by intros [= <-].
Qed.

Lemma configAt_gift (k : string) (config : ConfigValue) :
  configAt k = Some config ->
  typeOf config = Some GIFT <->
  exists c, ITEM_CONFIG !! k = Some c /\ item_type c = GIFT.
Proof.
  unfold configAt. destruct (ITEM_CONFIG !! k) as [c|] eqn:E.
  - intros [= <-]. cbn. split.
    + intros [= H]. by exists c.
    + intros (c' & [= <-] & H). by rewrite H.
  - case_bool_decide; [|done]. intros [= <-]. cbn. split; [done|].
    by intros (c' & ? & _).
Qed.

Lemma new_countsPositive : countsPositive new.
Proof.
  split; [|done]. intros k item H. cbn in H. by rewrite lookup_empty in H.
Qed.

Lemma new_invariant : inventoryInvariant new.
Proof.
  split; [|done]. intros k item H. cbn in H. by rewrite lookup_empty in H.
Qed.

Lemma addItem_known (k : string) (n now : Z) (s : t) :
  is_Some (ITEM_CONFIG !! k) ->
  addItem k n now s
  = (true,
     {| _items :=
          <[k := match _items s !! k with
                 | Some item => set_count (count item + n) item
                 | None => {| id := k; count := n; obtained := true;
                              obtainedTime := Some now |}
                 end]> (_items s);
        _currency := _currency s |},
     [itemAdded k n]).
Proof.
  intros Hk. destruct (configAt_table _ Hk) as [config H].
  unfold addItem. by rewrite H.
Qed.

(** What [addItem] keeps, for a property [P] of the ids it accepts. *)
Lemma addItem_held (P : string -> Prop) (k : string) (n now : Z) (s : t) :
  0 < n ->
  (is_Some (configAt k) -> P k) ->
  (forall k' item, _items s !! k' = Some item ->
     id item = k' /\ 0 < count item /\ P k') ->
  forall k' item, _items (addItem k n now s).1.2 !! k' = Some item ->
    id item = k' /\ 0 < count item /\ P k'.
Proof.
  intros Hn HP Hitems k' item. unfold addItem.
  destruct (configAt k) as [config|] eqn:E; [|by apply Hitems].
  cbn [fst snd _items]. intros Hk'.
  destruct (decide (k = k')) as [<-|Hne].
  - rewrite lookup_insert_eq in Hk'. injection Hk' as <-.
    destruct (_items s !! k) as [old|] eqn:Hold; cbn.
    + destruct (Hitems _ _ Hold) as (Hid & Hpos & Hcfg).
      split; [done|]. split; [lia|done].
    + split; [done|]. split; [done|]. apply HP. by eexists.
  - rewrite lookup_insert_ne in Hk' by done. by apply Hitems.
Qed.

Lemma addItem_currency (k : string) (n now : Z) (s : t) :
  _currency (addItem k n now s).1.2 = _currency s.
Proof. unfold addItem. by destruct (configAt k). Qed.

(** What [removeItem] keeps. *)
Lemma removeItem_held (P : string -> Prop) (k : string) (n : Z) (s : t) :
  (forall k' item, _items s !! k' = Some item ->
     id item = k' /\ 0 < count item /\ P k') ->
  forall k' item, _items (removeItem k n s).1.2 !! k' = Some item ->
    id item = k' /\ 0 < count item /\ P k'.
Proof.
  intros Hitems k' item'. unfold removeItem.
  destruct (_items s !! k) as [item|] eqn:E; [|by apply Hitems].
  destruct (Z.ltb_spec (count item) n); [by apply Hitems|].
  cbn [fst snd _items]. intros Hk'.
  destruct (Z.leb_spec (count item - n) 0).
  - apply lookup_delete_Some in Hk' as [_ Hk']. by apply Hitems.
  - destruct (decide (k = k')) as [<-|Hne].
    + rewrite lookup_insert_eq in Hk'. injection Hk' as <-. cbn.
      destruct (Hitems _ _ E) as (Hid & _ & Hcfg). split; [done|]. split; [lia|done].
    + rewrite lookup_insert_ne in Hk' by done. by apply Hitems.
Qed.

Lemma removeItem_currency (k : string) (n : Z) (s : t) :
  _currency (removeItem k n s).1.2 = _currency s.
Proof.
  unfold removeItem. destruct (_items s !! k) as [item|]; [|done].
  by destruct (count item <? n).
Qed.

Lemma useItem_refused (k : string) (target : option string) (s : t) :
  useItem k target s = (false, s, []).
Proof.
  unfold useItem. destruct (_items s !! k) as [item|]; [|done].
  destruct (configAt k) as [config|] eqn:E; [|done].
  by rewrite (configAt_usable _ _ E).
Qed.

Lemma giveGift_state (k c : string) (delta : Z) (s : t) :
  (giveGift k c delta s).1.2 = s
  \/ (giveGift k c delta s).1.2 = (removeItem k 1 s).1.2.
Proof.
  unfold giveGift. destruct (configAt k) as [config|]; [|by left].
  destruct (negb _); [by left|]. destruct (negb _); [by left|].
  right. by destruct (removeItem k 1 s) as [[r s1] ev1].
Qed.

(** One call keeps the held items within [P] and the currency from
    going below zero. *)
Lemma runInventoryCall_held (P : string -> Prop) (s : t) (call : InventoryCall) :
  positiveCall call ->
  (forall k n now, call = callAddItem k n now -> is_Some (configAt k) -> P k) ->
  P "gift_flower" -> P "gift_chocolate" ->
  ((forall k item, _items s !! k = Some item ->
      id item = k /\ 0 < count item /\ P k)
   /\ 0 <= _currency s) ->
  (forall k item, _items (runInventoryCall s call) !! k = Some item ->
     id item = k /\ 0 < count item /\ P k)
  /\ 0 <= _currency (runInventoryCall s call).
Proof.
  intros Hpos HP Hflower Hchocolate [Hitems Hcur].
  destruct call as [k n now|k n|k target|k c delta|amount|amount|now];
    cbn [runInventoryCall positiveCall] in *.
  - split; [|by rewrite addItem_currency].
    apply addItem_held; [exact Hpos| |exact Hitems]. by apply (HP k n now).
  - split; [|by rewrite removeItem_currency]. by apply removeItem_held.
  - by rewrite useItem_refused.
  - destruct (giveGift_state k c delta s) as [->| ->]; [done|].
    split; [|by rewrite removeItem_currency]. by apply removeItem_held.
  - split; [exact Hitems|]. cbn. lia.
  - unfold spendCurrency.
    destruct (Z.ltb_spec (_currency s) amount); [done|].
    split; [exact Hitems|]. cbn. lia.
  - unfold reset, init.
    pose proof (addItem_held P "gift_flower" 3 now
                  {| _items := ∅; _currency := 500 |} ltac:(lia)
                  (fun _ => Hflower)) as H1.
    pose proof (addItem_currency "gift_flower" 3 now
                  {| _items := ∅; _currency := 500 |}) as C1.
    destruct (addItem "gift_flower" 3 now _) as [[r1 s1] ev1].
    pose proof (addItem_held P "gift_chocolate" 2 now s1 ltac:(lia)
                  (fun _ => Hchocolate)) as H2.
    pose proof (addItem_currency "gift_chocolate" 2 now s1) as C2.
    destruct (addItem "gift_chocolate" 2 now s1) as [[r2 s2] ev2].
    cbn [fst snd] in *. split; [|rewrite C2, C1; cbn; lia].
    apply H2, H1. intros k item H. cbn in H. by rewrite lookup_empty in H.
Qed.

Lemma addItem_invariant (k : string) (n now : Z) (s : t) :
  0 < n -> ownKeyOnly k -> inventoryInvariant s ->
  inventoryInvariant (addItem k n now s).1.2.
Proof.
  intros Hn Hk [Hitems Hcur]. split; [|by rewrite addItem_currency].
  apply (addItem_held (fun k => is_Some (ITEM_CONFIG !! k))); [done| |done].
  by apply configAt_ownKeyOnly.
Qed.

End InventoryFacts.

(** X26. Every held item is filed under its own id with a positive
    count, and the currency is never negative: this holds for a new
    inventory and is kept by every sequence of calls that add or remove a
    positive number of items and move a non-negative amount of currency;
    in such an inventory [hasItem] holds exactly for the ids that are
    held, and [getItemCount] is positive exactly for them. The held items
    are items of the item table as long as no [addItem] call names a
    member every object inherits; [addItem] accepts such a name, for which
    the read of the table finds the inherited member, and files an item
    the table does not have. *)
Theorem inventory_counts_stay_positive :
  (countsPositive InventorySystem.new
   /\ forall calls s,
        Forall positiveCall calls -> countsPositive s ->
        countsPositive (runInventoryCalls calls s))
  /\ (inventoryInvariant InventorySystem.new
      /\ forall calls s,
           Forall positiveCall calls -> Forall ordinaryCall calls ->
           inventoryInvariant s ->
           inventoryInvariant (runInventoryCalls calls s))
  /\ (forall s k,
        countsPositive s ->
        (InventorySystem.hasItem k s = true <-> is_Some (InventorySystem._items s !! k))
        /\ (0 < InventorySystem.getItemCount k s
            <-> is_Some (InventorySystem._items s !! k))
        /\ 0 <= InventorySystem.getItemCount k s)
  /\ (forall s k n now,
        k ∈ objectMembers ->
        (InventorySystem.addItem k n now s).1.1 = true
        /\ InventorySystem.getItemCount k (InventorySystem.addItem k n now s).1.2
           = InventorySystem.getItemCount k s + n
        /\ InventorySystem.ITEM_CONFIG !! k = None).
Proof.
  split; [|split; [|split]].
  - split; [exact new_countsPositive|].
    intros calls. induction calls as [|call calls IH]; intros s Hpos Hs; [exact Hs|].
    apply Forall_cons in Hpos as [Hcall Hpos].
    cbn [runInventoryCalls fold_left]. apply IH; [exact Hpos|].
    apply (runInventoryCall_held (fun k => is_Some (InventorySystem.configAt k)));
      [exact Hcall|done|by vm_compute; eexists|by vm_compute; eexists|exact Hs].
  - split; [exact new_invariant|].
    intros calls. induction calls as [|call calls IH]; intros s Hpos Hord Hs;
      [exact Hs|].
    apply Forall_cons in Hpos as [Hcall Hpos].
    apply Forall_cons in Hord as [Hocall Hord].
    cbn [runInventoryCalls fold_left]. apply IH; [exact Hpos|exact Hord|].
    apply (runInventoryCall_held
             (fun k => is_Some (InventorySystem.ITEM_CONFIG !! k)));
      [exact Hcall| |by vm_compute; eexists|by vm_compute; eexists|exact Hs].
    intros k n now -> Hcfg. by apply configAt_ownKeyOnly.
  - intros s k [Hitems _].
    unfold InventorySystem.hasItem, InventorySystem.getItemCount.
    destruct (InventorySystem._items s !! k) as [item|] eqn:E.
    + destruct (Hitems _ _ E) as (_ & Hpos & _).
      split; [|split; [|lia]].
      * split; [by eexists|]. intros _. by apply Z.ltb_lt.
      * split; [by eexists|done].
    + split; [|split; [|lia]].
      * split; [done|]. by intros [? ?].
      * split; [lia|]. by intros [? ?].
  - intros s k n now Hk.
    assert (Hnone : InventorySystem.ITEM_CONFIG !! k = None).
    { unfold objectMembers in Hk.
      repeat (apply elem_of_cons in Hk as [->|Hk]; [by vm_compute|]).
      by apply elem_of_nil in Hk. }
    unfold InventorySystem.addItem, InventorySystem.configAt,
      InventorySystem.getItemCount.
    rewrite Hnone, bool_decide_eq_true_2 by exact Hk.
    cbn [fst snd InventorySystem._items]. rewrite lookup_insert_eq.
    split; [reflexivity|]. split; [|reflexivity].
    destruct (InventorySystem._items s !! k); cbn; lia.
Qed.

Lemma inventory_counts_stay_positive_witness :
  let calls := [callResetInventory 1000; callGiveGift "gift_flower" "heroine_1" 5;
                callRemoveItem "gift_chocolate" 2; callSpendCurrency 120] in
  let s := runInventoryCalls calls InventorySystem.new in
  inventoryInvariant s
  /\ InventorySystem.getItemCount "gift_flower" s = 2
  /\ InventorySystem.hasItem "gift_chocolate" s = false
  /\ InventorySystem.getCurrency s = 380
  /\ InventorySystem.hasItem "constructor"
       (runInventoryCalls [callAddItem "constructor" 1 2000] s) = true.
Proof.
  intros calls s. split; [|by vm_compute].
  apply (proj2 (proj1 (proj2 inventory_counts_stay_positive))).
  - repeat constructor; cbn; lia.
  - repeat constructor.
  - exact (proj1 (proj1 (proj2 inventory_counts_stay_positive))).
Defined.

(** X27. Adding a positive number of a known item and removing the same
    number again leaves the inventory exactly as it was, and the removal
    succeeds. Removing an item that is not held, or more of it than is
    held, fails and changes nothing. *)
Theorem addItem_then_removeItem_restores (s : InventorySystem.t) (k : string)
    (n now : Z) :
  inventoryInvariant s ->
  (0 < n -> is_Some (InventorySystem.ITEM_CONFIG !! k) ->
   (InventorySystem.removeItem k n (InventorySystem.addItem k n now s).1.2).1
   = (true, s))
  /\ (InventorySystem._items s !! k = None \/ InventorySystem.getItemCount k s < n ->
      InventorySystem.removeItem k n s = (false, s, [])).
Proof.
  intros [Hitems _]. split.
  - intros Hn Hcfg. rewrite (addItem_known _ _ _ _ Hcfg). cbn [fst snd].
    unfold InventorySystem.removeItem. cbn [InventorySystem._items].
    rewrite lookup_insert_eq.
    destruct (InventorySystem._items s !! k) as [item|] eqn:E;
      cbn [InventorySystem.count InventorySystem.set_count].
    + destruct (Hitems _ _ E) as (_ & Hpos & _).
      destruct (Z.ltb_spec (InventorySystem.count item + n) n); [lia|].
      destruct (Z.leb_spec (InventorySystem.count item + n - n) 0); [lia|].
      cbn [fst]. f_equal. destruct s as [items currency]. cbn in *. f_equal.
      rewrite insert_insert_eq.
      replace (InventorySystem.count item + n - n) with (InventorySystem.count item)
        by lia.
      apply insert_id. rewrite E. by destruct item.
    + destruct (Z.ltb_spec n n); [lia|].
      destruct (Z.leb_spec (n - n) 0); [|lia].
      cbn [fst]. f_equal. destruct s as [items currency]. cbn in *. f_equal.
      by apply delete_insert_id.
  - intros H. unfold InventorySystem.removeItem, InventorySystem.getItemCount in *.
    destruct (InventorySystem._items s !! k) as [item|]; [|done].
    destruct H as [H|H]; [done|].
    by destruct (Z.ltb_spec (InventorySystem.count item) n); [|lia].
Qed.

Lemma addItem_then_removeItem_restores_witness :
  let s := (InventorySystem.addItem "gift_flower" 3 1000 InventorySystem.new).1.2 in
  (InventorySystem.removeItem "gift_book" 4
     (InventorySystem.addItem "gift_book" 4 2000 s).1.2).1 = (true, s)
  /\ InventorySystem.removeItem "gift_flower" 4 s = (false, s, []).
Proof.
  intros s.
  assert (Hs : inventoryInvariant s).
  { apply addItem_invariant; [lia| |exact new_invariant].
    apply (bool_decide_unpack _). by vm_compute. }
  split.
  - apply (proj1 (addItem_then_removeItem_restores s "gift_book" 4 2000 Hs));
      [lia|vm_compute; eexists; reflexivity].
  - apply (proj2 (addItem_then_removeItem_restores s "gift_flower" 4 2000 Hs)).
    right. by vm_compute.
Defined.

(** X28. A gift is given exactly when the id names a gift of the item
    table that is held: one piece of it then leaves the inventory, the
    other items and the currency stay as they are, and the drawn favor is
    returned; otherwise nothing changes and the favor returned is 0. Key
    items can never be given. With the item table of the source no item
    is usable: [useItem] always returns [false] and changes nothing. *)
Theorem giveGift_takes_one_held_gift (s : InventorySystem.t)
    (k characterId : string) (favorDelta : Z) :
  let result := InventorySystem.giveGift k characterId favorDelta s in
  let s' := result.1.2 in
  (result.1.1.1 = true
   <-> (exists config,
          InventorySystem.ITEM_CONFIG !! k = Some config
          /\ InventorySystem.item_type config = InventorySystem.GIFT)
       /\ InventorySystem.hasItem k s = true)
  /\ (result.1.1.1 = true ->
      InventorySystem.getItemCount k s' = InventorySystem.getItemCount k s - 1
      /\ (forall k', k' <> k ->
            InventorySystem._items s' !! k' = InventorySystem._items s !! k')
      /\ InventorySystem._currency s' = InventorySystem._currency s
      /\ result.1.1.2 = favorDelta)
  /\ (result.1.1.1 = false -> s' = s /\ result.2 = [] /\ result.1.1.2 = 0)
  /\ (forall target, InventorySystem.useItem k target s = (false, s, [])).
Proof.
  cbn zeta. unfold InventorySystem.giveGift.
  split; [|split; [|split; [|intros; apply useItem_refused]]].
  - destruct (InventorySystem.configAt k) as [config|] eqn:E.
    + pose proof (configAt_gift _ _ E) as Hgift.
      case_bool_decide as Htype; cbn [negb].
      * destruct (InventorySystem.hasItem k s) eqn:Hhas; cbn [negb].
        -- destruct (InventorySystem.removeItem k 1 s) as [[r s1] ev1]. cbn [fst snd].
           split; [intros _; split; [by apply Hgift|done]|done].
        -- cbn [fst snd]. split; [done|]. by intros [_ ?].
      * cbn [fst snd]. split; [done|]. intros [Hc _]. exfalso. by apply Htype, Hgift.
    + cbn [fst snd]. split; [done|]. intros [(config' & Hc & _) _].
      unfold InventorySystem.configAt in E. by rewrite Hc in E.
  - destruct (InventorySystem.configAt k) as [config|]; [|done].
    destruct (negb _); [done|].
    unfold InventorySystem.hasItem, InventorySystem.removeItem,
      InventorySystem.getItemCount.
    destruct (InventorySystem._items s !! k) as [item|] eqn:E; [|done].
    destruct (Z.ltb_spec 0 (InventorySystem.count item)); [|done]. cbn [negb].
    destruct (Z.ltb_spec (InventorySystem.count item) 1); [lia|].
    cbn [fst snd InventorySystem._items InventorySystem._currency]. intros _.
    destruct (Z.leb_spec (InventorySystem.count item - 1) 0).
    + rewrite lookup_delete_eq. split; [lia|]. split; [|done].
      intros k' Hne. by rewrite lookup_delete_ne.
    + rewrite lookup_insert_eq. split; [done|]. split; [|done].
      intros k' Hne. by rewrite lookup_insert_ne.
  - destruct (InventorySystem.configAt k) as [config|]; [|done].
    destruct (negb _); [done|]. destruct (negb _); [done|].
    by destruct (InventorySystem.removeItem k 1 s) as [[r s1] ev1].
Qed.

Lemma giveGift_takes_one_held_gift_witness :
  let s := (InventorySystem.init 1000 InventorySystem.new).1 in
  (InventorySystem.giveGift "gift_flower" "heroine_1" 5 s).1.1 = (true, 5)
  /\ InventorySystem.getItemCount "gift_flower"
       (InventorySystem.giveGift "gift_flower" "heroine_1" 5 s).1.2 = 2
  /\ (InventorySystem.giveGift "key_student_id" "heroine_1" 5 s).1.1 = (false, 0).
Proof.
  intros s.
  pose proof (giveGift_takes_one_held_gift s "gift_flower" "heroine_1" 5) as H.
  cbn zeta in H. destruct H as (Hiff & Hgiven & _).
  assert (Hok : (InventorySystem.giveGift "gift_flower" "heroine_1" 5 s).1.1.1 = true).
  { apply Hiff. split; [|by vm_compute]. eexists. split; [by vm_compute|reflexivity]. }
  destruct (Hgiven Hok) as (Hcount & _ & _ & Hdelta).
  split; [|split].
  - destruct (InventorySystem.giveGift "gift_flower" "heroine_1" 5 s) as [[[r d] s'] ev].
    cbn in *. by subst.
  - rewrite Hcount. by vm_compute.
  - by vm_compute.
Defined.

(* ===================================================================== *)
(** * The emitter: listeners that take themselves off *)
(* ===================================================================== *)

Section EmitterFacts.
Import EventEmitter.

Lemma removeFirst_wrapper (pre : list nat) (w a : nat) (rest : list Callback) :
  removeFirst (wrapper w a) (map plain pre ++ wrapper w a :: rest)
  = map plain pre ++ rest.
Proof.
  induction pre as [|p pre IH]; cbn.
  - by rewrite decide_True.
  - rewrite decide_False by done. by rewrite IH.
Qed.

Lemma forEachFrom_past_end (k remaining : nat) (event : string) (data : JsValue)
    (s : t) :
  (length (default [] (_events s !! event)) <= k)%nat ->
  forEachFrom k remaining event data s = s.
Proof.
  revert k. induction remaining as [|remaining IH]; intros k Hk; [done|].
  cbn [forEachFrom]. rewrite lookup_ge_None_2 by exact Hk. apply IH. lia.
Qed.

Lemma forEachFrom_step (k remaining : nat) (event : string) (data : JsValue)
    (s : t) (cb : Callback) :
  default [] (_events s !! event) !! k = Some cb ->
  forEachFrom k (S remaining) event data s
  = forEachFrom (S k) remaining event data (call event data cb s).
Proof. intros H. cbn [forEachFrom]. by rewrite H. Qed.

(** The loop over a stretch of callers' callbacks: each is called, in
    order, and the table stays as it is. *)
Lemma forEachFrom_plain (mid : list nat) (front rest : list Callback)
    (remaining : nat) (event : string) (data : JsValue) (s : t) :
  _events s !! event = Some (front ++ map plain mid ++ rest) ->
  forEachFrom (length front) (length mid + remaining) event data s
  = forEachFrom (length front + length mid) remaining event data
      {| _events := _events s; serials := serials s;
         called := called s ++ map (fun callback => (callback, data)) mid |}.
Proof.
  revert front s. induction mid as [|m mid IH]; intros front s Hs.
  - cbn [length map Nat.add]. rewrite Nat.add_0_r, app_nil_r. by destruct s.
  - cbn [length]. rewrite Nat.add_succ_l. cbn [forEachFrom]. rewrite Hs.
    cbn [default from_option id].
    assert (Hk : (front ++ map plain (m :: mid) ++ rest) !! length front
                 = Some (plain m)).
    { rewrite lookup_app_r by lia. by rewrite Nat.sub_diag. }
    rewrite Hk. cbn [call]. set (s1 := mk _ _ _).
    specialize (IH (front ++ [plain m]) s1).
    rewrite length_app in IH. cbn [length] in IH.
    replace (length front + 1)%nat with (S (length front)) in IH by lia.
    rewrite IH.
    2:{ subst s1. cbn [_events]. rewrite Hs. f_equal. by rewrite <- app_assoc. }
    subst s1. cbn [_events serials called].
    replace (S (length front) + length mid)%nat
      with (length front + S (length mid))%nat by lia.
    f_equal. f_equal. by rewrite <- app_assoc.
Qed.

Lemma emit_plain (l : list nat) (event : string) (data : JsValue) (s : t) :
  _events s !! event = Some (map plain l) ->
  emit event data s
  = {| _events := _events s; serials := serials s;
       called := called s ++ map (fun callback => (callback, data)) l |}.
Proof.
  intros Hs. unfold emit. rewrite Hs. rewrite length_map.
  pose proof (forEachFrom_plain l [] [] 0 event data s) as H.
  cbn [length app Nat.add] in H. rewrite Nat.add_0_r, app_nil_r in H.
  by rewrite H.
Qed.

End EmitterFacts.

(** X29. When all listeners of an event were registered with [on], [emit]
    calls each of them once, in the order of registration, and leaves the
    table as it is. A listener registered with [once] takes itself off
    the table while [emit] is still walking it: the listener registered
    right after it is passed over in that round and is called, in its
    place, only from the next [emit] on. The callbacks are taken not to
    reach back into the emitter. *)
Theorem once_listener_hides_its_successor (s : EventEmitter.t) (event : string)
    (data : JsValue) :
  (forall l,
     EventEmitter._events s !! event = Some (map EventEmitter.plain l) ->
     EventEmitter.called (EventEmitter.emit event data s)
     = EventEmitter.called s ++ map (fun callback => (callback, data)) l
     /\ EventEmitter._events (EventEmitter.emit event data s)
        = EventEmitter._events s)
  /\ (forall pre w a b post,
        EventEmitter._events s !! event
        = Some (map EventEmitter.plain pre
                ++ [EventEmitter.wrapper w a; EventEmitter.plain b]
                ++ map EventEmitter.plain post) ->
        let s1 := EventEmitter.emit event data s in
        EventEmitter.called s1
        = EventEmitter.called s
          ++ map (fun callback => (callback, data)) (pre ++ [a] ++ post)
        /\ EventEmitter._events s1 !! event
           = Some (map EventEmitter.plain (pre ++ [b] ++ post))
        /\ EventEmitter.called (EventEmitter.emit event data s1)
           = EventEmitter.called s1
             ++ map (fun callback => (callback, data)) (pre ++ [b] ++ post)).
Proof.
  split.
  - intros l Hs. by rewrite (emit_plain l).
  - intros pre w a b post Hs. cbn zeta.
    assert (Hemit :
              EventEmitter.emit event data s
              = {| EventEmitter._events :=
                     <[event := map EventEmitter.plain (pre ++ [b] ++ post)]>
                       (EventEmitter._events s);
                   EventEmitter.serials := EventEmitter.serials s;
                   EventEmitter.called :=
                     EventEmitter.called s
                     ++ map (fun callback => (callback, data)) (pre ++ [a] ++ post) |}).
    { unfold EventEmitter.emit. rewrite Hs.
      assert (Hlen : length (map EventEmitter.plain pre
                             ++ [EventEmitter.wrapper w a; EventEmitter.plain b]
                             ++ map EventEmitter.plain post)
                     = (length pre + S (S (length post)))%nat)
        by (rewrite !length_app, !length_map; cbn; lia).
      rewrite Hlen. clear Hlen.
      pose proof (forEachFrom_plain pre []
                    ([EventEmitter.wrapper w a; EventEmitter.plain b]
                     ++ map EventEmitter.plain post)
                    (S (S (length post))) event data s Hs) as H1.
      cbn [length Nat.add app] in H1. rewrite H1. clear H1.
      set (s1 := EventEmitter.mk _ _ _).
      rewrite (forEachFrom_step _ _ _ _ s1 (EventEmitter.wrapper w a)).
      2:{ subst s1. cbn [EventEmitter._events]. rewrite Hs.
          cbn [default from_option id].
          rewrite lookup_app_r by (rewrite length_map; lia).
          by rewrite length_map, Nat.sub_diag. }
      assert (Hcall :
                EventEmitter.call event data (EventEmitter.wrapper w a) s1
                = {| EventEmitter._events :=
                       <[event := map EventEmitter.plain pre
                                  ++ EventEmitter.plain b
                                     :: map EventEmitter.plain post]>
                         (EventEmitter._events s);
                     EventEmitter.serials := EventEmitter.serials s;
                     EventEmitter.called :=
                       (EventEmitter.called s
                        ++ map (fun callback => (callback, data)) pre)
                       ++ [(a, data)] |}).
      { subst s1. unfold EventEmitter.call, EventEmitter.off.
        cbn [EventEmitter._events EventEmitter.serials EventEmitter.called].
        rewrite Hs. cbn [app]. by rewrite removeFirst_wrapper. }
      rewrite Hcall. clear Hcall. set (s2 := EventEmitter.mk _ _ _).
      pose proof (forEachFrom_plain post
                    (map EventEmitter.plain pre ++ [EventEmitter.plain b]) []
                    1 event data s2) as H2.
      rewrite length_app, length_map in H2. cbn [length] in H2.
      replace (length pre + 1)%nat with (S (length pre)) in H2 by lia.
      replace (length post + 1)%nat with (S (length post)) in H2 by lia.
      rewrite H2.
      2:{ subst s2. cbn [EventEmitter._events]. rewrite lookup_insert_eq.
          f_equal. by rewrite app_nil_r, <- app_assoc. }
      rewrite forEachFrom_past_end.
      2:{ subst s2. cbn [EventEmitter._events]. rewrite lookup_insert_eq.
          cbn [default from_option id].
          rewrite length_app. cbn [length]. rewrite !length_map. lia. }
      subst s2. cbn [EventEmitter._events EventEmitter.serials EventEmitter.called].
      f_equal.
      - f_equal. rewrite !map_app. reflexivity.
      - rewrite <- !app_assoc. f_equal. rewrite !map_app. reflexivity. }
    rewrite Hemit. cbn [EventEmitter.called EventEmitter._events].
    split; [reflexivity|]. split; [apply lookup_insert_eq|].
    rewrite (emit_plain (pre ++ [b] ++ post)); [reflexivity|].
    cbn [EventEmitter._events]. apply lookup_insert_eq.
Qed.

Lemma once_listener_hides_its_successor_witness :
  let s := EventEmitter.on "saved" (EventEmitter.plain 2)
             (EventEmitter.once "saved" 1 EventEmitter.new) in
  EventEmitter.called (EventEmitter.emit "saved" JsUndefined s) = [(1%nat, JsUndefined)]
  /\ EventEmitter.called
       (EventEmitter.emit "saved" JsUndefined (EventEmitter.emit "saved" JsUndefined s))
     = [(1%nat, JsUndefined); (2%nat, JsUndefined)].
Proof.
  intros s.
  destruct (proj2 (once_listener_hides_its_successor s "saved" JsUndefined)
              [] 0%nat 1%nat 2%nat [] eq_refl) as (H1 & _ & H2).
  split; [exact H1|]. rewrite H2, H1. reflexivity.
Defined.
